(** * Swiggy Cupid: session orchestration, quiz progression and scoring

    A shallow embedding of the TypeScript sources
      - [src/models/types.ts]          (data model, [QUIZ_QUESTIONS])
      - [src/services/quiz.ts]         ([QuizService])
      - [src/services/room.ts]         ([RoomService])
      - [src/agent/tools/matching.ts]  ([calculateQuestionScore], [calculateMatchTool])
      - [src/agent/tools/quiz.ts]      ([startQuizTool], [submitAnswerTool])
      - [src/agent/agent.ts]           ([agentTools])
      - [src/auth/swiggy-oauth.ts]     ([hasTokens], [getTokens], the verifier store)
      - [src/server/routes.ts]         (create, join, photo upload, auth callback)
      - [src/server/websocket.ts]      ([processMessage], [connectAndInjectTools], ...)

    Conventions.  A JavaScript [number] holding a question id, a score or a
    time stamp is a [Z]; a JavaScript string is a [string] (compared with
    [===], here [String.eqb]); an object literal used as a dictionary is an
    association list read with [obj_get], which also answers for the names
    the literal inherits from [Object.prototype]; a [Map] is a [gmap], a
    [Set] a [gset].  A method that mutates its argument returns the new
    value next to its result; a function that can throw returns an
    [Outcome]. *)

From Stdlib Require Import ZArith QArith Qround Lqa List Bool DecimalString.
From stdpp Require Import gmap strings list fin_maps.
Import ListNotations.

Close Scope Q_scope.
Local Open Scope Z_scope.
Local Open Scope string_scope.
Local Open Scope list_scope.

(** ** Helpers for JavaScript idioms *)

(** [Array.prototype.includes] on an array of strings. *)
Definition includes (xs : list string) (x : string) : bool :=
  existsb (String.eqb x) xs.

(** The property names every object literal inherits: the own property
    names of [Object.prototype].  All of them name functions, but for
    ["__proto__"], which names [Object.prototype] itself. *)
Definition Object_prototype : list string := [
  "constructor"; "__defineGetter__"; "__defineSetter__"; "hasOwnProperty";
  "__lookupGetter__"; "__lookupSetter__"; "isPrototypeOf";
  "propertyIsEnumerable"; "toString"; "valueOf"; "__proto__"; "toLocaleString"
].

(** What [obj[key]] finds on an object literal, when it finds something:
    a value the literal lists, or the member of [Object.prototype] of that
    name (a function or an object: truthy, not nullish, no array and no
    string). *)
Inductive Member (V : Type) :=
| Own (v : V)
| Inherited (name : string).
Arguments Own {V} v.
Arguments Inherited {V} name.

(** The property of the literal itself named [key]. *)
Fixpoint own_get {V : Type} (key : string) (obj : list (string * V)) : option V :=
  match obj with
  | [] => None
  | (k, v) :: rest => if String.eqb k key then Some v else own_get key rest
  end.

(** [obj[key]] on an object literal used as a dictionary: own properties
    first, then the prototype; [None] for [undefined]. *)
Definition obj_get {V : Type} (key : string) (obj : list (string * V))
  : option (Member V) :=
  match own_get key obj with
  | Some v => Some (Own v)
  | None => if includes Object_prototype key then Some (Inherited key) else None
  end.

(** How a call ends: with a value, or with an exception thrown. *)
Inductive Outcome (A : Type) :=
| Returned (a : A)
| Thrown.
Arguments Returned {A} a.
Arguments Thrown {A}.

(** [Math.round]: the nearest integer, ties towards +infinity. *)
Definition Math_round (q : Q) : Z := Qfloor (q + (1 # 2))%Q.

(** Template-literal rendering of an integer. *)
Definition string_of_Z (z : Z) : string := NilZero.string_of_int (Z.to_int z).

(** ** src/models/types.ts *)

Module Types.

Record QuizAnswer := mkQuizAnswer {
  questionId : Z;
  answer : string
}.

Record QuestionMatch := mkQuestionMatch {
  qm_questionId : Z;
  partner1Answer : string;
  partner2Answer : string;
  score : Z
}.

Inductive ActionType := delivery | dineout | cook.

Record Recommendation := mkRecommendation {
  rec_type : ActionType;
  title : string;
  description : string;
  matchedPreferences : list string
}.

Record MatchResult := mkMatchResult {
  compatibility : Z;
  breakdown : list QuestionMatch;
  recommendations : list Recommendation
}.

Record Partner := mkPartner {
  userId : string;
  name : string;
  phone : string;
  quizAnswers : list QuizAnswer;
  quizComplete : bool;
  photoData : option string;
  photoMimeType : option string
}.

Record Room := mkRoom {
  roomId : string;
  partner1 : Partner;
  partner2 : option Partner;
  matchResult : option MatchResult;
  sessionId : string;
  createdAt : Z;
  chosenAction : option (Member ActionType);   (* what [ACTION_MAP[text]] found *)
  chosenBy : option string;
  cartoonImageBase64 : option string
}.

Record QuizQuestion := mkQuizQuestion {
  id : Z;
  text : string;
  category : string;
  options : list string
}.

Definition QUIZ_QUESTIONS : list QuizQuestion := [
  mkQuizQuestion 1 "What's your go-to cuisine?" "cuisine"
    ["North Indian"; "South Indian"; "Chinese"; "Italian"; "Continental";
     "Street Food"; "Other"];
  mkQuizQuestion 2 "How spicy do you like it?" "spice"
    ["Mild"; "Medium"; "Spicy"; "Extra Spicy"];
  mkQuizQuestion 3 "Any dietary preferences?" "diet"
    ["Veg"; "Non-Veg"; "Egg only"; "Vegan"];
  mkQuizQuestion 4 "What's your ideal dinner budget per person?" "budget"
    ["₹200-400"; "₹400-700"; "₹700-1200"; "₹1200+"];
  mkQuizQuestion 5 "What vibe are you feeling tonight?" "mood"
    ["Cozy & Romantic"; "Fun & Casual"; "Fine Dining"; "Home-cooked"];
  mkQuizQuestion 6 "Pick your ideal Valentine's dish type" "dish_type"
    ["Biriyani/Rice"; "Pizza/Pasta"; "Curry & Bread"; "Sushi/Asian";
     "Dessert-heavy"; "Healthy/Salad"]
].

(** The fixed question-id set, in canonical order. *)
Definition question_ids : list Z := map id QUIZ_QUESTIONS.

(** Field updates ([partner.quizAnswers = ...], [room.partner2 = ...]). *)
Definition set_quizAnswers (p : Partner) (a : list QuizAnswer) : Partner :=
  mkPartner (userId p) (name p) (phone p) a (quizComplete p)
            (photoData p) (photoMimeType p).

Definition set_quizComplete (p : Partner) (b : bool) : Partner :=
  mkPartner (userId p) (name p) (phone p) (quizAnswers p) b
            (photoData p) (photoMimeType p).

Definition set_photo (p : Partner) (data mime : string) : Partner :=
  mkPartner (userId p) (name p) (phone p) (quizAnswers p) (quizComplete p)
            (Some data) (Some mime).

Definition set_partner1 (r : Room) (p : Partner) : Room :=
  mkRoom (roomId r) p (partner2 r) (matchResult r) (sessionId r)
         (createdAt r) (chosenAction r) (chosenBy r) (cartoonImageBase64 r).

Definition set_partner2 (r : Room) (p : option Partner) : Room :=
  mkRoom (roomId r) (partner1 r) p (matchResult r) (sessionId r)
         (createdAt r) (chosenAction r) (chosenBy r) (cartoonImageBase64 r).

Definition set_matchResult (r : Room) (m : option MatchResult) : Room :=
  mkRoom (roomId r) (partner1 r) (partner2 r) m (sessionId r)
         (createdAt r) (chosenAction r) (chosenBy r) (cartoonImageBase64 r).

Definition set_chosen (r : Room) (a : Member ActionType) (by_ : string) : Room :=
  mkRoom (roomId r) (partner1 r) (partner2 r) (matchResult r) (sessionId r)
         (createdAt r) (Some a) (Some by_) (cartoonImageBase64 r).

End Types.
Export Types.

(** ** src/services/quiz.ts *)

Module QuizService.

Inductive SubmitError :=
| InvalidQuestionID (questionId : Z)   (* `Invalid question ID: ${questionId}` *)
| AlreadyAnswered (questionId : Z).    (* `Question ${questionId} already answered` *)

(** [{ success: true }] or [{ success: false, error }]. *)
Inductive SubmitResult :=
| Success
| Failure (error : SubmitError).

Definition getNextQuestion (answers : list QuizAnswer) : option QuizQuestion :=
  let answeredIds := map questionId answers in
  find (fun q => negb (existsb (Z.eqb (id q)) answeredIds)) QUIZ_QUESTIONS.

(** Returns the answer array after the call and the returned object. *)
Definition submitAnswer (answers : list QuizAnswer) (qid : Z) (ans : string)
  : list QuizAnswer * SubmitResult :=
  match find (fun q => Z.eqb (id q) qid) QUIZ_QUESTIONS with
  | None => (answers, Failure (InvalidQuestionID qid))
  | Some _ =>
      if existsb (fun a => Z.eqb (questionId a) qid) answers
      then (answers, Failure (AlreadyAnswered qid))
      else (answers ++ [mkQuizAnswer qid ans], Success)
  end.

Definition isComplete (answers : list QuizAnswer) : bool :=
  (Z.of_nat (length QUIZ_QUESTIONS) <=? Z.of_nat (length answers))%Z.

End QuizService.

(** ** src/services/room.ts *)

Module RoomService.

Inductive JoinError :=
| RoomNotFound        (* "Room not found" *)
| RoomIsFull          (* "Room is full" *)
| AlreadyInRoom.      (* "You are already in this room" *)

(** [uuid] stands for [uuidv4().slice(0, 8)] and [now] for [Date.now()]. *)
Definition createRoom (rooms : gmap string Room)
    (uuid : string) (now : Z) (userId name phone : string)
  : gmap string Room * Room :=
  let roomId := uuid in
  let sessionId := "session_" +:+ roomId in
  let room := mkRoom roomId
                (mkPartner userId name phone [] false None None)
                None None sessionId now None None None in
  (<[roomId := room]> rooms, room).

(** Returns the store after the call and [{ room }] or [{ room: null, error }]. *)
Definition joinRoom (rooms : gmap string Room)
    (roomId userId name phone : string)
  : gmap string Room * (Room + JoinError) :=
  match rooms !! roomId with
  | None => (rooms, inr RoomNotFound)
  | Some room =>
      match partner2 room with
      | Some _ => (rooms, inr RoomIsFull)
      | None =>
          if String.eqb (Types.userId (partner1 room)) userId
          then (rooms, inr AlreadyInRoom)
          else
            let room' := set_partner2 room
                           (Some (mkPartner userId name phone [] false None None)) in
            (<[roomId := room']> rooms, inl room')
      end
  end.

Definition getRoom (rooms : gmap string Room) (roomId : string) : option Room :=
  rooms !! roomId.

Definition getPartner (room : Room) (userId : string) : option Partner :=
  if String.eqb (Types.userId (partner1 room)) userId then Some (partner1 room)
  else match partner2 room with
       | Some p2 => if String.eqb (Types.userId p2) userId then Some p2 else None
       | None => None
       end.

Definition isUserInRoom (room : Room) (userId : string) : bool :=
  String.eqb (Types.userId (partner1 room)) userId
  || match partner2 room with
     | Some p2 => String.eqb (Types.userId p2) userId
     | None => false
     end.

(** [getPartner] hands out a reference to the partner object held by the
    room: a write through that reference is a write to the slot it was
    read from. *)
Definition updatePartner (room : Room) (userId : string) (f : Partner -> Partner) : Room :=
  if String.eqb (Types.userId (partner1 room)) userId
  then set_partner1 room (f (partner1 room))
  else match partner2 room with
       | Some p2 =>
           if String.eqb (Types.userId p2) userId
           then set_partner2 room (Some (f p2)) else room
       | None => room
       end.

End RoomService.

(** ** src/agent/tools/context.ts *)

Record MessageContext := mkContext {
  ctx_roomId : string;
  ctx_userId : string;
  ctx_senderName : string
}.

(** ** src/agent/tools/quiz.ts *)

Module QuizTools.
Import QuizService RoomService.

Inductive ToolError :=
| Room_not_found                         (* "Room not found" *)
| User_not_found_in_room                 (* "User not found in room" *)
| Quiz_already_completed                 (* "Quiz already completed for this partner" *)
| Submit_error (e : SubmitError).        (* result.error *)

Inductive StartQuizOutput :=
| StartError (e : ToolError)
| StartAlreadyCompleted                  (* "Quiz already completed for this partner" *)
| StartAllAnswered                       (* "All questions already answered" *)
| StartQuestion (partnerName : string) (question : QuizQuestion).

Inductive SubmitAnswerOutput :=
| SubmitError (e : ToolError)
| SubmitCompleted (partnerName : string) (bothPartnersComplete : bool)
                  (answeredCount : Z)
| SubmitRecorded (nextQuestion : option QuizQuestion) (answeredCount : Z).

Definition startQuizTool (rooms : gmap string Room) (currentContext : MessageContext)
  : gmap string Room * StartQuizOutput :=
  match getRoom rooms (ctx_roomId currentContext) with
  | None => (rooms, StartError Room_not_found)
  | Some room =>
      match getPartner room (ctx_userId currentContext) with
      | None => (rooms, StartError User_not_found_in_room)
      | Some partner =>
          if quizComplete partner then (rooms, StartAlreadyCompleted)
          else
            match getNextQuestion (quizAnswers partner) with
            | None =>
                let room' := updatePartner room (ctx_userId currentContext)
                               (fun p => set_quizComplete p true) in
                (<[ctx_roomId currentContext := room']> rooms, StartAllAnswered)
            | Some nextQuestion =>
                (rooms, StartQuestion (name partner) nextQuestion)
            end
      end
  end.

Definition bothComplete (room : Room) : bool :=
  quizComplete (partner1 room)
  && match partner2 room with
     | Some p2 => quizComplete p2
     | None => false
     end.

Definition submitAnswerTool (rooms : gmap string Room) (currentContext : MessageContext)
    (question_id : Z) (answer : string)
  : gmap string Room * SubmitAnswerOutput :=
  match getRoom rooms (ctx_roomId currentContext) with
  | None => (rooms, SubmitError Room_not_found)
  | Some room =>
      match getPartner room (ctx_userId currentContext) with
      | None => (rooms, SubmitError User_not_found_in_room)
      | Some partner =>
          if quizComplete partner then (rooms, SubmitError Quiz_already_completed)
          else
            match submitAnswer (quizAnswers partner) question_id answer with
            | (_, Failure e) => (rooms, SubmitError (Submit_error e))
            | (answers', Success) =>
                if isComplete answers' then
                  let room' := updatePartner room (ctx_userId currentContext)
                                 (fun p => set_quizComplete (set_quizAnswers p answers') true) in
                  (<[ctx_roomId currentContext := room']> rooms,
                   SubmitCompleted (name partner) (bothComplete room')
                                   (Z.of_nat (length answers')))
                else
                  let room' := updatePartner room (ctx_userId currentContext)
                                 (fun p => set_quizAnswers p answers') in
                  (<[ctx_roomId currentContext := room']> rooms,
                   SubmitRecorded (getNextQuestion answers')
                                  (Z.of_nat (length answers')))
            end
      end
  end.

End QuizTools.

(** [getQuizStatusTool] of the same file. *)

Module QuizStatus.
Import RoomService.

Record PartnerStatus := mkPartnerStatus {
  ps_name : string;
  answeredCount : Z;
  totalQuestions : Z;
  complete : bool
}.

Record Status := mkStatus {
  status_partner1 : PartnerStatus;
  status_partner2 : option PartnerStatus;
  status_bothComplete : bool
}.

Definition partnerStatus (p : Partner) : PartnerStatus :=
  mkPartnerStatus (name p) (Z.of_nat (length (quizAnswers p)))
    (Z.of_nat (length QUIZ_QUESTIONS)) (quizComplete p).

(** [inr tt] stands for [{ error: "Room not found" }]. *)
Definition getQuizStatusTool (rooms : gmap string Room) (currentContext : MessageContext)
  : Status + unit :=
  match getRoom rooms (ctx_roomId currentContext) with
  | None => inr tt
  | Some room =>
      inl (mkStatus (partnerStatus (partner1 room))
             (partnerStatus <$> partner2 room)
             (quizComplete (partner1 room)
              && match partner2 room with
                 | Some p2 => quizComplete p2
                 | None => false
                 end))
  end.

End QuizStatus.

(** ** src/agent/tools/matching.ts *)

Module Matching.
Import RoomService.

Definition COMPATIBILITY_MAPS : list (string * list (string * list string)) := [
  ("cuisine", [
    ("North Indian", ["Street Food"; "South Indian"]);
    ("South Indian", ["North Indian"; "Street Food"]);
    ("Chinese", ["Italian"; "Sushi/Asian"]);
    ("Italian", ["Continental"; "Chinese"]);
    ("Continental", ["Italian"; "Fine Dining"]);
    ("Street Food", ["North Indian"; "South Indian"])]);
  ("spice", [
    ("Mild", ["Medium"]);
    ("Medium", ["Mild"; "Spicy"]);
    ("Spicy", ["Medium"; "Extra Spicy"]);
    ("Extra Spicy", ["Spicy"])]);
  ("diet", [
    ("Veg", ["Vegan"; "Egg only"]);
    ("Non-Veg", ["Egg only"]);
    ("Egg only", ["Veg"; "Non-Veg"]);
    ("Vegan", ["Veg"])]);
  ("budget", [
    ("₹200-400", ["₹400-700"]);
    ("₹400-700", ["₹200-400"; "₹700-1200"]);
    ("₹700-1200", ["₹400-700"; "₹1200+"]);
    ("₹1200+", ["₹700-1200"])]);
  ("mood", [
    ("Cozy & Romantic", ["Fine Dining"]);
    ("Fun & Casual", ["Home-cooked"]);
    ("Fine Dining", ["Cozy & Romantic"]);
    ("Home-cooked", ["Fun & Casual"; "Cozy & Romantic"])]);
  ("dish_type", [
    ("Biriyani/Rice", ["Curry & Bread"]);
    ("Pizza/Pasta", ["Sushi/Asian"]);
    ("Curry & Bread", ["Biriyani/Rice"]);
    ("Sushi/Asian", ["Pizza/Pasta"; "Healthy/Salad"]);
    ("Dessert-heavy", ["Pizza/Pasta"]);
    ("Healthy/Salad", ["Sushi/Asian"])])
].

(** What [COMPATIBILITY_MAPS[category]?.[answer1] ?? []] evaluates to. *)
Inductive Compatibles :=
| Listed (compatibles : list string)
    (* an array of the tables, or [[]] where the lookup is [undefined] *)
| NotAnArray (name : string)
    (* [answer1] names a member the table inherits: a function or
       [Object.prototype], which [?? []] lets through *)
| OfBuiltin (category : string).
    (* [category] itself names an inherited member, so [answer1] is looked
       up in a built-in function or in [Object.prototype]; the members of
       the built-ins are not part of the model (every caller passes the
       category of a fixed question) *)

Definition compatibles_of (category answer1 : string) : Compatibles :=
  match obj_get category COMPATIBILITY_MAPS with
  | None => Listed []
  | Some (Inherited _) => OfBuiltin category
  | Some (Own table) =>
      match obj_get answer1 table with
      | None => Listed []
      | Some (Own compatibles) => Listed compatibles
      | Some (Inherited name) => NotAnArray name
      end
  end.

Inductive ScoreOutcome :=
| Score (score : Z)
| TypeError            (* "compatibles.includes is not a function" *)
| Unmodelled.          (* [compatibles] is a member of a built-in *)

Definition calculateQuestionScore (category answer1 answer2 : string) : ScoreOutcome :=
  if String.eqb answer1 answer2 then Score 100
  else
    match compatibles_of category answer1 with
    | Listed compatibles =>
        if includes compatibles answer2 then Score 60 else Score 20
    | NotAnArray _ => TypeError
    | OfBuiltin _ => Unmodelled
    end.

Inductive MatchError :=
| Room_not_found                 (* "Room not found" *)
| Partner2_not_joined            (* "Partner 2 has not joined yet" *)
| Quiz_not_complete.             (* "Both partners must complete the quiz first" *)

(** One row of the [breakdown] array of the returned object. *)
Record BreakdownEntry := mkBreakdownEntry {
  be_question : option string;
  be_category : option string;
  be_partner1 : string;
  be_partner2 : string;
  matchScore : Z
}.

Record MatchOutput := mkMatchOutput {
  out_compatibility : Z;
  out_breakdown : list BreakdownEntry;
  out_sharedPreferences : list string;
  out_recommendations : list Recommendation;
  out_message : string
}.

Definition find_answer (answers : list QuizAnswer) (qid : Z) : option QuizAnswer :=
  find (fun a => Z.eqb (questionId a) qid) answers.

Definition find_question (qid : Z) : option QuizQuestion :=
  find (fun q => Z.eqb (id q) qid) QUIZ_QUESTIONS.

(** Body of [for (const question of QUIZ_QUESTIONS)], on the pair
    [(totalScore, breakdown)]; an exception thrown by
    [calculateQuestionScore] leaves the loop and [execute].  (The category
    of a fixed question is a name [COMPATIBILITY_MAPS] lists, so the score
    of a fixed question is never [Unmodelled].) *)
Definition score_question (answers1 answers2 : list QuizAnswer)
    (acc : Outcome (Z * list QuestionMatch)) (question : QuizQuestion)
  : Outcome (Z * list QuestionMatch) :=
  match acc with
  | Thrown => Thrown
  | Returned (totalScore, breakdown) =>
      match find_answer answers1 (id question), find_answer answers2 (id question) with
      | Some p1Answer, Some p2Answer =>
          match calculateQuestionScore (category question)
                  (answer p1Answer) (answer p2Answer) with
          | Score score =>
              Returned (totalScore + score,
                        breakdown ++ [mkQuestionMatch (id question) (answer p1Answer)
                                                       (answer p2Answer) score])
          | TypeError | Unmodelled => Thrown
          end
      | _, _ => acc
      end
  end.

Definition score_loop (answers1 answers2 : list QuizAnswer)
  : Outcome (Z * list QuestionMatch) :=
  fold_left (score_question answers1 answers2) QUIZ_QUESTIONS (Returned (0, [])).

Definition maxScore : Z := Z.of_nat (length QUIZ_QUESTIONS) * 100.

(** [Math.round((totalScore / maxScore) * 100)].  The quotient is taken in
    the rationals.  (In the source it is a double; [totalScore] is a
    multiple of 20, so the exact value is a third away from a tie whenever
    it is not an integer, and the double rounds to the same integer.) *)
Definition compatibility_of (totalScore : Z) : Z :=
  Math_round ((inject_Z totalScore / inject_Z maxScore) * inject_Z 100)%Q.

Definition sharedPreferences_of (breakdown : list QuestionMatch) : list string :=
  flat_map (fun m =>
    if (60 <=? score m)%Z then
      if (score m =? 100)%Z then ["Both love " +:+ partner1Answer m]
      else [partner1Answer m +:+ " & " +:+ partner2Answer m +:+ " (" +:+
            match find_question (qm_questionId m) with
            | Some q => category q
            | None => "undefined"
            end +:+ ")"]
    else []) breakdown.

Definition recommendations_of (sharedPreferences : list string) : list Recommendation := [
  mkRecommendation delivery "Order In Together"
    "Order a romantic dinner for two from Swiggy!" sharedPreferences;
  mkRecommendation dineout "Dine Out Date Night"
    "Book a table at a restaurant that matches your combined tastes!" sharedPreferences;
  mkRecommendation cook "Cook Together at Home"
    "Get ingredients from Swiggy Instamart and cook a romantic meal!" sharedPreferences
].

Definition message_of (compatibility : Z) : string :=
  if (80 <=? compatibility)%Z
  then "A PERFECT food match at " +:+ string_of_Z compatibility +:+ "%!"
  else if (50 <=? compatibility)%Z
  then "A solid " +:+ string_of_Z compatibility +:+ "% match!"
  else "A " +:+ string_of_Z compatibility +:+ "% match — opposites attract!".

(** The scoring function proper: the part of [calculateMatchTool.execute]
    after its three guards and before the write to the room, as a function
    of the two answer lists. *)
Definition computeMatch (answers1 answers2 : list QuizAnswer) : Outcome MatchResult :=
  match score_loop answers1 answers2 with
  | Thrown => Thrown
  | Returned (totalScore, breakdown) =>
      let compatibility := compatibility_of totalScore in
      Returned (mkMatchResult compatibility breakdown
                  (recommendations_of (sharedPreferences_of breakdown)))
  end.

Definition output_of (m : MatchResult) : MatchOutput :=
  mkMatchOutput (compatibility m)
    (map (fun b =>
            let q := find_question (qm_questionId b) in
            mkBreakdownEntry (text <$> q) (category <$> q)
              (partner1Answer b) (partner2Answer b) (score b))
         (breakdown m))
    (sharedPreferences_of (breakdown m))
    (recommendations m)
    (message_of (compatibility m)).

(** [calculateMatchTool.execute], reading the room of the current context
    and writing [room.matchResult].  It returns the output object or an
    [{ error }] object, or it throws (its promise rejects) when the scoring
    does, before anything is written. *)
Definition calculateMatchTool (rooms : gmap string Room) (currentContext : MessageContext)
  : gmap string Room * Outcome (MatchOutput + MatchError) :=
  match getRoom rooms (ctx_roomId currentContext) with
  | None => (rooms, Returned (inr Room_not_found))
  | Some room =>
      match partner2 room with
      | None => (rooms, Returned (inr Partner2_not_joined))
      | Some p2 =>
          if negb (quizComplete (partner1 room)) || negb (quizComplete p2)
          then (rooms, Returned (inr Quiz_not_complete))
          else
            match computeMatch (quizAnswers (partner1 room)) (quizAnswers p2) with
            | Thrown => (rooms, Thrown)
            | Returned matchResult =>
                (<[ctx_roomId currentContext := set_matchResult room (Some matchResult)]> rooms,
                 Returned (inl (output_of matchResult)))
            end
      end
  end.

(** [get_recipe]: a suggestion for the couple that cooks at home. *)
Record Recipe := mkRecipe {
  recipe_name : string;
  recipe_ingredients : list string;
  recipe_steps : list string
}.

Record RecipeOutput := mkRecipeOutput {
  out_recipe : Member Recipe;   (* [recipes[cuisine] ?? { ... }] *)
  out_cuisine : string;
  out_isVegetarian : bool;
  out_tip : string
}.

Inductive RecipeError :=
| Recipe_room_not_found          (* "Room not found" *)
| Match_not_calculated_yet.      (* "Match not calculated yet" *)

(** [a ?? b] *)
Definition nullish {A : Type} (a b : option A) : option A :=
  match a with Some _ => a | None => b end.

(** [x === t] for [x] a string or [undefined]. *)
Definition is_text (x : option string) (t : string) : bool :=
  match x with Some s => String.eqb s t | None => false end.

Definition getRecipeTool (rooms : gmap string Room) (currentContext : MessageContext)
    (cuisine_preference : option string) : RecipeOutput + RecipeError :=
  match getRoom rooms (ctx_roomId currentContext) with
  | None => inr Recipe_room_not_found
  | Some room =>
      match matchResult room with
      | None => inr Match_not_calculated_yet
      | Some _ =>
          let p1Cuisine := answer <$> find_answer (quizAnswers (partner1 room)) 1 in
          let p2Cuisine := match partner2 room with
                           | Some p2 => answer <$> find_answer (quizAnswers p2) 1
                           | None => None
                           end in
          let p1Diet := answer <$> find_answer (quizAnswers (partner1 room)) 3 in
          let p2Diet := match partner2 room with
                        | Some p2 => answer <$> find_answer (quizAnswers p2) 3
                        | None => None
                        end in
          let cuisine :=
            default "Italian"
              (nullish (nullish cuisine_preference p1Cuisine) p2Cuisine) in
          let isVeg := is_text p1Diet "Veg" || is_text p2Diet "Veg"
                       || is_text p1Diet "Vegan" || is_text p2Diet "Vegan" in
          let recipes := [
            ("North Indian",
             mkRecipe
               (if isVeg then "Paneer Tikka with Rose Kulfi"
                else "Butter Chicken with Garlic Naan & Rose Kulfi")
               (if isVeg
                then ["Paneer 400g"; "Yogurt"; "Tikka masala"; "Bell peppers"; "Onions";
                      "Rose syrup"; "Milk"; "Cream"; "Cardamom"; "Pistachios"]
                else ["Chicken 500g"; "Butter"; "Tomato puree"; "Cream"; "Garlic naan";
                      "Rose syrup"; "Milk"; "Cardamom"; "Pistachios"])
               ["Marinate protein in yogurt and spices";
                "Cook with butter and cream sauce"; "Prepare rose kulfi";
                "Serve with love!"]);
            ("Italian",
             mkRecipe
               (if isVeg then "Truffle Mushroom Risotto with Tiramisu"
                else "Lobster Pasta with Tiramisu")
               (if isVeg
                then ["Arborio rice"; "Mushrooms"; "Truffle oil"; "Parmesan"; "White wine";
                      "Mascarpone"; "Coffee"; "Ladyfinger biscuits"; "Cocoa powder"]
                else ["Pasta"; "Lobster/Prawns"; "Garlic"; "White wine"; "Cherry tomatoes";
                      "Basil"; "Mascarpone"; "Coffee"; "Ladyfinger biscuits"])
               ["Prepare the main course"; "Make tiramisu layers";
                "Chill tiramisu 2+ hours"; "Light candles and enjoy!"])
          ] in
          inl (mkRecipeOutput
                 (default
                    (Own (mkRecipe ("Valentine's Special " +:+ cuisine +:+ " Feast")
                            ["Check Swiggy Instamart for fresh ingredients!";
                             "Don't forget dessert ingredients"]
                            ["Search Instamart for ingredients"; "Cook together!";
                             "Set up a romantic table"; "Enjoy!"]))
                    (obj_get cuisine recipes))
                 cuisine isVeg
                 "Use Swiggy Instamart to order all ingredients with quick delivery!")
      end
  end.

End Matching.

(** ** src/agent/agent.ts, src/auth/swiggy-oauth.ts, src/server/websocket.ts

    The server is event driven: every handler runs without interruption up
    to its next [await] on an external service, where it is suspended and
    other handlers run.  A suspended call is a [Task]; an [Event] is either
    an inbound event of the server or the resumption of one suspended call
    with what the external service answered.  [handle] runs one event on the
    process state, and [run] a whole schedule: quantifying over schedules is
    quantifying over interleavings.

    External to the model, and so free in every schedule: the responder
    (which tools it calls and what it answers), the ADK session store, the
    authorization provider ([getAuthorizationUrl] resolves or rejects) and
    the remote endpoint ([connectMCP] lists tools or rejects).  The state
    records the calls to the four delivery helpers rather than the frames
    written to the sockets. *)

Module Server.
Import RoomService Matching.

(** A tool of the agent: what [new FunctionTool({ name, description,
    parameters, execute })] is given ([parameters] as the text of its
    schema; [execute] only forwards to the remote operation [name]). *)
Record FunctionTool := mkFunctionTool {
  tool_name : string;
  tool_description : string;
  tool_parameters : option string
}.

(** [agentTools = [...quizTools, ...matchingTools]] in [createValentineAgent]. *)
Definition builtinTools : list FunctionTool := [
  mkFunctionTool "start_quiz"
    "Start the Valentine's taste quiz for the current user. Returns the first question. Call this when a partner is ready to begin the quiz." None;
  mkFunctionTool "submit_answer"
    "Submit a quiz answer for the current user. Returns the next question or indicates completion." None;
  mkFunctionTool "get_quiz_status"
    "Get the current quiz status for the room, showing each partner's progress." None;
  mkFunctionTool "calculate_match"
    "Calculate the taste compatibility between two partners. Both partners must have completed the quiz. Returns compatibility percentage and breakdown." None;
  mkFunctionTool "get_recipe"
    "Generate a Valentine's recipe suggestion based on the couple's preferences. Use when the couple chooses to cook at home." None
].

(** [for (const tool of mcpTools) agentTools.push(tool)] *)
Definition pushAll (agentTools mcpTools : list FunctionTool) : list FunctionTool :=
  fold_left (fun tools tool => tools ++ [tool]) mcpTools agentTools.

Definition ACTION_MAP : list (string * ActionType) := [
  ("Let's order in!", delivery);
  ("Let's dine out!", dineout);
  ("Let's cook together!", cook)
].

Definition ACTION_LABELS (a : ActionType) : string :=
  match a with
  | delivery => "Order In"
  | dineout => "Dine Out"
  | cook => "Cook Together"
  end.

(** [`${ACTION_LABELS[room.chosenAction]}`].  An inherited member used as a
    property name is first turned into a string (the source text of the
    function, or ["[object Object]"]), which names no property of
    [ACTION_LABELS]: the label is [undefined]. *)
Definition label_of (chosen : Member ActionType) : string :=
  match chosen with
  | Own a => ACTION_LABELS a
  | Inherited _ => "undefined"
  end.

(** The text of an [agent_message].  The personalised reveal is kept as
    the arguments [sendPersonalizedReveal] builds its text from. *)
Inductive MessageText :=
| Text (text : string)
| PersonalizedReveal (me them : Partner) (compatibility : Z)
                     (breakdown : list BreakdownEntry).

Inductive WSServerMessage :=
| agent_message (text : MessageText)
| partner_joined (partnerName : string)
| quiz_update (partner1Complete partner2Complete : bool)
| match_result (compatibility : Z) (recommendations : list Recommendation)
| action_chosen (action : Member ActionType) (chosenBy : string)
| swiggy_auth_required (authUrl : string)
| swiggy_auth_complete
| error (error : string).

(** Which delivery helper was called, with its arguments. *)
Inductive Target :=
| ToRoom (roomId : string)                                (* broadcastToRoom *)
| ToRoomExcept (roomId excludeUserId : string)           (* broadcastToRoomExcept *)
| ToClient (ws : nat)                                     (* sendToClient *)
| ToUser (roomId userId : string).                        (* sendToUser *)

Record RoomConnection := mkRoomConnection {
  conn_userId : string;
  conn_ws : nat
}.

Record PendingAction := mkPendingAction {
  pa_userId : string;
  pa_text : string;
  pa_ws : nat
}.

(** Where a suspended [connectAndInjectTools] returns to. *)
Inductive AfterConnect :=
| ThenProcess (userId senderName : string) (senderWs : nat) (text : string)
    (* processMessage, line 143 *)
| ThenReplay (pending : PendingAction).
    (* notifyAuthCompleteForRoom, line 305 *)

Inductive Task :=
| AwaitAuthorizationUrl (roomId userId : string) (senderWs : nat) (text : string)
    (* processMessage at [await getAuthorizationUrl(roomId)] *)
| AwaitConnectMCP (roomId : string) (actionType : Member ActionType) (k : AfterConnect)
    (* connectAndInjectTools at [await connectMCP(...)] *)
| AwaitSession (roomId userId senderName : string) (senderWs : nat) (text : string)
    (* processMessage at [await sessionService.getSession/createSession] *)
| AwaitRunner (roomId userId senderName : string) (senderWs : nat) (postAction : bool)
    (* processMessage inside [for await (... of runner.runAsync(...))] *)
| AwaitImport (roomId userId senderName : string) (senderWs : nat)
    (* processMessage at [await import("../agent/tools/matching.js")] *)
| AwaitMatch (roomId userId senderName : string) (senderWs : nat)
             (matchResult : Outcome (MatchOutput + MatchError)).
    (* processMessage at [await calculateMatchTool.runAsync(...)] *)

(** A tool invoked by the responder while the runner is active. *)
Inductive ToolCall :=
| call_start_quiz
| call_submit_answer (question_id : Z) (answer : string)
| call_calculate_match
| call_other.   (* get_quiz_status, get_recipe and remote tools: no write to the state *)

(** What a suspended call is resumed with. *)
Inductive Resumption :=
| Resolved                                  (* the awaited promise resolves *)
| Rejected                                  (* the awaited promise rejects *)
| ResolvedUrl (authUrl : string)
| ResolvedTools (mcpTools : list FunctionTool)
| RunnerTool (call : ToolCall)
| RunnerFinal (responseText : string)       (* a final response event *)
| RunnerDone.                               (* the runner's stream ends *)

Inductive Event :=
| E_createRoom (uuid : string) (now : Z) (userId name phone : string)
| E_joinRoom (roomId userId name phone : string)
| E_uploadPhoto (roomId userId photoData mimeType : string)
| E_connection (roomId userId : string) (ws : nat)
| E_message (roomId userId : string) (ws : nat) (text : string)
| E_close (roomId userId : string) (ws : nat)
| E_authCallback (roomId : string) (tokens : string)
| E_resume (task : nat) (r : Resumption).

Record State := mkState {
  rooms : gmap string Room;                           (* roomService.rooms *)
  roomConnections : gmap string (list RoomConnection);
  matchSent : gset string;
  pendingActions : gmap string PendingAction;
  roomAuthStore : gmap string string;                 (* room id to its tokens *)
  pendingVerifiers : gset string;                     (* rooms with a PKCE verifier *)
  agentTools : list FunctionTool;
  tasks : list (nat * Task);                          (* suspended calls, by id *)
  nextTask : nat;
  sent : list (Target * WSServerMessage)              (* delivery calls, oldest first *)
}.

Definition initial : State :=
  mkState ∅ ∅ ∅ ∅ ∅ ∅ builtinTools [] 0%nat [].

Definition set_rooms (s : State) (x : gmap string Room) : State :=
  mkState x (roomConnections s) (matchSent s) (pendingActions s)
          (roomAuthStore s) (pendingVerifiers s) (agentTools s) (tasks s) (nextTask s) (sent s).
Definition set_roomConnections (s : State) (x : gmap string (list RoomConnection)) : State :=
  mkState (rooms s) x (matchSent s) (pendingActions s)
          (roomAuthStore s) (pendingVerifiers s) (agentTools s) (tasks s) (nextTask s) (sent s).
Definition set_matchSent (s : State) (x : gset string) : State :=
  mkState (rooms s) (roomConnections s) x (pendingActions s)
          (roomAuthStore s) (pendingVerifiers s) (agentTools s) (tasks s) (nextTask s) (sent s).
Definition set_pendingActions (s : State) (x : gmap string PendingAction) : State :=
  mkState (rooms s) (roomConnections s) (matchSent s) x
          (roomAuthStore s) (pendingVerifiers s) (agentTools s) (tasks s) (nextTask s) (sent s).
Definition set_roomAuthStore (s : State) (x : gmap string string) : State :=
  mkState (rooms s) (roomConnections s) (matchSent s) (pendingActions s)
          x (pendingVerifiers s) (agentTools s) (tasks s) (nextTask s) (sent s).
Definition set_pendingVerifiers (s : State) (x : gset string) : State :=
  mkState (rooms s) (roomConnections s) (matchSent s) (pendingActions s)
          (roomAuthStore s) x (agentTools s) (tasks s) (nextTask s) (sent s).
Definition set_agentTools (s : State) (x : list FunctionTool) : State :=
  mkState (rooms s) (roomConnections s) (matchSent s) (pendingActions s)
          (roomAuthStore s) (pendingVerifiers s) x (tasks s) (nextTask s) (sent s).
Definition set_tasks (s : State) (x : list (nat * Task)) : State :=
  mkState (rooms s) (roomConnections s) (matchSent s) (pendingActions s)
          (roomAuthStore s) (pendingVerifiers s) (agentTools s) x (nextTask s) (sent s).

(** Suspend the running call at an [await]. *)
Definition suspend (s : State) (t : Task) : State :=
  mkState (rooms s) (roomConnections s) (matchSent s) (pendingActions s)
          (roomAuthStore s) (pendingVerifiers s) (agentTools s) (tasks s ++ [(nextTask s, t)])
          (S (nextTask s)) (sent s).

Definition push (s : State) (to : Target) (message : WSServerMessage) : State :=
  mkState (rooms s) (roomConnections s) (matchSent s) (pendingActions s)
          (roomAuthStore s) (pendingVerifiers s) (agentTools s) (tasks s) (nextTask s)
          (sent s ++ [(to, message)]).

Definition broadcastToRoom (s : State) (roomId : string) (m : WSServerMessage) : State :=
  push s (ToRoom roomId) m.
Definition broadcastToRoomExcept (s : State) (roomId excludeUserId : string)
    (m : WSServerMessage) : State :=
  push s (ToRoomExcept roomId excludeUserId) m.
Definition sendToClient (s : State) (ws : nat) (m : WSServerMessage) : State :=
  push s (ToClient ws) m.
Definition sendToUser (s : State) (roomId userId : string) (m : WSServerMessage) : State :=
  push s (ToUser roomId userId) m.

Definition hasTokens (s : State) (roomId : string) : bool :=
  bool_decide (is_Some (roomAuthStore s !! roomId)).
Definition getTokens (s : State) (roomId : string) : option string :=
  roomAuthStore s !! roomId.

(** First suspended call with the given id, and the others. *)
Fixpoint take_task (task : nat) (ts : list (nat * Task))
  : option (Task * list (nat * Task)) :=
  match ts with
  | [] => None
  | (n, t) :: rest =>
      if Nat.eqb n task then Some (t, rest)
      else match take_task task rest with
           | Some (t', rest') => Some (t', (n, t) :: rest')
           | None => None
           end
  end.

(** [processMessage] from [runWithContext] on: the session is looked up. *)
Definition enterContext (s : State) (roomId userId senderName : string)
    (senderWs : nat) (text : string) : State :=
  suspend s (AwaitSession roomId userId senderName senderWs text).

(** [connectAndInjectTools]: without tokens it returns at once and the
    caller goes on ([continue]); otherwise it is suspended at
    [await connectMCP(...)], remembering its caller as [k]. *)
Definition connectAndInjectTools (s : State) (roomId : string)
    (actionType : Member ActionType) (k : AfterConnect) (continue : State -> State) : State :=
  match getTokens s roomId with
  | None => continue s
  | Some _ => suspend s (AwaitConnectMCP roomId actionType k)
  end.

(** [processMessage] up to its first [await]. *)
Definition processMessage (s : State) (roomId userId : string)
    (senderWs : nat) (text : string) : State :=
  match getRoom (rooms s) roomId with
  | None => s
  | Some room =>
      let partner := getPartner room userId in
      let senderName := match partner with Some p => name p | None => userId end in
      match obj_get text ACTION_MAP with
      | Some actionType =>
          match chosenAction room with
          | Some chosen =>
              (* Already locked *)
              sendToClient s senderWs
                (agent_message (Text ("Your partner already chose " +:+
                   label_of chosen +:+ "! Let's go with that.")))
          | None =>
              (* Lock the action *)
              let s := set_rooms s (<[roomId := set_chosen room actionType userId]> (rooms s)) in
              let s := broadcastToRoom s roomId (action_chosen actionType senderName) in
              if negb (hasTokens s roomId)
              then suspend s (AwaitAuthorizationUrl roomId userId senderWs text)
              else
                connectAndInjectTools s roomId actionType
                  (ThenProcess userId senderName senderWs text)
                  (fun s => enterContext s roomId userId senderName senderWs text)
          end
      | None => enterContext s roomId userId senderName senderWs text
      end
  end.

Definition afterConnect (s : State) (roomId : string) (k : AfterConnect) : State :=
  match k with
  | ThenProcess userId senderName senderWs text =>
      enterContext s roomId userId senderName senderWs text
  | ThenReplay pending =>
      processMessage s roomId (pa_userId pending) (pa_ws pending) (pa_text pending)
  end.

(** [notifyAuthCompleteForRoom] up to its first [await]. *)
Definition notifyAuthCompleteForRoom (s : State) (roomId : string) : State :=
  let s := broadcastToRoom s roomId swiggy_auth_complete in
  match pendingActions s !! roomId with
  | None => s
  | Some pending =>
      let s := set_pendingActions s (delete roomId (pendingActions s)) in
      match getRoom (rooms s) roomId with
      | None => s
      | Some room =>
          match chosenAction room with
          | None => s
          | Some chosen =>
              connectAndInjectTools s roomId chosen (ThenReplay pending)
                (fun s => afterConnect s roomId (ThenReplay pending))
          end
      end
  end.

Definition sendPersonalizedReveal (s : State) (roomId : string)
    (me them : Partner) (compatibility : Z) (breakdown : list BreakdownEntry) : State :=
  sendToUser s roomId (userId me)
    (agent_message (PersonalizedReveal me them compatibility breakdown)).

(** A tool body run by the responder under [runWithContext]. *)
Definition runTool (s : State) (currentContext : MessageContext) (call : ToolCall) : State :=
  match call with
  | call_start_quiz =>
      set_rooms s (fst (QuizTools.startQuizTool (rooms s) currentContext))
  | call_submit_answer question_id answer =>
      set_rooms s (fst (QuizTools.submitAnswerTool (rooms s) currentContext question_id answer))
  | call_calculate_match =>
      set_rooms s (fst (calculateMatchTool (rooms s) currentContext))
  | call_other => s
  end.

(** [processMessage] after the runner's stream has ended (lines 208-229). *)
Definition afterRunner (s : State) (roomId userId senderName : string)
    (senderWs : nat) : State :=
  match getRoom (rooms s) roomId with
  | None => s
  | Some updated =>
      let p1Complete := quizComplete (partner1 updated) in
      let p2Complete := match partner2 updated with
                        | Some p2 => quizComplete p2
                        | None => false
                        end in
      let s := broadcastToRoom s roomId (quiz_update p1Complete p2Complete) in
      if p1Complete && p2Complete && negb (bool_decide (roomId ∈ matchSent s))
      then
        let s := set_matchSent s ({[roomId]} ∪ matchSent s) in
        suspend s (AwaitImport roomId userId senderName senderWs)
      else s
  end.

(** The [catch] of [processMessage]. *)
Definition somethingWentWrong (s : State) (senderWs : nat) : State :=
  sendToClient s senderWs (error "Something went wrong. Please try again.").

(** [processMessage] once the match result is there (lines 230-248).
    [updated] is the room object itself, read as it is by now. *)
Definition reveal (s : State) (roomId : string) (senderWs : nat)
    (matchResult : MatchOutput + MatchError) : State :=
  match matchResult with
  | inr _ => s
  | inl result =>
      match getRoom (rooms s) roomId with
      | None => s
      | Some updated =>
          let s := broadcastToRoom s roomId
                     (match_result (out_compatibility result)
                        (match Types.matchResult updated with
                         | Some m => recommendations m
                         | None => []
                         end)) in
          let p1 := partner1 updated in
          match partner2 updated with
          | Some p2 =>
              let compat := out_compatibility result in
              let breakdown := out_breakdown result in
              let s := sendPersonalizedReveal s roomId p1 p2 compat breakdown in
              sendPersonalizedReveal s roomId p2 p1 compat breakdown
          | None => somethingWentWrong s senderWs
          end
      end
  end.

(** Put a call that stays suspended back under its id. *)
Definition keep (s : State) (task : nat) (t : Task) : State :=
  set_tasks s (tasks s ++ [(task, t)]).

(** Resume the suspended call [t] (already taken out of [tasks s]) with
    [r]; [None] when [r] is not an answer to what [t] awaits. *)
Definition resume (s : State) (task : nat) (t : Task) (r : Resumption) : option State :=
  match t, r with
  | AwaitAuthorizationUrl roomId userId senderWs text, ResolvedUrl authUrl =>
      (* getAuthorizationUrl stored the verifier before it returned *)
      let s := set_pendingVerifiers s ({[roomId]} ∪ pendingVerifiers s) in
      let s := set_pendingActions s
                 (<[roomId := mkPendingAction userId text senderWs]> (pendingActions s)) in
      Some (broadcastToRoom s roomId (swiggy_auth_required authUrl))
  | AwaitAuthorizationUrl roomId userId senderWs text, Rejected =>
      Some (sendToClient s senderWs
              (error "Failed to start Swiggy authentication. Please try again."))
  | AwaitConnectMCP roomId actionType k, ResolvedTools mcpTools =>
      (* connectMCP throws "Unknown service" unless SERVICE_URLS lists the
         action: for an inherited member it can only reject *)
      match actionType with
      | Own _ =>
          let s := set_agentTools s (pushAll (agentTools s) mcpTools) in
          Some (afterConnect s roomId k)
      | Inherited _ => None
      end
  | AwaitConnectMCP roomId actionType k, Rejected =>
      let s := broadcastToRoom s roomId
                 (error "Failed to connect to Swiggy. The agent will use built-in suggestions instead.") in
      Some (afterConnect s roomId k)
  | AwaitSession roomId userId senderName senderWs text, Resolved =>
      (* currentRoom?.chosenAction !== null *)
      let postAction := match getRoom (rooms s) roomId with
                        | Some currentRoom => bool_decide (is_Some (chosenAction currentRoom))
                        | None => true
                        end in
      Some (suspend s (AwaitRunner roomId userId senderName senderWs postAction))
  | AwaitSession roomId userId senderName senderWs text, Rejected =>
      Some s   (* outside the try block: the call ends with its promise rejected *)
  | AwaitRunner roomId userId senderName senderWs postAction, RunnerTool call =>
      Some (keep (runTool s (mkContext roomId userId senderName) call) task t)
  | AwaitRunner roomId userId senderName senderWs postAction, RunnerFinal responseText =>
      let s := if String.eqb responseText EmptyString then s
               else if postAction
                    then broadcastToRoom s roomId (agent_message (Text responseText))
                    else sendToClient s senderWs (agent_message (Text responseText)) in
      Some (keep s task t)
  | AwaitRunner roomId userId senderName senderWs postAction, RunnerDone =>
      Some (afterRunner s roomId userId senderName senderWs)
  | AwaitRunner roomId userId senderName senderWs postAction, Rejected =>
      Some (somethingWentWrong s senderWs)
  | AwaitImport roomId userId senderName senderWs, Resolved =>
      let '(rooms', matchResult) :=
        calculateMatchTool (rooms s) (mkContext roomId userId senderName) in
      Some (keep (set_rooms s rooms') task
              (AwaitMatch roomId userId senderName senderWs matchResult))
  | AwaitImport roomId userId senderName senderWs, Rejected =>
      Some (somethingWentWrong s senderWs)
  | AwaitMatch roomId userId senderName senderWs matchResult, Resolved =>
      (* a call that threw rejects: it cannot be resumed with a result *)
      match matchResult with
      | Returned result => Some (reveal s roomId senderWs result)
      | Thrown => None
      end
  | AwaitMatch roomId userId senderName senderWs matchResult, Rejected =>
      Some (somethingWentWrong s senderWs)
  | _, _ => None
  end.

Definition is_connection (userId : string) (ws : nat) (c : RoomConnection) : bool :=
  String.eqb (conn_userId c) userId && Nat.eqb (conn_ws c) ws.

(** [conns.splice(idx, 1)] for [idx = conns.findIndex(...)], when [idx >= 0]. *)
Fixpoint spliceConnection (userId : string) (ws : nat) (conns : list RoomConnection)
  : list RoomConnection :=
  match conns with
  | [] => []
  | c :: rest =>
      if is_connection userId ws c then rest
      else c :: spliceConnection userId ws rest
  end.

(** The socket [ws] of [userId] is registered for the room: its
    ["message"] and ["close"] handlers are installed. *)
Definition connected (s : State) (roomId userId : string) (ws : nat) : bool :=
  match roomConnections s !! roomId with
  | Some conns => existsb (is_connection userId ws) conns
  | None => false
  end.

(** [POST /rooms/:roomId/photo] with its three fields present: the write to
    the partner.  (The websocket.ts at hand exports no
    [getNotifyPhotoUploaded], so no notification follows.) *)
Definition uploadPhoto (rooms : gmap string Room)
    (roomId userId photoData mimeType : string) : gmap string Room :=
  match getRoom rooms roomId with
  | None => rooms                                           (* 404 *)
  | Some room =>
      if negb (isUserInRoom room userId) then rooms           (* 403 *)
      else
        match getPartner room userId with
        | None => rooms                                     (* 404 *)
        | Some _ =>
            <[roomId := updatePartner room userId
                          (fun p => set_photo p photoData mimeType)]> rooms
        end
  end.

(** [wss.on("connection")] for a request that names a room and a user. *)
Definition onConnection (s : State) (roomId userId : string) (ws : nat) : State :=
  match getRoom (rooms s) roomId with
  | None => s                                        (* ws.close(4004) *)
  | Some room =>
      if negb (isUserInRoom room userId) then s       (* ws.close(4003) *)
      else
        let conns := default [] (roomConnections s !! roomId) in
        let s := set_roomConnections s
                   (<[roomId := conns ++ [mkRoomConnection userId ws]]> (roomConnections s)) in
        match getPartner room userId, partner2 room with
        | Some partnerInfo, Some _ =>
            broadcastToRoomExcept s roomId userId (partner_joined (name partnerInfo))
        | _, _ => s
        end
  end.

(** [ws.on("close")]. *)
Definition onClose (s : State) (roomId userId : string) (ws : nat) : State :=
  match roomConnections s !! roomId with
  | None => s
  | Some conns =>
      let conns := spliceConnection userId ws conns in
      match conns with
      | [] =>
          let s := set_roomConnections s (delete roomId (roomConnections s)) in
          set_matchSent s (matchSent s ∖ {[roomId]})
      | _ => set_roomConnections s (<[roomId := conns]> (roomConnections s))
      end
  end.

Definition handle (s : State) (e : Event) : State :=
  match e with
  | E_createRoom uuid now userId name phone =>
      (* uuidv4 is taken to be collision free *)
      match rooms s !! uuid with
      | Some _ => s
      | None => set_rooms s (fst (createRoom (rooms s) uuid now userId name phone))
      end
  | E_joinRoom roomId userId name phone =>
      set_rooms s (fst (joinRoom (rooms s) roomId userId name phone))
  | E_uploadPhoto roomId userId photoData mimeType =>
      set_rooms s (uploadPhoto (rooms s) roomId userId photoData mimeType)
  | E_connection roomId userId ws =>
      if connected s roomId userId ws then s     (* a socket connects once *)
      else onConnection s roomId userId ws
  | E_message roomId userId ws text =>
      (* msg.type === "message" && msg.text, on a registered socket *)
      if connected s roomId userId ws && negb (String.eqb text EmptyString)
      then processMessage s roomId userId ws text
      else s
  | E_close roomId userId ws =>
      if connected s roomId userId ws then onClose s roomId userId ws else s
  | E_authCallback roomId tokens =>
      (* GET /auth/callback: exchangeCode needs the room's verifier; it
         stores the tokens and drops the verifier; then notifyAuthComplete *)
      if bool_decide (roomId ∈ pendingVerifiers s) then
        let s := set_roomAuthStore s (<[roomId := tokens]> (roomAuthStore s)) in
        let s := set_pendingVerifiers s (pendingVerifiers s ∖ {[roomId]}) in
        notifyAuthCompleteForRoom s roomId
      else s
  | E_resume task r =>
      (* an answer to something the call does not await is no behaviour *)
      match take_task task (tasks s) with
      | None => s
      | Some (t, others) =>
          match resume (set_tasks s others) task t r with
          | Some s' => s'
          | None => s
          end
      end
  end.

Definition run (events : list Event) (s : State) : State :=
  fold_left handle events s.

End Server.

Import QuizService RoomService Matching Server.

(** * Vocabulary of the properties *)

(** ** Progression tracker *)

(** A sequence of [submitAnswer] calls on one answer array, all of them
    successful; [None] as soon as one fails. *)
Fixpoint submitAll (calls : list (Z * string)) (answers : list QuizAnswer)
  : option (list QuizAnswer) :=
  match calls with
  | [] => Some answers
  | (qid, ans) :: rest =>
      match submitAnswer answers qid ans with
      | (answers', Success) => submitAll rest answers'
      | (_, Failure _) => None
      end
  end.

Definition answered_ids (answers : list QuizAnswer) : list Z :=
  map questionId answers.

(** Any sequence of [submitAnswer] calls on one answer array, successful or
    not: what the array holds afterwards.  An answer array starts empty
    ([createRoom], [joinRoom]) and only [submitAnswer] writes to it, so the
    arrays the program holds are [submitEach calls []]. *)
Fixpoint submitEach (calls : list (Z * string)) (answers : list QuizAnswer)
  : list QuizAnswer :=
  match calls with
  | [] => answers
  | (qid, ans) :: rest => submitEach rest (fst (submitAnswer answers qid ans))
  end.

(** The answer array holds an answer to each of the fixed questions. *)
Definition answers_all (answers : list QuizAnswer) : Prop :=
  forall qid, In qid question_ids -> In qid (answered_ids answers).

(** What the quiz tools maintain for a partner: answers are to fixed
    questions, one each, and the completion flag is raised exactly when all
    of them are answered. *)
Definition partner_ok (p : Partner) : Prop :=
  List.NoDup (answered_ids (quizAnswers p))
  /\ (forall qid, In qid (answered_ids (quizAnswers p)) -> In qid question_ids)
  /\ (quizComplete p = true <-> answers_all (quizAnswers p)).

Definition room_ok (room : Room) : Prop :=
  partner_ok (partner1 room)
  /\ forall p2, partner2 room = Some p2 -> partner_ok p2.

Definition rooms_ok (rooms : gmap string Room) : Prop :=
  forall roomId room, rooms !! roomId = Some room -> room_ok room.

(** ** Scoring *)

Definition sum_scores (breakdown : list QuestionMatch) : Z :=
  fold_right (fun m acc => score m + acc) 0 breakdown.

(** The scoring of one fixed question throws: both sides answered it and
    [calculateQuestionScore] gives no score for the two answers. *)
Definition throws_at (answers1 answers2 : list QuizAnswer) (question : QuizQuestion)
  : bool :=
  match find_answer answers1 (id question), find_answer answers2 (id question) with
  | Some a1, Some a2 =>
      match calculateQuestionScore (category question) (answer a1) (answer a2) with
      | Score _ => false
      | TypeError | Unmodelled => true
      end
  | _, _ => false
  end.

(** The breakdown entry of one fixed question, when both sides answered it
    and the two answers have a score. *)
Definition entry_of (answers1 answers2 : list QuizAnswer) (question : QuizQuestion)
  : list QuestionMatch :=
  match find_answer answers1 (id question), find_answer answers2 (id question) with
  | Some a1, Some a2 =>
      match calculateQuestionScore (category question) (answer a1) (answer a2) with
      | Score score => [mkQuestionMatch (id question) (answer a1) (answer a2) score]
      | TypeError | Unmodelled => []
      end
  | _, _ => []
  end.

(** The result of the scoring when nothing throws. *)
Definition match_of (answers1 answers2 : list QuizAnswer) : MatchResult :=
  let breakdown := flat_map (entry_of answers1 answers2) QUIZ_QUESTIONS in
  mkMatchResult (compatibility_of (sum_scores breakdown)) breakdown
    (recommendations_of (sharedPreferences_of breakdown)).

(** The text names a member of [Object.prototype]. *)
Definition inherited (text : string) : bool := includes Object_prototype text.

(** The answers the table of [category] lists for [answer1], none when it
    lists none. *)
Definition compatible_with (category answer1 : string) : list string :=
  match own_get category COMPATIBILITY_MAPS with
  | Some table => default [] (own_get answer1 table)
  | None => []
  end.

(** Two complete answer lists: partner A prefers home cooking, partner B a
    cosy evening; they agree on everything else. *)
Definition answersA : list QuizAnswer := [
  mkQuizAnswer 1 "Italian"; mkQuizAnswer 2 "Medium"; mkQuizAnswer 3 "Veg";
  mkQuizAnswer 4 "₹400-700"; mkQuizAnswer 5 "Home-cooked";
  mkQuizAnswer 6 "Pizza/Pasta" ].

Definition answersB : list QuizAnswer := [
  mkQuizAnswer 1 "Italian"; mkQuizAnswer 2 "Medium"; mkQuizAnswer 3 "Veg";
  mkQuizAnswer 4 "₹400-700"; mkQuizAnswer 5 "Cozy & Romantic";
  mkQuizAnswer 6 "Pizza/Pasta" ].

(** A complete answer list whose cuisine answer, given in the partner's own
    words, is the name of a member of [Object.prototype]. *)
Definition answersJ : list QuizAnswer := [
  mkQuizAnswer 1 "constructor"; mkQuizAnswer 2 "Medium"; mkQuizAnswer 3 "Veg";
  mkQuizAnswer 4 "₹400-700"; mkQuizAnswer 5 "Home-cooked";
  mkQuizAnswer 6 "Pizza/Pasta" ].

(** ** Joint decision *)

(** Once [room] has a chosen action, [room'] has the same one, chosen by
    the same partner. *)
Definition lock_kept (room room' : Room) : Prop :=
  forall a, chosenAction room = Some a ->
    chosenAction room' = Some a /\ chosenBy room' = chosenBy room.

Definition locks_kept (rooms rooms' : gmap string Room) : Prop :=
  forall roomId room, rooms !! roomId = Some room ->
    exists room', rooms' !! roomId = Some room' /\ lock_kept room room'.

(** ** Reveal *)

Fixpoint count_if {A : Type} (f : A -> bool) (l : list A) : nat :=
  match l with
  | [] => 0%nat
  | x :: rest => ((if f x then 1 else 0) + count_if f rest)%nat
  end.

Definition is_match_result (roomId : string) (o : Target * WSServerMessage) : bool :=
  match o with
  | (ToRoom r, match_result _ _) => String.eqb r roomId
  | _ => false
  end.

(** Number of [match_result] broadcasts to the room so far. *)
Definition reveals (roomId : string) (s : State) : nat :=
  count_if (is_match_result roomId) (sent s).

(** The suspended call is past the [matchSent] guard of the room. *)
Definition is_reveal_task (roomId : string) (t : Task) : bool :=
  match t with
  | AwaitImport r _ _ _ => String.eqb r roomId
  | AwaitMatch r _ _ _ _ => String.eqb r roomId
  | _ => false
  end.

Definition revealing (roomId : string) (s : State) : nat :=
  count_if (fun t => is_reveal_task roomId (snd t)) (tasks s).





(** From [s] to [s'] nothing happened to the reveal of the room. *)
Definition calm (roomId : string) (s s' : State) : Prop :=
  reveals roomId s' = reveals roomId s
  /\ revealing roomId s' = revealing roomId s
  /\ (roomId ∈ matchSent s -> roomId ∈ matchSent s').




(** ** Scenarios *)

Definition submit (task : nat) (question_id : Z) (answer : string) : Event :=
  E_resume task (RunnerTool (call_submit_answer question_id answer)).

(** Room ["r"] with partners [p1] and [p2], both connected, both in a
    conversation with the responder (suspended calls 2 and 3), each with
    five of the six questions answered. *)
Definition five_answered : list Event :=
  [ E_createRoom "r" 0 "p1" "Asha" "111"; E_joinRoom "r" "p2" "Ravi" "222";
    E_connection "r" "p1" 1; E_connection "r" "p2" 2;
    E_message "r" "p1" 1 "ready"; E_message "r" "p2" 2 "ready";
    E_resume 0 Resolved; E_resume 1 Resolved;
    submit 2 1 "Italian"; submit 2 2 "Medium"; submit 2 3 "Veg";
    submit 2 4 "₹400-700"; submit 2 5 "Home-cooked";
    submit 3 1 "Italian"; submit 3 2 "Medium"; submit 3 3 "Veg";
    submit 3 4 "₹400-700"; submit 3 5 "Cozy & Romantic" ].

(** Each partner's conversation answers the last question and ends. *)
Definition last_answer_p1 : list Event :=
  [ submit 2 6 "Pizza/Pasta"; E_resume 2 RunnerDone ].
Definition last_answer_p2 : list Event :=
  [ submit 3 6 "Pizza/Pasta"; E_resume 3 RunnerDone ].

(** The call that passed the guard (suspended call 4) runs to its end. *)
Definition finish_reveal : list Event :=
  [ E_resume 4 Resolved; E_resume 4 Resolved ].


(** Room ["r"] without tokens: [p1] proposes to order in and the request
    for an authorization URL fails. *)
Definition before_proposal : list Event :=
  [ E_createRoom "r" 0 "p1" "Asha" "111"; E_joinRoom "r" "p2" "Ravi" "222";
    E_connection "r" "p1" 1; E_connection "r" "p2" 2 ].

Definition failed_proposal : list Event :=
  [ E_message "r" "p1" 1 "Let's order in!"; E_resume 0 Rejected ].

(** Two rooms choose to order in and authorize; the remote endpoint lists
    the operation ["search_restaurants"] for each. *)
Definition search_v1 : FunctionTool :=
  mkFunctionTool "search_restaurants" "Search restaurants (first contract)" None.
Definition search_v2 : FunctionTool :=
  mkFunctionTool "search_restaurants" "Search restaurants (second contract)" None.

Definition order_in (roomId userId : string) (ws task : nat)
    (authUrl tokens : string) (tool : FunctionTool) : list Event :=
  [ E_connection roomId userId ws;
    E_message roomId userId ws "Let's order in!";
    E_resume task (ResolvedUrl authUrl);
    E_authCallback roomId tokens;
    E_resume (S task) (ResolvedTools [tool]) ].

Definition two_rooms_order_in : list Event :=
  [ E_createRoom "r1" 0 "p1" "Asha" "111"; E_createRoom "r2" 1 "p3" "Mira" "333" ]
  ++ order_in "r1" "p1" 1 0 "https://mcp.swiggy.com/auth/authorize?state=r1" "tokens-r1" search_v1
  ++ order_in "r2" "p3" 2 2 "https://mcp.swiggy.com/auth/authorize?state=r2" "tokens-r2" search_v2.

Definition named (n : string) (tools : list FunctionTool) : list FunctionTool :=
  filter (fun t => tool_name t = n) tools.

(** ** What an event can do to the room store

    Every write to a room is one of six: the second partner joins, the
    action is chosen while none is, a partner's quiz is marked complete when
    no question is left, a partner's answer is recorded by a successful
    submit, a partner's photo is stored, the match result is stored. *)

Definition new_partner (p : Partner) : Prop :=
  quizAnswers p = [] /\ quizComplete p = false.

Inductive partner_update (p : Partner) : Partner -> Prop :=
| pu_nothing_left :
    getNextQuestion (quizAnswers p) = None ->
    partner_update p (set_quizComplete p true)
| pu_last_answer qid ans answers' :
    submitAnswer (quizAnswers p) qid ans = (answers', Success) ->
    isComplete answers' = true ->
    partner_update p (set_quizComplete (set_quizAnswers p answers') true)
| pu_answer qid ans answers' :
    submitAnswer (quizAnswers p) qid ans = (answers', Success) ->
    isComplete answers' = false ->
    partner_update p (set_quizAnswers p answers')
| pu_photo data mime :
    partner_update p (set_photo p data mime).

Inductive room_update (room : Room) : Room -> Prop :=
| ru_join p :
    partner2 room = None -> new_partner p ->
    room_update room (set_partner2 room (Some p))
| ru_choose a chooser :
    chosenAction room = None ->
    room_update room (set_chosen room a chooser)
| ru_partner1 p' :
    partner_update (partner1 room) p' ->
    room_update room (set_partner1 room p')
| ru_partner2 p2 p' :
    partner2 room = Some p2 -> partner_update p2 p' ->
    room_update room (set_partner2 room (Some p'))
| ru_match m :
    room_update room (set_matchResult room (Some m)).

Inductive store_step (rooms : gmap string Room) : gmap string Room -> Prop :=
| store_same :
    store_step rooms rooms
| store_create roomId room :
    rooms !! roomId = None ->
    new_partner (partner1 room) -> partner2 room = None ->
    store_step rooms (<[roomId := room]> rooms)
| store_update roomId room room' :
    rooms !! roomId = Some room -> room_update room room' ->
    store_step rooms (<[roomId := room']> rooms).

(** ** The writes to a room, as the code makes them

    A relation [W] between a room and what it becomes is allowed by the
    routes, by the lock and by the tools when it relates a room to the
    result of each of their assignments, under the guards the code checks
    before it assigns. *)

Definition route_writes (W : Room -> Room -> Prop) : Prop :=
  (* joinRoom: room.partner2 = { ... } *)
  (forall room uid uname uphone,
      partner2 room = None -> userId (partner1 room) <> uid ->
      W room (set_partner2 room (Some (mkPartner uid uname uphone [] false None None))))
  (* photo upload: partner.photoData = ...; partner.photoMimeType = ... *)
  /\ (forall room uid partner data mime,
        getPartner room uid = Some partner ->
        W room (updatePartner room uid (fun p => set_photo p data mime))).

Definition lock_write (W : Room -> Room -> Prop) : Prop :=
  (* processMessage: room.chosenAction = actionType; room.chosenBy = userId *)
  forall room a uid, chosenAction room = None -> W room (set_chosen room a uid).

Definition tool_writes (W : Room -> Room -> Prop) : Prop :=
  (* start_quiz: partner.quizComplete = true *)
  (forall room uid partner,
      getPartner room uid = Some partner -> quizComplete partner = false ->
      getNextQuestion (quizAnswers partner) = None ->
      W room (updatePartner room uid (fun p => set_quizComplete p true)))
  (* submit_answer: answers.push(...); partner.quizComplete = true *)
  /\ (forall room uid partner qid ans answers',
        getPartner room uid = Some partner -> quizComplete partner = false ->
        submitAnswer (quizAnswers partner) qid ans = (answers', Success) ->
        isComplete answers' = true ->
        W room (updatePartner room uid
                  (fun p => set_quizComplete (set_quizAnswers p answers') true)))
  (* submit_answer: answers.push(...) *)
  /\ (forall room uid partner qid ans answers',
        getPartner room uid = Some partner -> quizComplete partner = false ->
        submitAnswer (quizAnswers partner) qid ans = (answers', Success) ->
        isComplete answers' = false ->
        W room (updatePartner room uid (fun p => set_quizAnswers p answers')))
  (* calculate_match: room.matchResult = matchResult *)
  /\ (forall room p2 m,
        partner2 room = Some p2 ->
        quizComplete (partner1 room) = true -> quizComplete p2 = true ->
        computeMatch (quizAnswers (partner1 room)) (quizAnswers p2) = Returned m ->
        W room (set_matchResult room (Some m))).

Definition writes_allowed (W : Room -> Room -> Prop) : Prop :=
  route_writes W /\ lock_write W /\ tool_writes W.

(** The room [createRoom] builds. *)
Definition created_room (uuid : string) (now : Z) (uid uname uphone : string) : Room :=
  mkRoom uuid (mkPartner uid uname uphone [] false None None) None None
         ("session_" +:+ uuid) now None None None.

(** The store is as it was, or one room changed by [W], or one room was
    created under a new key. *)
Definition store_write (W : Room -> Room -> Prop)
    (rooms rooms' : gmap string Room) : Prop :=
  rooms' = rooms
  \/ (exists rid room room',
         rooms !! rid = Some room /\ W room room' /\ rooms' = <[rid := room']> rooms)
  \/ (exists uuid now uid uname uphone,
         rooms !! uuid = None
         /\ rooms' = <[uuid := created_room uuid now uid uname uphone]> rooms).

(** ** What stays true of a room, and what a room keeps

    [room_identity]: the room is stored under its own id, its session id is
    made from it, and the two partners are different users. *)
Definition room_identity (rid : string) (room : Room) : Prop :=
  roomId room = rid
  /\ sessionId room = "session_" +:+ rid
  /\ (forall p2, partner2 room = Some p2 -> userId p2 <> userId (partner1 room)).

(** A stored match result is the score of the answers the two partners
    have now, and both have completed the quiz. *)
Definition match_stored_ok (room : Room) : Prop :=
  forall m, matchResult room = Some m ->
    exists p2, partner2 room = Some p2
               /\ quizComplete (partner1 room) = true
               /\ quizComplete p2 = true
               /\ computeMatch (quizAnswers (partner1 room)) (quizAnswers p2)
                  = Returned m.

(** From [p] to [p']: same person, answers only appended, and nothing
    appended once the quiz is marked complete. *)
Definition partner_grows (p p' : Partner) : Prop :=
  userId p' = userId p /\ name p' = name p /\ phone p' = phone p
  /\ (exists more, quizAnswers p' = quizAnswers p ++ more)
  /\ (quizComplete p = true ->
      quizComplete p' = true /\ quizAnswers p' = quizAnswers p).

Definition room_grows (room room' : Room) : Prop :=
  roomId room' = roomId room
  /\ sessionId room' = sessionId room
  /\ createdAt room' = createdAt room
  /\ partner_grows (partner1 room) (partner1 room')
  /\ (forall p2, partner2 room = Some p2 ->
        exists p2', partner2 room' = Some p2' /\ partner_grows p2 p2')
  /\ (forall m, matchResult room = Some m -> matchResult room' = Some m).

(** [room_grows], for rooms whose stored result is current. *)
Definition history (room room' : Room) : Prop :=
  match_stored_ok room -> match_stored_ok room' /\ room_grows room room'.

(** ** The path from a proposal to the remote tools

    What the server holds for a room on that path: a stashed proposal, a
    PKCE verifier, tokens, suspended calls, and what it has announced. *)

(** [ACTION_MAP[text]] is truthy: the text is taken for a proposal, be it
    one of the three or the name of an inherited member. *)
Definition is_action (text : string) : bool :=
  match obj_get text ACTION_MAP with Some _ => true | None => false end.

(** [rooms.get(roomId)?.chosenAction] *)
Definition chosen_of (rooms : gmap string Room) (roomId : string)
  : option (Member ActionType) :=
  match rooms !! roomId with
  | Some room => chosenAction room
  | None => None
  end.

(** What is true of the room of a suspended call while it is suspended. *)
Definition task_ok (rooms : gmap string Room) (t : Task) : Prop :=
  match t with
  | AwaitAuthorizationUrl roomId _ _ text =>
      is_Some (chosen_of rooms roomId) /\ is_action text = true
  | AwaitConnectMCP roomId actionType k =>
      chosen_of rooms roomId = Some actionType
      /\ exists pending, k = ThenReplay pending /\ is_action (pa_text pending) = true
  | AwaitSession roomId _ _ _ text =>
      is_Some (rooms !! roomId) /\ is_action text = false
  | AwaitRunner roomId _ _ _ postAction =>
      postAction = true -> is_Some (chosen_of rooms roomId)
  | _ => True
  end.

(** The action a delivery call announces to the room, if it does. *)
Definition announced (roomId : string) (o : Target * WSServerMessage)
  : list (Member ActionType) :=
  match o with
  | (ToRoom r, action_chosen a _) => if String.eqb r roomId then [a] else []
  | _ => []
  end.

Definition announcements (roomId : string) (s : State) : list (Member ActionType) :=
  flat_map (announced roomId) (sent s).

(** A delivery call that announces no action, and that broadcasts a reply
    only to a room whose action is chosen. *)
Definition quiet_message (rooms : gmap string Room) (to : Target)
    (m : WSServerMessage) : Prop :=
  match m, to with
  | action_chosen _ _, _ => False
  | agent_message _, ToRoom roomId => is_Some (chosen_of rooms roomId)
  | _, _ => True
  end.

Definition gates_ok (s : State) : Prop :=
  (forall roomId pending, pendingActions s !! roomId = Some pending ->
      is_Some (chosen_of (rooms s) roomId) /\ is_action (pa_text pending) = true)
  /\ (forall roomId, roomId ∈ pendingVerifiers s -> is_Some (chosen_of (rooms s) roomId))
  /\ (forall roomId, is_Some (roomAuthStore s !! roomId) ->
        is_Some (chosen_of (rooms s) roomId))
  /\ (forall task t, In (task, t) (tasks s) -> task_ok (rooms s) t)
  /\ (forall roomId m, In (ToRoom roomId, agent_message m) (sent s) ->
        is_Some (chosen_of (rooms s) roomId)).

Definition announced_ok (s : State) : Prop :=
  forall roomId,
    announcements roomId s
    = match chosen_of (rooms s) roomId with Some a => [a] | None => [] end.

Definition flow_ok (s : State) : Prop := gates_ok s /\ announced_ok s.

(** A write that leaves the chosen action as it is. *)
Definition same_lock (room room' : Room) : Prop :=
  chosenAction room' = chosenAction room.

(** No chosen action is lost and no room disappears. *)
Definition rooms_advance (rooms rooms' : gmap string Room) : Prop :=
  (forall roomId a, chosen_of rooms roomId = Some a -> chosen_of rooms' roomId = Some a)
  /\ (forall roomId, is_Some (rooms !! roomId) -> is_Some (rooms' !! roomId)).

(** The same rooms with the same chosen actions, and possibly new rooms
    without one. *)
Definition rooms_agree (rooms rooms' : gmap string Room) : Prop :=
  (forall roomId, chosen_of rooms' roomId = chosen_of rooms roomId)
  /\ (forall roomId, is_Some (rooms !! roomId) -> is_Some (rooms' !! roomId)).

(** The reply to a proposal made when the action is already chosen. *)
Definition already_chose (chosen : Member ActionType) : WSServerMessage :=
  agent_message (Text ("Your partner already chose " +:+
                       label_of chosen +:+ "! Let's go with that.")).

(** [p1] proposes to order in, the authorization URL arrives, and the
    provider calls back: the room is authorized and [connectMCP] is awaited
    (suspended call 1). *)
Definition authorized_proposal : list Event :=
  before_proposal
  ++ [ E_message "r" "p1" 1 "Let's order in!";
       E_resume 0 (ResolvedUrl "https://mcp.swiggy.com/auth/authorize?state=r");
       E_authCallback "r" "tokens-r" ].

(** After the failed proposal [p2] says hello and the responder answers. *)
Definition chat_after_choice : list Event :=
  before_proposal ++ failed_proposal
  ++ [ E_message "r" "p2" 2 "hello"; E_resume 1 Resolved;
       E_resume 2 (RunnerFinal "Great choice!") ].

(** ** Delivery: which sockets a delivery helper writes to

    [open ws] stands for [ws.readyState === WebSocket.OPEN], which is up to
    the network.  The four helpers of websocket.ts, by their target. *)
Definition delivered (open : nat -> bool) (s : State) (to : Target) : list nat :=
  match to with
  | ToRoom roomId =>
      match roomConnections s !! roomId with
      | None => []
      | Some conns =>
          map conn_ws (List.filter (fun c => open (conn_ws c)) conns)
      end
  | ToRoomExcept roomId excludeUserId =>
      match roomConnections s !! roomId with
      | None => []
      | Some conns =>
          map conn_ws
            (List.filter (fun c => negb (String.eqb (conn_userId c) excludeUserId)
                                   && open (conn_ws c)) conns)
      end
  | ToClient ws => if open ws then [ws] else []
  | ToUser roomId userId =>
      match roomConnections s !! roomId with
      | None => []
      | Some conns =>
          map conn_ws
            (List.filter (fun c => String.eqb (conn_userId c) userId
                                   && open (conn_ws c)) conns)
      end
  end.



(** Every registered socket was opened by a participant of its room, and
    no room is registered without a socket. *)
Definition conns_ok (s : State) : Prop :=
  forall roomId conns,
    roomConnections s !! roomId = Some conns ->
    conns <> []
    /\ exists room,
         rooms s !! roomId = Some room
         /\ forall c, In c conns -> isUserInRoom room (conn_userId c) = true.

(** Who is in the room stays in the room. *)
Definition members_kept (room room' : Room) : Prop :=
  forall userId, isUserInRoom room userId = true -> isUserInRoom room' userId = true.

(** Both partners connected, [p1] with a second socket. *)
Definition three_sockets : list Event :=
  before_proposal ++ [ E_connection "r" "p1" 3 ].

(** ** src/server/websocket.ts, [sendPersonalizedReveal]: whose answer is whose

    The loop that fills [myAnswers] and [theirAnswers] from the breakdown
    (the two objects as maps from the category to the answer). *)

(** [me.quizAnswers.some((a) => a.answer === b.partner1)] *)
Definition meIsP1 (me : Partner) (b : BreakdownEntry) : bool :=
  existsb (fun a => String.eqb (answer a) (be_partner1 b)) (quizAnswers me).

(** The property name [b.category] stands for: an absent category is the
    name ["undefined"]. *)
Definition category_key (b : BreakdownEntry) : string :=
  default "undefined" (be_category b).

Definition myAnswers (me : Partner) (breakdown : list BreakdownEntry)
  : gmap string string :=
  fold_left (fun acc b =>
               <[category_key b := if meIsP1 me b then be_partner1 b else be_partner2 b]> acc)
            breakdown ∅.

Definition theirAnswers (me : Partner) (breakdown : list BreakdownEntry)
  : gmap string string :=
  fold_left (fun acc b =>
               <[category_key b := if meIsP1 me b then be_partner2 b else be_partner1 b]> acc)
            breakdown ∅.

(** The row of the returned breakdown for one row of the stored one. *)
Definition row_of (b : QuestionMatch) : BreakdownEntry :=
  let q := find_question (qm_questionId b) in
  mkBreakdownEntry (text <$> q) (category <$> q)
    (partner1Answer b) (partner2Answer b) (score b).

(** Partner 2 answers the budget question with the words partner 1 used
    for the cuisine. *)
Definition answersC : list QuizAnswer := [
  mkQuizAnswer 1 "Chinese"; mkQuizAnswer 2 "Medium"; mkQuizAnswer 3 "Veg";
  mkQuizAnswer 4 "Italian"; mkQuizAnswer 5 "Home-cooked";
  mkQuizAnswer 6 "Pizza/Pasta" ].

(** The diet answers that make a recipe vegetarian. *)
Definition veg (diet : string) : bool :=
  String.eqb diet "Veg" || String.eqb diet "Vegan".

(** Both partners answer all six questions, [p1] for Chinese and without a
    diet restriction, [p2] for Italian and vegan; the match is revealed. *)
Definition quiz_done : list Event :=
  [ E_createRoom "r" 0 "p1" "Asha" "111"; E_joinRoom "r" "p2" "Ravi" "222";
    E_connection "r" "p1" 1; E_connection "r" "p2" 2;
    E_message "r" "p1" 1 "ready"; E_message "r" "p2" 2 "ready";
    E_resume 0 Resolved; E_resume 1 Resolved;
    submit 2 1 "Chinese"; submit 2 2 "Medium"; submit 2 3 "Non-Veg";
    submit 2 4 "₹400-700"; submit 2 5 "Home-cooked"; submit 2 6 "Sushi/Asian";
    submit 3 1 "Italian"; submit 3 2 "Medium"; submit 3 3 "Vegan";
    submit 3 4 "₹400-700"; submit 3 5 "Cozy & Romantic"; submit 3 6 "Pizza/Pasta";
    E_resume 2 RunnerDone; E_resume 3 RunnerDone;
    E_resume 4 Resolved; E_resume 4 Resolved ].

(** Both partners answer all six questions through the responder; [p1]
    names the cuisine in words of their own: "constructor".  Both
    conversations end, and the first to end starts the reveal (suspended
    call 4). *)
Definition constructor_answered : list Event :=
  [ E_createRoom "r" 0 "p1" "Asha" "111"; E_joinRoom "r" "p2" "Ravi" "222";
    E_connection "r" "p1" 1; E_connection "r" "p2" 2;
    E_message "r" "p1" 1 "ready"; E_message "r" "p2" 2 "ready";
    E_resume 0 Resolved; E_resume 1 Resolved;
    submit 2 1 "constructor"; submit 2 2 "Medium"; submit 2 3 "Veg";
    submit 2 4 "₹400-700"; submit 2 5 "Home-cooked"; submit 2 6 "Pizza/Pasta";
    submit 3 1 "Italian"; submit 3 2 "Medium"; submit 3 3 "Veg";
    submit 3 4 "₹400-700"; submit 3 5 "Home-cooked"; submit 3 6 "Pizza/Pasta";
    E_resume 2 RunnerDone; E_resume 3 RunnerDone ].

(** The reveal's import resolves, its calculation is called and rejects. *)
Definition calculation_rejects : list Event :=
  [ E_resume 4 Resolved; E_resume 4 Rejected ].

(** The match calculation called in [ctx]'s room returns [m], stored on the
    room: all six questions contribute and the percentage is in range. *)
Definition calculated (rooms : gmap string Room) (ctx : MessageContext)
    (room : Room) (m : MatchResult) : Prop :=
  calculateMatchTool rooms ctx
  = (<[ctx_roomId ctx := set_matchResult room (Some m)]> rooms,
     Returned (inl (output_of m)))
  /\ matchResult (set_matchResult room (Some m)) = Some m
  /\ out_compatibility (output_of m) = compatibility m
  /\ length (breakdown m) = 6%nat
  /\ 20 <= compatibility m <= 100.

(** * Progression tracker: [QuizService] *)

(** Split a conjunction into its conjuncts, and nothing else. *)
Ltac conjs := repeat match goal with |- _ /\ _ => split end.

Lemma question_ids_eq : question_ids = [1; 2; 3; 4; 5; 6].
Proof. reflexivity. Qed.

Lemma find_question_valid (qid : Z) :
  In qid question_ids ->
  exists q, find (fun q => Z.eqb (id q) qid) QUIZ_QUESTIONS = Some q /\ id q = qid.
Proof.
  rewrite question_ids_eq. simpl.
  intros [<- | [<- | [<- | [<- | [<- | [<- | []]]]]]];
    eexists; split; reflexivity.
Qed.

Lemma find_question_invalid (qid : Z) :
  ~ In qid question_ids ->
  find (fun q => Z.eqb (id q) qid) QUIZ_QUESTIONS = None.
Proof.
  intros Hnot.
  destruct (find (fun q => Z.eqb (id q) qid) QUIZ_QUESTIONS) as [q |] eqn:Hfind;
    [| reflexivity].
  apply List.find_some in Hfind as [Hin Heq].
  apply Z.eqb_eq in Heq. subst qid.
  exfalso. apply Hnot. unfold question_ids. now apply List.in_map.
Qed.

Lemma answered_existsb (answers : list QuizAnswer) (qid : Z) :
  existsb (fun a => Z.eqb (questionId a) qid) answers = true
  <-> In qid (answered_ids answers).
Proof.
  unfold answered_ids. rewrite List.existsb_exists, List.in_map_iff.
  split; intros [a [H1 H2]]; exists a.
  - split; [now apply Z.eqb_eq | exact H1].
  - split; [exact H2 | now apply Z.eqb_eq].
Qed.

Lemma answered_existsb_false (answers : list QuizAnswer) (qid : Z) :
  ~ In qid (answered_ids answers) ->
  existsb (fun a => Z.eqb (questionId a) qid) answers = false.
Proof.
  intros Hnot. apply Bool.not_true_is_false.
  intros H. apply Hnot. now apply answered_existsb.
Qed.

Lemma submitAnswer_invalid (answers : list QuizAnswer) (qid : Z) (ans : string) :
  ~ In qid question_ids ->
  submitAnswer answers qid ans = (answers, Failure (InvalidQuestionID qid)).
Proof.
  intros Hnot. unfold submitAnswer. now rewrite find_question_invalid.
Qed.

Lemma submitAnswer_again (answers : list QuizAnswer) (qid : Z) (ans : string) :
  In qid question_ids ->
  In qid (answered_ids answers) ->
  submitAnswer answers qid ans = (answers, Failure (AlreadyAnswered qid)).
Proof.
  intros Hvalid Hin. unfold submitAnswer.
  destruct (find_question_valid qid Hvalid) as [q [-> _]].
  apply answered_existsb in Hin. now rewrite Hin.
Qed.

Lemma submitAnswer_fresh (answers : list QuizAnswer) (qid : Z) (ans : string) :
  In qid question_ids ->
  ~ In qid (answered_ids answers) ->
  submitAnswer answers qid ans = (answers ++ [mkQuizAnswer qid ans], Success).
Proof.
  intros Hvalid Hnot. unfold submitAnswer.
  destruct (find_question_valid qid Hvalid) as [q [-> _]].
  now rewrite answered_existsb_false.
Qed.

(** The three cases of [submitAnswer] are the only ones. *)
Lemma submitAnswer_cases (answers : list QuizAnswer) (qid : Z) (ans : string) :
  (~ In qid question_ids
   /\ submitAnswer answers qid ans = (answers, Failure (InvalidQuestionID qid)))
  \/ (In qid question_ids /\ In qid (answered_ids answers)
      /\ submitAnswer answers qid ans = (answers, Failure (AlreadyAnswered qid)))
  \/ (In qid question_ids /\ ~ In qid (answered_ids answers)
      /\ submitAnswer answers qid ans = (answers ++ [mkQuizAnswer qid ans], Success)).
Proof.
  destruct (List.in_dec Z.eq_dec qid question_ids) as [Hv | Hv].
  - destruct (List.in_dec Z.eq_dec qid (answered_ids answers)) as [Ha | Ha].
    + right; left. auto using submitAnswer_again.
    + right; right. auto using submitAnswer_fresh.
  - left. auto using submitAnswer_invalid.
Qed.

Lemma answered_ids_app (answers : list QuizAnswer) (qid : Z) (ans : string) :
  answered_ids (answers ++ [mkQuizAnswer qid ans]) = answered_ids answers ++ [qid].
Proof. unfold answered_ids. now rewrite List.map_app. Qed.

(** A run of successful submits records exactly the submitted ids, in the
    order of submission. *)
Lemma submitAll_ids (calls : list (Z * string)) :
  forall answers0,
    List.NoDup (answered_ids answers0 ++ map fst calls) ->
    (forall c, In c calls -> In (fst c) question_ids) ->
    exists answers,
      submitAll calls answers0 = Some answers
      /\ answered_ids answers = answered_ids answers0 ++ map fst calls.
Proof.
  induction calls as [| [qid ans] rest IH]; intros answers0 Hnd Hvalid; simpl.
  - exists answers0. now rewrite List.app_nil_r.
  - assert (Hq : In qid question_ids) by (apply (Hvalid (qid, ans)); now left).
    assert (Hfresh : ~ In qid (answered_ids answers0)).
    { intros Hin. simpl in Hnd. apply List.NoDup_remove_2 in Hnd.
      apply Hnd. rewrite List.in_app_iff. now left. }
    rewrite (submitAnswer_fresh _ _ ans Hq Hfresh).
    destruct (IH (answers0 ++ [mkQuizAnswer qid ans])) as [answers [Hrun Hids]].
    + rewrite answered_ids_app, <- List.app_assoc. exact Hnd.
    + intros c Hc. apply Hvalid. now right.
    + exists answers. split; [exact Hrun |].
      rewrite Hids, answered_ids_app, <- List.app_assoc. reflexivity.
Qed.

Lemma isComplete_length (answers : list QuizAnswer) :
  isComplete answers = true <-> (6 <= length answers)%nat.
Proof. unfold isComplete. simpl. rewrite Z.leb_le. lia. Qed.

(** With one answer per question and only fixed questions answered, an
    array is complete exactly when every fixed question is answered. *)
Lemma isComplete_all (answers : list QuizAnswer) :
  List.NoDup (answered_ids answers) ->
  (forall qid, In qid (answered_ids answers) -> In qid question_ids) ->
  isComplete answers = true <-> answers_all answers.
Proof.
  intros Hnd Hvalid. rewrite isComplete_length.
  assert (Hlen : length (answered_ids answers) = length answers)
    by apply List.length_map.
  split.
  - intros H6. unfold answers_all.
    apply (List.NoDup_length_incl Hnd); [| exact Hvalid].
    rewrite Hlen. exact H6.
  - intros Hall. rewrite <- Hlen.
    change 6%nat with (length question_ids).
    apply List.NoDup_incl_length; [| exact Hall].
    rewrite question_ids_eq. repeat constructor; simpl; intuition lia.
Qed.

(** C6.  Starting from the empty answer list, any sequence of submit calls
    with distinct valid question ids succeeds, records exactly the submitted
    ids, and leaves [isComplete] true exactly when the set of submitted ids
    is the whole fixed question-id set, whatever the order of submission. *)
Theorem isComplete_iff_all_submitted (calls : list (Z * string)) :
  List.NoDup (map fst calls) ->
  (forall c, In c calls -> In (fst c) question_ids) ->
  exists answers,
    submitAll calls [] = Some answers
    /\ answered_ids answers = map fst calls
    /\ (isComplete answers = true
        <-> forall qid, In qid (map fst calls) <-> In qid question_ids).
Proof.
  intros Hnd Hvalid.
  destruct (submitAll_ids calls [] Hnd Hvalid) as [answers [Hrun Hids]].
  simpl in Hids. exists answers. split; [exact Hrun |]. split; [exact Hids |].
  assert (Hsub : forall qid, In qid (answered_ids answers) -> In qid question_ids).
  { intros qid. rewrite Hids, List.in_map_iff.
    intros [c [<- Hc]]. now apply Hvalid. }
  rewrite isComplete_all; [| now rewrite Hids | exact Hsub].
  unfold answers_all. rewrite <- Hids. split.
  - intros Hall qid. split; [apply Hsub | apply Hall].
  - intros Heq qid Hq. now apply Heq.
Qed.

Lemma isComplete_iff_all_submitted_witness :
  exists answers,
    submitAll [(4, "₹400-700"); (1, "Italian"); (6, "Pizza/Pasta");
               (2, "Medium"); (5, "Home-cooked"); (3, "Veg")] [] = Some answers
    /\ isComplete answers = true.
Proof.
  assert (Hnd : List.NoDup (map fst [(4, "₹400-700"); (1, "Italian"); (6, "Pizza/Pasta");
                                (2, "Medium"); (5, "Home-cooked"); (3, "Veg")])).
  { simpl. repeat constructor; simpl; intuition lia. }
  assert (Hvalid : forall c,
             In c [(4, "₹400-700"); (1, "Italian"); (6, "Pizza/Pasta");
                   (2, "Medium"); (5, "Home-cooked"); (3, "Veg")] ->
             In (fst c) question_ids).
  { intros c. rewrite question_ids_eq. simpl.
    intros [<- | [<- | [<- | [<- | [<- | [<- | []]]]]]]; simpl; tauto. }
  destruct (isComplete_iff_all_submitted _ Hnd Hvalid) as [answers [Hrun [_ Hiff]]].
  exists answers. split; [exact Hrun |]. apply Hiff.
  intros qid. rewrite question_ids_eq. simpl. tauto.
Defined.

Lemma submitEach_valid (calls : list (Z * string)) :
  forall answers,
    (forall qid, In qid (answered_ids answers) -> In qid question_ids) ->
    forall qid, In qid (answered_ids (submitEach calls answers)) -> In qid question_ids.
Proof.
  induction calls as [| [q a] calls IH]; intros answers Hvalid; [exact Hvalid |].
  simpl. apply IH.
  destruct (submitAnswer_cases answers q a)
    as [[_ ->] | [[_ [_ ->]] | [Hq [_ ->]]]]; simpl; try exact Hvalid.
  intros qid. rewrite answered_ids_app, List.in_app_iff. simpl.
  intros [H | [<- | []]]; [now apply Hvalid | exact Hq].
Qed.

(** C7.  For every answer list the program can hold (the result of any
    sequence of submits on the empty list) and every question id: a submit
    with an id already in the list fails with the already-answered error; a
    submit with an id outside the fixed question set fails with the
    invalid-question error; and every failing submit leaves the answer list
    unchanged. *)
Theorem submitAnswer_failures (calls : list (Z * string)) (qid : Z) (ans : string) :
  let answers := submitEach calls [] in
  (In qid (answered_ids answers) ->
   submitAnswer answers qid ans = (answers, Failure (AlreadyAnswered qid)))
  /\ (~ In qid question_ids ->
      submitAnswer answers qid ans = (answers, Failure (InvalidQuestionID qid)))
  /\ (forall e, snd (submitAnswer answers qid ans) = Failure e ->
      fst (submitAnswer answers qid ans) = answers).
Proof.
  intros answers.
  assert (Hvalid : forall q, In q (answered_ids answers) -> In q question_ids).
  { apply submitEach_valid. intros q []. }
  split; [intros Hin; apply submitAnswer_again; auto |].
  split; [apply submitAnswer_invalid |].
  intros e.
  destruct (submitAnswer_cases answers qid ans)
    as [[_ ->] | [[_ [_ ->]] | [_ [_ ->]]]]; simpl; [reflexivity .. | discriminate].
Qed.

Lemma submitAnswer_failures_witness :
  submitEach [(2, "Mild"); (9, "Thai"); (2, "Hot")] [] = [mkQuizAnswer 2 "Mild"]
  /\ submitAnswer [mkQuizAnswer 2 "Mild"] 2 "Spicy"
    = ([mkQuizAnswer 2 "Mild"], Failure (AlreadyAnswered 2))
  /\ submitAnswer [mkQuizAnswer 2 "Mild"] 7 "Spicy"
    = ([mkQuizAnswer 2 "Mild"], Failure (InvalidQuestionID 7)).
Proof.
  split; [reflexivity |].
  destruct (submitAnswer_failures [(2, "Mild"); (9, "Thai"); (2, "Hot")] 2 "Spicy")
    as [H2 _].
  destruct (submitAnswer_failures [(2, "Mild"); (9, "Thai"); (2, "Hot")] 7 "Spicy")
    as [_ [H7 _]].
  split.
  - apply H2. simpl. tauto.
  - apply H7. rewrite question_ids_eq. simpl. intuition lia.
Defined.

(** * Session store: [RoomService] *)

(** A full room answers "Room is full" to everybody, its first
    participant included: the check for a second participant comes first. *)
Lemma joinRoom_full_before_already_in :
  ~ (forall (rooms : gmap string Room) roomId room uid uname uphone,
        rooms !! roomId = Some room ->
        userId (partner1 room) = uid ->
        snd (joinRoom rooms roomId uid uname uphone) = inr AlreadyInRoom).
Proof.
  intros H.
  pose (p1 := mkPartner "p1" "Asha" "111" [] false None None).
  pose (p2 := mkPartner "p2" "Ravi" "222" [] false None None).
  pose (room := mkRoom "r" p1 (Some p2) None "session_r" 0 None None None).
  specialize (H {["r" := room]} "r" room "p1" "Asha" "111").
  unfold joinRoom in H. rewrite lookup_singleton_eq in H. simpl in H.
  specialize (H eq_refl eq_refl). discriminate H.
Qed.

(** C9 (amended).  [joinRoom] on an existing room fails with Full when both
    participant slots are occupied, whoever joins; it fails with AlreadyIn
    when the second slot is free and the joining identifier is the first
    participant's; on both failures the store is unchanged; otherwise it
    succeeds and the second slot is the joiner with an empty answer list. *)
Theorem joinRoom_outcomes (rooms : gmap string Room)
    (roomId uid uname uphone : string) (room : Room) :
  rooms !! roomId = Some room ->
  (is_Some (partner2 room) ->
   joinRoom rooms roomId uid uname uphone = (rooms, inr RoomIsFull))
  /\ (partner2 room = None -> userId (partner1 room) = uid ->
      joinRoom rooms roomId uid uname uphone = (rooms, inr AlreadyInRoom))
  /\ (partner2 room = None -> userId (partner1 room) <> uid ->
      let joiner := mkPartner uid uname uphone [] false None None in
      let room' := set_partner2 room (Some joiner) in
      joinRoom rooms roomId uid uname uphone = (<[roomId := room']> rooms, inl room')
      /\ partner2 room' = Some joiner
      /\ quizAnswers joiner = []
      /\ partner1 room' = partner1 room).
Proof.
  intros Hroom. unfold joinRoom. rewrite Hroom.
  split; [| split].
  - intros [p2 ->]. reflexivity.
  - intros -> Heq. apply String.eqb_eq in Heq. now rewrite Heq.
  - intros -> Hne. apply String.eqb_neq in Hne. rewrite Hne. simpl. auto.
Qed.

Lemma joinRoom_outcomes_witness :
  let p1 := mkPartner "p1" "Asha" "111" [] false None None in
  let room := mkRoom "r" p1 None None "session_r" 0 None None None in
  joinRoom {["r" := room]} "r" "p1" "Asha" "111" = ({["r" := room]}, inr AlreadyInRoom)
  /\ partner2 (set_partner2 room (Some (mkPartner "p2" "Ravi" "222" [] false None None)))
     = Some (mkPartner "p2" "Ravi" "222" [] false None None).
Proof.
  intros p1 room.
  assert (Hroom : ({["r" := room]} : gmap string Room) !! "r" = Some room)
    by apply lookup_singleton_eq.
  split.
  - apply (joinRoom_outcomes _ "r" "p1" "Asha" "111" room Hroom); reflexivity.
  - apply (joinRoom_outcomes _ "r" "p2" "Ravi" "222" room Hroom);
      [reflexivity | discriminate].
Defined.

(** * Scoring engine: [calculateQuestionScore], [calculateMatchTool] *)

Lemma includes_In (xs : list string) (x : string) :
  includes xs x = true <-> In x xs.
Proof.
  unfold includes. rewrite List.existsb_exists. split.
  - intros [y [Hy Heq]]. apply String.eqb_eq in Heq. now subst.
  - intros H. exists x. split; [exact H | apply String.eqb_refl].
Qed.

Lemma inherited_In (t : string) : inherited t = true <-> In t Object_prototype.
Proof. apply includes_In. Qed.

Lemma own_get_In {V : Type} (key : string) (obj : list (string * V)) (v : V) :
  own_get key obj = Some v -> In (key, v) obj.
Proof.
  induction obj as [| [k x] obj IH]; simpl; [discriminate |].
  destruct (String.eqb_spec k key) as [-> | Hne].
  - intros [= ->]. now left.
  - intros H. right. now apply IH.
Qed.

(** The tables are listed under names that [Object.prototype] does not
    have, and none of them lists a name that [Object.prototype] has. *)
Lemma own_table (category : string) (table : list (string * list string)) :
  own_get category COMPATIBILITY_MAPS = Some table ->
  inherited category = false
  /\ forall a, inherited a = true -> own_get a table = None.
Proof.
  intros H. apply own_get_In in H. simpl in H.
  destruct H as [H | [H | [H | [H | [H | [H | []]]]]]]; injection H as <- <-;
    (split; [reflexivity |]);
    intros a Ha; apply inherited_In in Ha; simpl in Ha;
    repeat (destruct Ha as [<- | Ha]; [reflexivity |]); destruct Ha.
Qed.

Lemma compatibles_of_eq (category answer1 : string) :
  compatibles_of category answer1
  = match own_get category COMPATIBILITY_MAPS with
    | Some _ =>
        if inherited answer1 then NotAnArray answer1
        else Listed (compatible_with category answer1)
    | None => if inherited category then OfBuiltin category else Listed []
    end.
Proof.
  unfold compatibles_of, compatible_with, obj_get, inherited.
  destruct (own_get category COMPATIBILITY_MAPS) as [table |] eqn:Hc.
  - destruct (own_table _ _ Hc) as [_ Hnone]. unfold inherited in Hnone.
    destruct (includes Object_prototype answer1) eqn:Ha.
    + now rewrite (Hnone answer1 Ha).
    + now destruct (own_get answer1 table).
  - now destruct (includes Object_prototype category).
Qed.

Lemma fixed_category_listed (q : QuizQuestion) :
  In q QUIZ_QUESTIONS ->
  exists table, own_get (category q) COMPATIBILITY_MAPS = Some table.
Proof.
  simpl. intros [<- | [<- | [<- | [<- | [<- | [<- | []]]]]]];
    eexists; reflexivity.
Qed.

(** The score of a fixed question, by cases. *)
Lemma calculateQuestionScore_fixed (q : QuizQuestion) (answer1 answer2 : string) :
  In q QUIZ_QUESTIONS ->
  calculateQuestionScore (category q) answer1 answer2
  = if String.eqb answer1 answer2 then Score 100
    else if inherited answer1 then TypeError
    else if includes (compatible_with (category q) answer1) answer2 then Score 60
    else Score 20.
Proof.
  intros Hq. unfold calculateQuestionScore. rewrite compatibles_of_eq.
  destruct (fixed_category_listed q Hq) as [table ->].
  destruct (String.eqb answer1 answer2); [reflexivity |].
  now destruct (inherited answer1).
Qed.

Lemma calculateQuestionScore_rule (q : QuizQuestion) (answer1 answer2 : string) :
  In q QUIZ_QUESTIONS ->
  (answer1 = answer2 ->
   calculateQuestionScore (category q) answer1 answer2 = Score 100)
  /\ (answer1 <> answer2 -> inherited answer1 = false ->
      In answer2 (compatible_with (category q) answer1) ->
      calculateQuestionScore (category q) answer1 answer2 = Score 60)
  /\ (answer1 <> answer2 -> inherited answer1 = false ->
      ~ In answer2 (compatible_with (category q) answer1) ->
      calculateQuestionScore (category q) answer1 answer2 = Score 20)
  /\ (answer1 <> answer2 -> inherited answer1 = true ->
      calculateQuestionScore (category q) answer1 answer2 = TypeError).
Proof.
  intros Hq. rewrite (calculateQuestionScore_fixed q answer1 answer2 Hq).
  split; [intros ->; now rewrite String.eqb_refl |].
  split; [| split].
  - intros Hne -> Hin. apply String.eqb_neq in Hne. rewrite Hne.
    apply includes_In in Hin. now rewrite Hin.
  - intros Hne -> Hnot. apply String.eqb_neq in Hne. rewrite Hne.
    destruct (includes _ _) eqn:Hinc; [| reflexivity].
    apply includes_In in Hinc. contradiction.
  - intros Hne ->. apply String.eqb_neq in Hne. now rewrite Hne.
Qed.

(** Whatever the category, a score is 100, 60 or 20. *)
Lemma calculateQuestionScore_values (category answer1 answer2 : string) (score : Z) :
  calculateQuestionScore category answer1 answer2 = Score score ->
  score = 100 \/ score = 60 \/ score = 20.
Proof.
  unfold calculateQuestionScore.
  destruct (String.eqb _ _); [intros [= <-]; auto |].
  destruct (compatibles_of _ _); try discriminate.
  destruct (includes _ _); intros [= <-]; auto.
Qed.

Lemma calculateQuestionScore_bounds (category answer1 answer2 : string) (score : Z) :
  calculateQuestionScore category answer1 answer2 = Score score ->
  20 <= score <= 100.
Proof. intros H. apply calculateQuestionScore_values in H. lia. Qed.

(** The scoring of a fixed question throws exactly when the two answers
    differ and partner 1's names a member of [Object.prototype]. *)
Lemma throws_at_iff (answers1 answers2 : list QuizAnswer) (q : QuizQuestion) :
  In q QUIZ_QUESTIONS ->
  (throws_at answers1 answers2 q = true
   <-> exists a1 a2,
         find_answer answers1 (id q) = Some a1
         /\ find_answer answers2 (id q) = Some a2
         /\ answer a1 <> answer a2 /\ inherited (answer a1) = true).
Proof.
  intros Hq. unfold throws_at.
  destruct (find_answer answers1 (id q)) as [a1 |];
    [| split; [discriminate | intros [a1 [a2 [H _]]]; discriminate]].
  destruct (find_answer answers2 (id q)) as [a2 |];
    [| split; [discriminate | intros [x [y [_ [H _]]]]; discriminate]].
  rewrite (calculateQuestionScore_fixed q _ _ Hq).
  destruct (String.eqb_spec (answer a1) (answer a2)) as [Heq | Hne].
  - split; [discriminate |]. intros [x [y [[= <-] [[= <-] [Hd _]]]]]. contradiction.
  - destruct (inherited (answer a1)) eqn:Hi.
    + split; [| reflexivity]. intros _. exists a1, a2. auto.
    + split.
      * destruct (includes _ _); discriminate.
      * intros [x [y [[= <-] [_ [_ Hx]]]]]. congruence.
Qed.

Lemma sum_scores_app (l1 l2 : list QuestionMatch) :
  sum_scores (l1 ++ l2) = sum_scores l1 + sum_scores l2.
Proof. induction l1 as [| m l1 IH]; simpl; [reflexivity | rewrite IH; lia]. Qed.

Lemma score_question_entry (answers1 answers2 : list QuizAnswer)
    (t : Z) (bd : list QuestionMatch) (q : QuizQuestion) :
  score_question answers1 answers2 (Returned (t, bd)) q
  = if throws_at answers1 answers2 q then Thrown
    else Returned (t + sum_scores (entry_of answers1 answers2 q),
                   bd ++ entry_of answers1 answers2 q).
Proof.
  unfold score_question, entry_of, throws_at.
  destruct (find_answer answers1 (id q)), (find_answer answers2 (id q)); simpl;
    rewrite ?List.app_nil_r, ?Z.add_0_r; try reflexivity.
  destruct (calculateQuestionScore _ _ _); simpl; rewrite ?Z.add_0_r; reflexivity.
Qed.

Lemma score_fold_Thrown (answers1 answers2 : list QuizAnswer) (qs : list QuizQuestion) :
  fold_left (score_question answers1 answers2) qs Thrown = Thrown.
Proof. induction qs as [| q qs IH]; simpl; [reflexivity | exact IH]. Qed.

(** The loop over the questions throws when the scoring of one of them
    does; otherwise it collects the entries of the questions both sides
    answered, in question order, and adds up their scores. *)
Lemma score_fold (answers1 answers2 : list QuizAnswer) (qs : list QuizQuestion) :
  forall t bd,
    fold_left (score_question answers1 answers2) qs (Returned (t, bd))
    = if existsb (throws_at answers1 answers2) qs then Thrown
      else Returned (t + sum_scores (flat_map (entry_of answers1 answers2) qs),
                     bd ++ flat_map (entry_of answers1 answers2) qs).
Proof.
  induction qs as [| q qs IH]; intros t bd.
  - simpl. now rewrite Z.add_0_r, List.app_nil_r.
  - cbn [fold_left existsb flat_map]. rewrite score_question_entry.
    destruct (throws_at answers1 answers2 q); cbn [orb].
    + apply score_fold_Thrown.
    + rewrite IH. destruct (existsb _ qs); [reflexivity |].
      rewrite sum_scores_app, <- List.app_assoc. do 2 f_equal. lia.
Qed.

Lemma computeMatch_eq (answers1 answers2 : list QuizAnswer) :
  computeMatch answers1 answers2
  = if existsb (throws_at answers1 answers2) QUIZ_QUESTIONS then Thrown
    else Returned (match_of answers1 answers2).
Proof.
  unfold computeMatch, score_loop. rewrite score_fold.
  now destruct (existsb _ _).
Qed.

Lemma computeMatch_Returned (answers1 answers2 : list QuizAnswer) (m : MatchResult) :
  computeMatch answers1 answers2 = Returned m ->
  m = match_of answers1 answers2
  /\ forall q, In q QUIZ_QUESTIONS -> throws_at answers1 answers2 q = false.
Proof.
  rewrite computeMatch_eq.
  destruct (existsb _ _) eqn:Hex; [discriminate |].
  intros [= <-]. split; [reflexivity |].
  intros q Hq. destruct (throws_at answers1 answers2 q) eqn:Ht; [| reflexivity].
  assert (existsb (throws_at answers1 answers2) QUIZ_QUESTIONS = true)
    by (apply List.existsb_exists; eauto).
  congruence.
Qed.

Lemma computeMatch_Thrown (answers1 answers2 : list QuizAnswer) :
  computeMatch answers1 answers2 = Thrown
  <-> exists q a1 a2,
        In q QUIZ_QUESTIONS
        /\ find_answer answers1 (id q) = Some a1
        /\ find_answer answers2 (id q) = Some a2
        /\ answer a1 <> answer a2 /\ inherited (answer a1) = true.
Proof.
  rewrite computeMatch_eq.
  destruct (existsb _ _) eqn:Hex.
  - split; [intros _ | reflexivity].
    apply List.existsb_exists in Hex as [q [Hq Ht]].
    apply (throws_at_iff _ _ q Hq) in Ht as [a1 [a2 H]]. exists q, a1, a2. tauto.
  - split; [discriminate |]. intros [q [a1 [a2 [Hq H]]]].
    assert (Ht : throws_at answers1 answers2 q = true)
      by (apply (throws_at_iff _ _ q Hq); eauto).
    assert (existsb (throws_at answers1 answers2) QUIZ_QUESTIONS = true)
      by (apply List.existsb_exists; eauto).
    congruence.
Qed.

(** Rounding to the nearest integer, in integer arithmetic. *)
Lemma compatibility_of_div (totalScore : Z) :
  compatibility_of totalScore = (totalScore + 3) / 6.
Proof.
  unfold compatibility_of, Math_round.
  replace maxScore with 600 by reflexivity.
  unfold Qdiv, Qmult, Qplus, Qinv, inject_Z, Qfloor. cbn.
  match goal with
  | |- ?n / ?d = _ =>
      replace n with ((totalScore + 3) * 200) by lia;
      replace d with (6 * 200) by reflexivity
  end.
  apply Z.div_mul_cancel_r; lia.
Qed.

(** [Math_round] is within one half of its argument. *)
Lemma Math_round_nearest (q : Q) :
  (inject_Z (Math_round q) - (1 # 2) <= q)%Q
  /\ (q < inject_Z (Math_round q) + (1 # 2))%Q.
Proof.
  unfold Math_round.
  pose proof (Qfloor_le (q + (1 # 2))) as Hlo.
  pose proof (Qlt_floor (q + (1 # 2))) as Hhi.
  rewrite inject_Z_plus in Hhi.
  change (inject_Z 1) with 1%Q in Hhi.
  split; lra.
Qed.

Lemma find_answer_Some (answers : list QuizAnswer) (qid : Z) :
  In qid (answered_ids answers) ->
  exists a, find_answer answers qid = Some a /\ questionId a = qid.
Proof.
  intros Hin. unfold find_answer.
  destruct (find (fun a => Z.eqb (questionId a) qid) answers) as [a |] eqn:Hfind.
  - exists a. split; [reflexivity |].
    apply List.find_some in Hfind as [_ Heq]. now apply Z.eqb_eq.
  - exfalso. unfold answered_ids in Hin. apply List.in_map_iff in Hin as [a [Heq Ha]].
    pose proof (List.find_none _ _ Hfind a Ha) as Hn. simpl in Hn.
    apply Z.eqb_neq in Hn. contradiction.
Qed.

Lemma question_id_in (q : QuizQuestion) :
  In q QUIZ_QUESTIONS -> In (id q) question_ids.
Proof. intros H. unfold question_ids. now apply List.in_map. Qed.

(** When every question of [qs] has an entry whose score lies between [lo]
    and [hi], so does the average. *)
Lemma sum_scores_bounds (answers1 answers2 : list QuizAnswer)
    (lo hi : Z) (qs : list QuizQuestion) :
  (forall q, In q qs ->
     exists m, entry_of answers1 answers2 q = [m] /\ lo <= score m <= hi) ->
  length (flat_map (entry_of answers1 answers2) qs) = length qs
  /\ lo * Z.of_nat (length qs)
     <= sum_scores (flat_map (entry_of answers1 answers2) qs)
     <= hi * Z.of_nat (length qs).
Proof.
  induction qs as [| q qs IH]; intros H.
  - simpl. lia.
  - destruct (H q (or_introl eq_refl)) as [m [Hm Hb]].
    destruct IH as [Hlen Hsum]; [intros q' Hq'; apply H; now right |].
    cbn [flat_map]. rewrite Hm. cbn [app sum_scores fold_right length].
    fold (sum_scores (flat_map (entry_of answers1 answers2) qs)).
    rewrite Hlen. split; [reflexivity | lia].
Qed.

(** A fixed question that both sides answered and whose scoring does not
    throw has its entry, with its score. *)
Lemma entry_of_answered (answers1 answers2 : list QuizAnswer) (q : QuizQuestion) :
  answers_all answers1 -> answers_all answers2 -> In q QUIZ_QUESTIONS ->
  throws_at answers1 answers2 q = false ->
  exists a1 a2 score,
    find_answer answers1 (id q) = Some a1 /\ find_answer answers2 (id q) = Some a2
    /\ calculateQuestionScore (category q) (answer a1) (answer a2) = Score score
    /\ entry_of answers1 answers2 q
       = [mkQuestionMatch (id q) (answer a1) (answer a2) score].
Proof.
  intros H1 H2 Hq Ht. apply question_id_in in Hq.
  destruct (find_answer_Some answers1 (id q) (H1 _ Hq)) as [a1 [Ha1 _]].
  destruct (find_answer_Some answers2 (id q) (H2 _ Hq)) as [a2 [Ha2 _]].
  unfold throws_at in Ht. unfold entry_of. rewrite Ha1, Ha2 in *.
  destruct (calculateQuestionScore (category q) (answer a1) (answer a2)) as [sc | |]
    eqn:Hs; try discriminate.
  exists a1, a2, sc. auto.
Qed.

(** With all six questions answered on both sides, a scoring that returns
    has all six contribute and a percentage between 20 and 100. *)
Lemma computeMatch_range (answers1 answers2 : list QuizAnswer) (m : MatchResult) :
  answers_all answers1 -> answers_all answers2 ->
  computeMatch answers1 answers2 = Returned m ->
  length (breakdown m) = 6%nat /\ 20 <= compatibility m <= 100.
Proof.
  intros H1 H2 Hm. apply computeMatch_Returned in Hm as [-> Hno].
  cbn [match_of breakdown compatibility].
  destruct (sum_scores_bounds answers1 answers2 20 100 QUIZ_QUESTIONS)
    as [Hlen Hsum].
  { intros q Hq.
    destruct (entry_of_answered answers1 answers2 q H1 H2 Hq (Hno q Hq))
      as [a1 [a2 [sc [_ [_ [Hs ->]]]]]].
    eexists. split; [reflexivity |]. cbn [score].
    now apply calculateQuestionScore_bounds in Hs. }
  split; [exact Hlen |].
  rewrite compatibility_of_div.
  change (Z.of_nat (length QUIZ_QUESTIONS)) with 6 in Hsum.
  split.
  - apply Z.div_le_lower_bound; lia.
  - apply Z.lt_succ_r. apply Z.div_lt_upper_bound; lia.
Qed.

(** Two lists that answer every fixed question alike score 100. *)
Lemma computeMatch_same (answers1 answers2 : list QuizAnswer) :
  answers_all answers1 -> answers_all answers2 ->
  (forall q a1 a2,
      In q QUIZ_QUESTIONS ->
      find_answer answers1 (id q) = Some a1 -> find_answer answers2 (id q) = Some a2 ->
      answer a1 = answer a2) ->
  exists result,
    computeMatch answers1 answers2 = Returned result /\ compatibility result = 100.
Proof.
  intros Hc1 Hc2 Hsame.
  assert (Hno : forall q, In q QUIZ_QUESTIONS -> throws_at answers1 answers2 q = false).
  { intros q Hq. destruct (throws_at answers1 answers2 q) eqn:Ht; [| reflexivity].
    apply (throws_at_iff _ _ q Hq) in Ht as [a1 [a2 [H1 [H2 [Hne _]]]]].
    exfalso. apply Hne. eapply Hsame; eassumption. }
  exists (match_of answers1 answers2). split.
  - rewrite computeMatch_eq.
    destruct (existsb _ _) eqn:Hex; [| reflexivity].
    apply List.existsb_exists in Hex as [q [Hq Ht]]. rewrite (Hno q Hq) in Ht.
    discriminate.
  - cbn [match_of compatibility].
    destruct (sum_scores_bounds answers1 answers2 100 100 QUIZ_QUESTIONS)
      as [_ Hsum].
    { intros q Hq.
      destruct (entry_of_answered answers1 answers2 q Hc1 Hc2 Hq (Hno q Hq))
        as [a1 [a2 [sc [Ha1 [Ha2 [Hs ->]]]]]].
      eexists. split; [reflexivity |]. cbn [score].
      destruct (calculateQuestionScore_rule q (answer a1) (answer a2) Hq)
        as [H100 _].
      rewrite H100 in Hs by (eapply Hsame; eassumption).
      injection Hs as <-. lia. }
    change (Z.of_nat (length QUIZ_QUESTIONS)) with 6 in Hsum.
    rewrite compatibility_of_div.
    replace (sum_scores (flat_map (entry_of answers1 answers2) QUIZ_QUESTIONS))
      with 600 by lia.
    reflexivity.
Qed.

(** C8.  The scoring rule of the claim holds of the code but for one case,
    in which the code throws instead of scoring 20.  Per fixed question
    answered by both partners the score is 100 for identical answers; for
    different answers it is 60 when the category's table relates the first
    answer to the second and 20 otherwise, provided the first answer is not
    the name of a member of [Object.prototype]; if it is, the call throws
    [TypeError] and with it the whole calculation, which then produces no
    percentage.  When the calculation returns, the breakdown holds one
    entry for every fixed question both answered, and the percentage is
    [round(sum / (question count * 100) * 100)], the integer nearest to that
    quotient.  Two answer lists that answer every fixed question (in
    particular two lists built by submit for which [isComplete] holds) and
    agree on every question score 100.  The failing input: partner 1
    answers the cuisine question with "constructor". *)
Theorem scoring_rule (answers1 answers2 : list QuizAnswer) :
  (forall q answer1 answer2,
      In q QUIZ_QUESTIONS ->
      (answer1 = answer2 ->
       calculateQuestionScore (category q) answer1 answer2 = Score 100)
      /\ (answer1 <> answer2 -> inherited answer1 = false ->
          In answer2 (compatible_with (category q) answer1) ->
          calculateQuestionScore (category q) answer1 answer2 = Score 60)
      /\ (answer1 <> answer2 -> inherited answer1 = false ->
          ~ In answer2 (compatible_with (category q) answer1) ->
          calculateQuestionScore (category q) answer1 answer2 = Score 20)
      /\ (answer1 <> answer2 -> inherited answer1 = true ->
          calculateQuestionScore (category q) answer1 answer2 = TypeError))
  /\ (computeMatch answers1 answers2 = Thrown
      <-> exists q a1 a2,
            In q QUIZ_QUESTIONS
            /\ find_answer answers1 (id q) = Some a1
            /\ find_answer answers2 (id q) = Some a2
            /\ answer a1 <> answer a2 /\ inherited (answer a1) = true)
  /\ (forall result,
        computeMatch answers1 answers2 = Returned result ->
        breakdown result = flat_map (entry_of answers1 answers2) QUIZ_QUESTIONS
        /\ (forall q a1 a2,
              In q QUIZ_QUESTIONS ->
              find_answer answers1 (id q) = Some a1 ->
              find_answer answers2 (id q) = Some a2 ->
              exists score,
                calculateQuestionScore (category q) (answer a1) (answer a2)
                = Score score
                /\ In (mkQuestionMatch (id q) (answer a1) (answer a2) score)
                      (breakdown result))
        /\ compatibility result
           = Math_round (inject_Z (sum_scores (breakdown result))
                         / inject_Z (Z.of_nat (length QUIZ_QUESTIONS) * 100)
                         * inject_Z 100)%Q
        /\ (let quotient := (inject_Z (sum_scores (breakdown result))
                              / inject_Z (Z.of_nat (length QUIZ_QUESTIONS) * 100)
                              * inject_Z 100)%Q in
            (inject_Z (compatibility result) - (1 # 2) <= quotient)%Q
            /\ (quotient < inject_Z (compatibility result) + (1 # 2))%Q)
        /\ compatibility result = (sum_scores (breakdown result) + 3) / 6)
  /\ (answers_all answers1 -> answers_all answers2 ->
      (forall qid a1 a2,
          find_answer answers1 qid = Some a1 -> find_answer answers2 qid = Some a2 ->
          answer a1 = answer a2) ->
      exists result,
        computeMatch answers1 answers2 = Returned result
        /\ compatibility result = 100)
  /\ (List.NoDup (answered_ids answers1) -> List.NoDup (answered_ids answers2) ->
      (forall qid, In qid (answered_ids answers1) -> In qid question_ids) ->
      (forall qid, In qid (answered_ids answers2) -> In qid question_ids) ->
      isComplete answers1 = true -> isComplete answers2 = true ->
      (forall qid a1 a2,
          find_answer answers1 qid = Some a1 -> find_answer answers2 qid = Some a2 ->
          answer a1 = answer a2) ->
      exists result,
        computeMatch answers1 answers2 = Returned result
        /\ compatibility result = 100)
  /\ (calculateQuestionScore "cuisine" "constructor" "Italian" = TypeError
      /\ calculateQuestionScore "cuisine" "Italian" "constructor" = Score 20
      /\ submitAll [(1, "constructor"); (2, "Medium"); (3, "Veg"); (4, "₹400-700");
                    (5, "Home-cooked"); (6, "Pizza/Pasta")] [] = Some answersJ
      /\ isComplete answersJ = true /\ isComplete answersA = true
      /\ computeMatch answersJ answersA = Thrown).
Proof.
  split; [intros q a1 a2 Hq; now apply calculateQuestionScore_rule |].
  split; [apply computeMatch_Thrown |].
  split.
  { intros result Hr. apply computeMatch_Returned in Hr as [-> Hno].
    cbn [match_of breakdown compatibility].
    split; [reflexivity |]. split.
    { intros q a1 a2 Hq H1 H2. specialize (Hno q Hq).
      unfold throws_at in Hno. rewrite H1, H2 in Hno.
      destruct (calculateQuestionScore (category q) (answer a1) (answer a2))
        as [sc | |] eqn:Hs; try discriminate.
      exists sc. split; [reflexivity |].
      apply List.in_flat_map. exists q. split; [exact Hq |].
      unfold entry_of. rewrite H1, H2, Hs. now left. }
    split; [reflexivity |].
    split; [apply Math_round_nearest | apply compatibility_of_div]. }
  split.
  { intros Hall1 Hall2 Hsame.
    apply computeMatch_same; [assumption | assumption |].
    intros q a1 a2 _. apply Hsame. }
  split.
  { intros Hnd1 Hnd2 Hv1 Hv2 Hc1 Hc2 Hsame.
    apply computeMatch_same; [now apply isComplete_all | now apply isComplete_all |].
    intros q a1 a2 _. apply Hsame. }
  conjs; vm_compute; reflexivity.
Qed.

(** C3.  The aggregate percentage depends on which list is scored as
    partner 1: the lookup for "mood" relates "Home-cooked" to
    "Cozy & Romantic" but not the other way round. *)
Theorem compatibility_depends_on_order :
  (exists m, computeMatch answersA answersB = Returned m /\ compatibility m = 93)
  /\ (exists m, computeMatch answersB answersA = Returned m /\ compatibility m = 87)
  /\ isComplete answersA = true /\ isComplete answersB = true.
Proof.
  split; [eexists; split; vm_compute; reflexivity |].
  split; [eexists; split; vm_compute; reflexivity |].
  split; reflexivity.
Qed.

(** * The room store under the server's events *)

Lemma getPartner_slot (room : Room) (uid : string) (partner : Partner)
    (f : Partner -> Partner) :
  getPartner room uid = Some partner ->
  (partner = partner1 room
   /\ updatePartner room uid f = set_partner1 room (f partner))
  \/ (partner2 room = Some partner
      /\ updatePartner room uid f = set_partner2 room (Some (f partner))).
Proof.
  unfold getPartner, updatePartner.
  destruct (String.eqb (userId (partner1 room)) uid).
  - intros [= <-]. now left.
  - destruct (partner2 room) as [p2 |]; [| discriminate].
    destruct (String.eqb (userId p2) uid); [| discriminate].
    intros [= <-]. now right.
Qed.

Lemma updatePartner_step (room : Room) (uid : string) (partner : Partner)
    (f : Partner -> Partner) :
  getPartner room uid = Some partner ->
  partner_update partner (f partner) ->
  room_update room (updatePartner room uid f).
Proof.
  intros Hget Hupd.
  destruct (getPartner_slot room uid partner f Hget) as [[-> ->] | [Hp2 ->]].
  - now apply ru_partner1.
  - now apply (ru_partner2 room partner).
Qed.

Lemma startQuizTool_store (rooms : gmap string Room) (ctx : MessageContext) :
  store_step rooms (fst (QuizTools.startQuizTool rooms ctx)).
Proof.
  unfold QuizTools.startQuizTool, getRoom.
  destruct (rooms !! ctx_roomId ctx) as [room |] eqn:Hroom; [| constructor].
  destruct (getPartner room (ctx_userId ctx)) as [partner |] eqn:Hp; [| constructor].
  destruct (quizComplete partner); [constructor |].
  destruct (getNextQuestion (quizAnswers partner)) eqn:Hnext; [constructor |].
  simpl. apply (store_update rooms _ room); [exact Hroom |].
  apply (updatePartner_step room _ partner); [exact Hp |].
  now apply pu_nothing_left.
Qed.

Lemma submitAnswerTool_store (rooms : gmap string Room) (ctx : MessageContext)
    (question_id : Z) (ans : string) :
  store_step rooms (fst (QuizTools.submitAnswerTool rooms ctx question_id ans)).
Proof.
  unfold QuizTools.submitAnswerTool, getRoom.
  destruct (rooms !! ctx_roomId ctx) as [room |] eqn:Hroom; [| constructor].
  destruct (getPartner room (ctx_userId ctx)) as [partner |] eqn:Hp; [| constructor].
  destruct (quizComplete partner); [constructor |].
  destruct (submitAnswer (quizAnswers partner) question_id ans)
    as [answers' [| e]] eqn:Hsub; [| constructor].
  destruct (isComplete answers') eqn:Hc; simpl;
    apply (store_update rooms _ room); try exact Hroom;
    apply (updatePartner_step room _ partner); try exact Hp.
  - now apply (pu_last_answer partner question_id ans).
  - now apply (pu_answer partner question_id ans).
Qed.

Lemma uploadPhoto_store (rooms : gmap string Room) (rid uid data mime : string) :
  store_step rooms (uploadPhoto rooms rid uid data mime).
Proof.
  unfold uploadPhoto, getRoom.
  destruct (rooms !! rid) as [room |] eqn:Hroom; [| constructor].
  destruct (negb _); [constructor |].
  destruct (getPartner room uid) as [partner |] eqn:Hp; [| constructor].
  apply (store_update rooms _ room); [exact Hroom |].
  apply (updatePartner_step room _ partner); [exact Hp | constructor].
Qed.

Lemma calculateMatchTool_store (rooms : gmap string Room) (ctx : MessageContext) :
  store_step rooms (fst (calculateMatchTool rooms ctx)).
Proof.
  unfold calculateMatchTool, getRoom.
  destruct (rooms !! ctx_roomId ctx) as [room |] eqn:Hroom; [| constructor].
  destruct (partner2 room) as [p2 |]; [| constructor].
  destruct (negb (quizComplete (partner1 room)) || negb (quizComplete p2));
    [constructor |].
  destruct (computeMatch _ _); [| constructor].
  simpl. apply (store_update rooms _ room); [exact Hroom | constructor].
Qed.

Lemma runTool_store (s : State) (ctx : MessageContext) (call : ToolCall) :
  store_step (rooms s) (rooms (runTool s ctx call)).
Proof.
  destruct call; simpl.
  - apply startQuizTool_store.
  - apply submitAnswerTool_store.
  - apply calculateMatchTool_store.
  - constructor.
Qed.

Lemma createRoom_store (rooms : gmap string Room) (uuid : string) (now : Z)
    (uid uname uphone : string) :
  rooms !! uuid = None ->
  store_step rooms (fst (createRoom rooms uuid now uid uname uphone)).
Proof.
  intros Hfresh. unfold createRoom. simpl.
  apply store_create; [exact Hfresh | split; reflexivity | reflexivity].
Qed.

Lemma joinRoom_store (rooms : gmap string Room) (rid uid uname uphone : string) :
  store_step rooms (fst (joinRoom rooms rid uid uname uphone)).
Proof.
  unfold joinRoom.
  destruct (rooms !! rid) as [room |] eqn:Hroom; [| constructor].
  destruct (partner2 room) eqn:Hp2; [constructor |].
  destruct (String.eqb _ _); [constructor |].
  simpl. apply (store_update rooms _ room); [exact Hroom |].
  apply ru_join; [exact Hp2 | split; reflexivity].
Qed.

Lemma connectAndInjectTools_rooms (s : State) (rid : string) (a : Member ActionType)
    (k : AfterConnect) (continue : State -> State) (P : gmap string Room -> Prop) :
  P (rooms s) -> P (rooms (continue s)) ->
  P (rooms (connectAndInjectTools s rid a k continue)).
Proof.
  intros Hs Hk. unfold connectAndInjectTools.
  destruct (getTokens s rid); [exact Hs | exact Hk].
Qed.

Lemma processMessage_store (s : State) (rid uid : string) (ws : nat) (text : string) :
  store_step (rooms s) (rooms (processMessage s rid uid ws text)).
Proof.
  unfold processMessage, getRoom.
  destruct (rooms s !! rid) as [room |] eqn:Hroom; [| constructor].
  destruct (obj_get text ACTION_MAP) as [actionType |]; [| constructor].
  destruct (chosenAction room) eqn:Hchosen; [constructor |].
  match goal with
  | |- context [negb ?b] => destruct b
  end; simpl.
  - apply connectAndInjectTools_rooms; simpl;
      (apply (store_update _ _ room); [exact Hroom | now constructor]).
  - apply (store_update _ _ room); [exact Hroom | now constructor].
Qed.

Lemma afterConnect_store (s : State) (rid : string) (k : AfterConnect) :
  store_step (rooms s) (rooms (afterConnect s rid k)).
Proof.
  destruct k; simpl; [constructor | apply processMessage_store].
Qed.

Lemma notifyAuthCompleteForRoom_store (s : State) (rid : string) :
  store_step (rooms s) (rooms (notifyAuthCompleteForRoom s rid)).
Proof.
  unfold notifyAuthCompleteForRoom. simpl.
  destruct (pendingActions s !! rid) as [pending |]; [| constructor].
  unfold getRoom. simpl.
  destruct (rooms s !! rid) as [room |]; [| constructor].
  destruct (chosenAction room); [| constructor].
  apply connectAndInjectTools_rooms; simpl; [constructor |].
  apply (processMessage_store
           (set_pendingActions (broadcastToRoom s rid swiggy_auth_complete)
              (delete rid (pendingActions s)))).
Qed.

Lemma afterRunner_rooms (s : State) (rid uid sender : string) (ws : nat) :
  rooms (afterRunner s rid uid sender ws) = rooms s.
Proof.
  unfold afterRunner. destruct (getRoom (rooms s) rid) as [updated |]; [| reflexivity].
  simpl. now destruct (_ && _).
Qed.

Lemma reveal_rooms (s : State) (rid : string) (ws : nat)
    (result : MatchOutput + MatchError) :
  rooms (reveal s rid ws result) = rooms s.
Proof.
  unfold reveal. destruct result as [result |]; [| reflexivity].
  destruct (getRoom (rooms s) rid) as [updated |]; [| reflexivity].
  now destruct (partner2 updated).
Qed.

Ltac store_step_tac :=
  match goal with
  | |- store_step _ (rooms (afterConnect ?s' ?rid ?k)) =>
      exact (afterConnect_store s' rid k)
  | |- store_step _ (rooms (runTool ?s' ?c ?call)) =>
      exact (runTool_store s' c call)
  | |- store_step _ (rooms (afterRunner _ _ _ _ _)) =>
      rewrite afterRunner_rooms; constructor
  | |- store_step _ (rooms (reveal _ _ _ _)) =>
      rewrite reveal_rooms; constructor
  | Hm : calculateMatchTool ?rs ?c = (?r', _) |- store_step _ ?r' =>
      replace r' with (fst (calculateMatchTool rs c)) by (now rewrite Hm);
      apply calculateMatchTool_store
  | |- context [if ?b then _ else _] => destruct b; store_step_tac
  | _ => constructor
  end.

(** The cases of [resume] that depend on what the suspended call holds. *)
Ltac resume_cases :=
  try match goal with
      | |- match ?x with Own _ => _ | Inherited _ => _ end = _ -> _ => destruct x
      | |- match ?x with Returned _ => _ | Thrown => _ end = _ -> _ => destruct x
      end;
  try discriminate.

Lemma resume_store (s s' : State) (task : nat) (t : Task) (r : Resumption) :
  resume s task t r = Some s' ->
  store_step (rooms s) (rooms s').
Proof.
  destruct t, r; simpl; try discriminate;
    try (destruct (calculateMatchTool _ _) as [rooms' m] eqn:Hm);
    resume_cases;
    intros [= <-]; simpl; store_step_tac.
Qed.

Lemma take_task_tasks (task : nat) (ts others : list (nat * Task)) (t : Task) :
  take_task task ts = Some (t, others) ->
  exists before after,
    ts = before ++ (task, t) :: after /\ others = before ++ after.
Proof.
  revert others. induction ts as [| [n t'] rest IH]; intros others; simpl.
  - discriminate.
  - destruct (Nat.eqb n task) eqn:Hn.
    + intros [= <- <-]. apply Nat.eqb_eq in Hn. subst n.
      now exists [], rest.
    + destruct (take_task task rest) as [[t1 rest'] |]; [| discriminate].
      intros [= <- <-].
      destruct (IH rest' eq_refl) as [before [after [-> ->]]].
      now exists ((n, t') :: before), after.
Qed.

(** Every event changes the room store by at most one write, of the five
    kinds of [room_update] or the creation of a room. *)
Lemma handle_store (s : State) (e : Event) :
  store_step (rooms s) (rooms (handle s e)).
Proof.
  destruct e as [uuid now uid uname uphone | rid uid uname uphone
                 | rid uid data mime | rid uid ws
                 | rid uid ws text | rid uid ws | rid tokens | task r]; simpl.
  - destruct (rooms s !! uuid) eqn:Hfresh; [constructor |].
    simpl. now apply createRoom_store.
  - apply joinRoom_store.
  - apply uploadPhoto_store.
  - destruct (connected _ _ _ _); [constructor |].
    unfold onConnection. destruct (getRoom _ _) as [room |]; [| constructor].
    destruct (negb _); [constructor |]. simpl.
    destruct (getPartner _ _), (partner2 room); constructor.
  - destruct (_ && _); [apply processMessage_store | constructor].
  - destruct (connected _ _ _ _); [| constructor].
    unfold onClose. destruct (roomConnections s !! rid); [| constructor].
    destruct (spliceConnection _ _ _); constructor.
  - destruct (bool_decide _); [| constructor].
    match goal with
    | |- store_step _ (rooms (notifyAuthCompleteForRoom ?s' ?rid)) =>
        exact (notifyAuthCompleteForRoom_store s' rid)
    end.
  - destruct (take_task task (tasks s)) as [[t others] |]; [| constructor].
    destruct (resume _ _ _ _) as [s' |] eqn:Hres; [| constructor].
    apply resume_store in Hres. exact Hres.
Qed.

Lemma run_app (events1 events2 : list Event) (s : State) :
  run (events1 ++ events2) s = run events2 (run events1 s).
Proof. unfold run. apply List.fold_left_app. Qed.

Lemma run_cons (e : Event) (events : list Event) (s : State) :
  run (e :: events) s = run events (handle s e).
Proof. reflexivity. Qed.

(** ** The chosen action is kept *)

Lemma lock_kept_refl (room : Room) : lock_kept room room.
Proof. intros a Ha. auto. Qed.

Lemma lock_kept_trans (r1 r2 r3 : Room) :
  lock_kept r1 r2 -> lock_kept r2 r3 -> lock_kept r1 r3.
Proof.
  intros H12 H23 a Ha. destruct (H12 a Ha) as [Ha2 Hb2].
  destruct (H23 a Ha2) as [Ha3 Hb3]. split; congruence.
Qed.

Lemma room_update_lock (room room' : Room) :
  room_update room room' -> lock_kept room room'.
Proof.
  intros Hupd a Ha. destruct Hupd; simpl; auto. congruence.
Qed.

Lemma locks_kept_refl (rooms : gmap string Room) : locks_kept rooms rooms.
Proof. intros rid room Hroom. exists room. split; [exact Hroom | apply lock_kept_refl]. Qed.

Lemma locks_kept_trans (m1 m2 m3 : gmap string Room) :
  locks_kept m1 m2 -> locks_kept m2 m3 -> locks_kept m1 m3.
Proof.
  intros H12 H23 rid room Hroom.
  destruct (H12 rid room Hroom) as [room2 [Hroom2 Hk2]].
  destruct (H23 rid room2 Hroom2) as [room3 [Hroom3 Hk3]].
  exists room3. split; [exact Hroom3 | eapply lock_kept_trans; eassumption].
Qed.

Lemma store_step_locks (m m' : gmap string Room) :
  store_step m m' -> locks_kept m m'.
Proof.
  intros [| rid0 room0 Hfresh _ _ | rid0 room0 room0' Hroom0 Hupd].
  - apply locks_kept_refl.
  - intros rid room Hroom. exists room. split; [| apply lock_kept_refl].
    rewrite lookup_insert_ne; [exact Hroom | congruence].
  - intros rid room Hroom. destruct (decide (rid0 = rid)) as [-> | Hne].
    + exists room0'. rewrite lookup_insert_eq. split; [reflexivity |].
      assert (room0 = room) as -> by congruence.
      now apply room_update_lock.
    + exists room. rewrite lookup_insert_ne by exact Hne.
      split; [exact Hroom | apply lock_kept_refl].
Qed.

(** Whatever the schedule, a room that has a chosen action keeps it. *)
Lemma run_locks_kept (events : list Event) :
  forall s, locks_kept (rooms s) (rooms (run events s)).
Proof.
  induction events as [| e events IH]; intros s.
  - apply locks_kept_refl.
  - rewrite run_cons. eapply locks_kept_trans; [| apply IH].
    apply store_step_locks, handle_store.
Qed.

Lemma action_text_not_empty (text : string) (a : Member ActionType) :
  obj_get text ACTION_MAP = Some a -> String.eqb text EmptyString = false.
Proof. destruct text; [discriminate | reflexivity]. Qed.

Lemma processMessage_first_proposal (s : State) (rid uid : string) (ws : nat)
    (text : string) (room : Room) (a : Member ActionType) :
  rooms s !! rid = Some room ->
  obj_get text ACTION_MAP = Some a ->
  chosenAction room = None ->
  rooms (processMessage s rid uid ws text) !! rid = Some (set_chosen room a uid).
Proof.
  intros Hroom Hact Hnone. unfold processMessage, getRoom.
  rewrite Hroom, Hact, Hnone.
  match goal with
  | |- context [negb ?b] => destruct b
  end; simpl.
  - apply connectAndInjectTools_rooms; simpl; apply lookup_insert_eq.
  - apply lookup_insert_eq.
Qed.

Lemma processMessage_later_proposal (s : State) (rid uid : string) (ws : nat)
    (text : string) (room : Room) (a chosen : Member ActionType) :
  rooms s !! rid = Some room ->
  obj_get text ACTION_MAP = Some a ->
  chosenAction room = Some chosen ->
  processMessage s rid uid ws text
  = sendToClient s ws
      (agent_message (Text ("Your partner already chose " +:+
         label_of chosen +:+ "! Let's go with that."))).
Proof.
  intros Hroom Hact Hchosen. unfold processMessage, getRoom.
  now rewrite Hroom, Hact, Hchosen.
Qed.

(** C2.  The lock itself is as the claim says: in every room what
    [chosenAction] holds goes from none to a value once and stays, under
    every schedule; the first text taken for a proposal on a room without a
    chosen action sets [chosenAction] to what [ACTION_MAP] gives for it and
    [chosenBy] to the sender, and every later one changes neither the room
    store nor the suspended calls and is answered to its sender.  But the
    texts taken for proposals are more than the three of [ACTION_MAP]: a
    chat text that names a member of [Object.prototype] takes the lock as
    well, with a value that is no action, and the answer to every later
    proposal then names no action ("already chose undefined").  The
    failing input: [p2] says "constructor", then [p1] proposes to order
    in. *)
Theorem chosenAction_first_writer_wins :
  (forall (s : State) (rid : string) (room : Room),
      rooms s !! rid = Some room ->
      (forall uid ws text a,
          chosenAction room = None ->
          connected s rid uid ws = true ->
          obj_get text ACTION_MAP = Some a ->
          exists room',
            rooms (handle s (E_message rid uid ws text)) !! rid = Some room'
            /\ chosenAction room' = Some a /\ chosenBy room' = Some uid)
      /\ (forall chosen events,
            chosenAction room = Some chosen ->
            let s1 := run events s in
            (exists room',
                rooms s1 !! rid = Some room'
                /\ chosenAction room' = Some chosen
                /\ chosenBy room' = chosenBy room)
            /\ (forall uid ws text a,
                  connected s1 rid uid ws = true ->
                  obj_get text ACTION_MAP = Some a ->
                  let s2 := handle s1 (E_message rid uid ws text) in
                  rooms s2 = rooms s1
                  /\ tasks s2 = tasks s1
                  /\ sent s2 = sent s1 ++
                       [(ToClient ws,
                         agent_message (Text ("Your partner already chose " +:+
                           label_of chosen +:+ "! Let's go with that.")))])))
  /\ (let s := run before_proposal initial in
      let s1 := handle s (E_message "r" "p2" 2 "constructor") in
      let s2 := handle s1 (E_message "r" "p1" 1 "Let's order in!") in
      obj_get "constructor" ACTION_MAP = Some (Inherited "constructor")
      /\ (exists room, rooms s !! "r" = Some room /\ chosenAction room = None)
      /\ (exists room1,
             rooms s1 !! "r" = Some room1
             /\ chosenAction room1 = Some (Inherited "constructor")
             /\ chosenBy room1 = Some "p2")
      /\ sent s1 = sent s ++
           [(ToRoom "r", action_chosen (Inherited "constructor") "Ravi")]
      /\ rooms s2 = rooms s1
      /\ sent s2 = sent s1 ++
           [(ToClient 1,
             agent_message
               (Text "Your partner already chose undefined! Let's go with that."))]).
Proof.
  split.
  2: { cbv zeta. split; [reflexivity |]. split; [eexists; split; vm_compute; reflexivity |].
       split; [eexists; split; [| split]; vm_compute; reflexivity |].
       conjs; vm_compute; reflexivity. }
  intros s rid room Hroom. split.
  - intros uid ws text a Hnone Hconn Hact. simpl.
    rewrite Hconn, (action_text_not_empty text a Hact). simpl.
    exists (set_chosen room a uid). split; [| split; reflexivity].
    now apply processMessage_first_proposal.
  - intros chosen events Hchosen s1.
    destruct (run_locks_kept events s rid room Hroom) as [room1 [Hroom1 Hkept]].
    destruct (Hkept chosen Hchosen) as [Hchosen1 Hby1].
    split; [exists room1; auto |].
    intros uid ws text a Hconn Hact s2. subst s2. simpl.
    fold s1 in Hroom1. rewrite Hconn, (action_text_not_empty text a Hact). simpl.
    rewrite (processMessage_later_proposal s1 rid uid ws text room1 a chosen);
      auto.
Qed.

Lemma chosenAction_first_writer_wins_witness :
  let s := run before_proposal initial in
  let s1 := handle s (E_message "r" "p1" 1 "Let's order in!") in
  let s2 := handle s1 (E_message "r" "p2" 2 "Let's dine out!") in
  (exists room', rooms s1 !! "r" = Some room'
                 /\ chosenAction room' = Some (Own delivery)
                 /\ chosenBy room' = Some "p1")
  /\ rooms s2 = rooms s1.
Proof.
  intros s s1 s2.
  destruct chosenAction_first_writer_wins as [Hgen _].
  destruct (rooms s !! "r") as [room |] eqn:Hroom; [| vm_compute in Hroom; discriminate].
  destruct (Hgen s "r" room Hroom) as [Hfirst _].
  destruct (Hfirst "p1" 1%nat "Let's order in!" (Own delivery))
    as [room1 [Hroom1 [Hc1 Hb1]]].
  - vm_compute in Hroom. now injection Hroom as <-.
  - vm_compute. reflexivity.
  - reflexivity.
  - split; [exists room1; auto |].
    destruct (Hgen s1 "r" room1 Hroom1) as [_ Hlater].
    destruct (Hlater (Own delivery) [] Hc1) as [_ Hrej].
    apply (Hrej "p2" 2%nat "Let's dine out!" (Own dineout)); vm_compute; reflexivity.
Defined.

(** ** Partners' answers are well formed *)

Lemma NoDup_snoc (l : list Z) (x : Z) :
  List.NoDup l -> ~ In x l -> List.NoDup (l ++ [x]).
Proof.
  intros Hl Hx. induction Hl as [| y l Hy Hl IH]; simpl.
  - constructor; [simpl; tauto | constructor].
  - constructor.
    + rewrite List.in_app_iff. simpl. intros [H | [H | []]]; [tauto |].
      subst. apply Hx. now left.
    + apply IH. intros H. apply Hx. now right.
Qed.

Lemma new_partner_ok (p : Partner) : new_partner p -> partner_ok p.
Proof.
  intros [Ha Hc]. unfold partner_ok. rewrite Ha, Hc. simpl.
  split; [constructor |]. split; [tauto |].
  split; [discriminate |]. intros Hall.
  destruct (Hall 1). rewrite question_ids_eq. now left.
Qed.

Lemma getNextQuestion_None (answers : list QuizAnswer) :
  getNextQuestion answers = None -> answers_all answers.
Proof.
  unfold getNextQuestion. intros Hnone qid Hq.
  unfold question_ids in Hq. apply List.in_map_iff in Hq as [q [<- Hq]].
  pose proof (List.find_none _ _ Hnone q Hq) as Hneg. simpl in Hneg.
  apply Bool.negb_false_iff, List.existsb_exists in Hneg as [x [Hx Heq]].
  apply Z.eqb_eq in Heq. now rewrite Heq.
Qed.

Lemma answers_all_app (answers more : list QuizAnswer) :
  answers_all answers -> answers_all (answers ++ more).
Proof.
  intros Hall qid Hq. unfold answered_ids. rewrite List.map_app, List.in_app_iff.
  left. now apply Hall.
Qed.

Lemma submitAnswer_Success (answers answers' : list QuizAnswer) (qid : Z) (ans : string) :
  submitAnswer answers qid ans = (answers', Success) ->
  In qid question_ids /\ ~ In qid (answered_ids answers)
  /\ answers' = answers ++ [mkQuizAnswer qid ans].
Proof.
  destruct (submitAnswer_cases answers qid ans)
    as [[_ ->] | [[_ [_ ->]] | [Hv [Hf ->]]]]; try discriminate.
  intros [= <-]. auto.
Qed.

Lemma submitAnswer_ok (answers answers' : list QuizAnswer) (qid : Z) (ans : string) :
  submitAnswer answers qid ans = (answers', Success) ->
  List.NoDup (answered_ids answers) ->
  (forall q, In q (answered_ids answers) -> In q question_ids) ->
  List.NoDup (answered_ids answers')
  /\ (forall q, In q (answered_ids answers') -> In q question_ids).
Proof.
  intros Hsub Hnd Hvalid.
  apply submitAnswer_Success in Hsub as [Hv [Hfresh ->]].
  rewrite answered_ids_app. split.
  - now apply NoDup_snoc.
  - intros q. rewrite List.in_app_iff. simpl.
    intros [H | [H | []]]; [now apply Hvalid | now subst].
Qed.

Lemma partner_update_ok (p p' : Partner) :
  partner_update p p' -> partner_ok p -> partner_ok p'.
Proof.
  intros Hupd [Hnd [Hvalid Hflag]].
  destruct Hupd as [Hnext | qid ans answers' Hsub Hc
                    | qid ans answers' Hsub Hc | data mime];
    unfold partner_ok; simpl.
  - split; [exact Hnd |]. split; [exact Hvalid |].
    split; [intros _; now apply getNextQuestion_None | reflexivity].
  - destruct (submitAnswer_ok _ _ _ _ Hsub Hnd Hvalid) as [Hnd' Hvalid'].
    split; [exact Hnd' |]. split; [exact Hvalid' |].
    split; [intros _; now apply isComplete_all | reflexivity].
  - destruct (submitAnswer_ok _ _ _ _ Hsub Hnd Hvalid) as [Hnd' Hvalid'].
    split; [exact Hnd' |]. split; [exact Hvalid' |].
    split.
    + intros Hflag'. apply submitAnswer_Success in Hsub as [_ [_ ->]].
      apply answers_all_app. now apply Hflag.
    + intros Hall. apply isComplete_all in Hall; [| assumption ..]. congruence.
  - auto.
Qed.

Lemma room_update_ok (room room' : Room) :
  room_update room room' -> room_ok room -> room_ok room'.
Proof.
  intros Hupd [H1 H2].
  destruct Hupd as [p Hnone Hnew | a chooser _ | p' Hp | p2 p' Hp2 Hp | m];
    unfold room_ok; simpl.
  - split; [exact H1 |]. intros ? [= <-]. now apply new_partner_ok.
  - auto.
  - split; [| exact H2]. eapply partner_update_ok; eassumption.
  - split; [exact H1 |]. intros ? [= <-].
    eapply partner_update_ok; [eassumption | now apply H2].
  - auto.
Qed.

Lemma store_step_ok (m m' : gmap string Room) :
  store_step m m' -> rooms_ok m -> rooms_ok m'.
Proof.
  intros [| rid0 room0 Hfresh Hnew Hp2 | rid0 room0 room0' Hroom0 Hupd] Hok.
  - exact Hok.
  - intros rid room. destruct (decide (rid0 = rid)) as [-> | Hne].
    + rewrite lookup_insert_eq. intros [= <-]. split.
      * now apply new_partner_ok.
      * rewrite Hp2. discriminate.
    + rewrite lookup_insert_ne by exact Hne. apply Hok.
  - intros rid room. destruct (decide (rid0 = rid)) as [-> | Hne].
    + rewrite lookup_insert_eq. intros [= <-].
      eapply room_update_ok; [eassumption | eapply Hok; eassumption].
    + rewrite lookup_insert_ne by exact Hne. apply Hok.
Qed.

(** In every state the server can reach, each partner has at most one
    answer per fixed question, none to anything else, and is marked
    complete only with all six answered. *)
Lemma run_rooms_ok (events : list Event) :
  forall s, rooms_ok (rooms s) -> rooms_ok (rooms (run events s)).
Proof.
  induction events as [| e events IH]; intros s Hok; [exact Hok |].
  rewrite run_cons. apply IH. eapply store_step_ok; [apply handle_store | exact Hok].
Qed.

Lemma initial_rooms_ok : rooms_ok (rooms initial).
Proof. intros rid room. simpl. rewrite lookup_empty. discriminate. Qed.

(** In a reachable state the completion flags say what the answers say. *)
Lemma reachable_room_ok (events : list Event) (rid : string) (room : Room) :
  rooms (run events initial) !! rid = Some room -> room_ok room.
Proof. apply (run_rooms_ok events initial initial_rooms_ok). Qed.

Lemma calculateMatchTool_complete (rooms : gmap string Room) (ctx : MessageContext)
    (room : Room) (p2 : Partner) :
  rooms !! ctx_roomId ctx = Some room ->
  partner2 room = Some p2 ->
  quizComplete (partner1 room) = true ->
  quizComplete p2 = true ->
  calculateMatchTool rooms ctx
  = match computeMatch (quizAnswers (partner1 room)) (quizAnswers p2) with
    | Thrown => (rooms, Thrown)
    | Returned m =>
        (<[ctx_roomId ctx := set_matchResult room (Some m)]> rooms,
         Returned (inl (output_of m)))
    end.
Proof.
  intros Hroom Hp2 Hc1 Hc2. unfold calculateMatchTool, getRoom.
  now rewrite Hroom, Hp2, Hc1, Hc2.
Qed.

(** In a reachable state the match calculation of a room whose partners
    both answered all six questions either returns, in range and stored, or
    throws on an answer of partner 1 that names an inherited member. *)
Lemma calculateMatchTool_reachable (events : list Event) (ctx : MessageContext)
    (room : Room) (p2 : Partner) :
  rooms (run events initial) !! ctx_roomId ctx = Some room ->
  partner2 room = Some p2 ->
  answers_all (quizAnswers (partner1 room)) ->
  answers_all (quizAnswers p2) ->
  quizComplete (partner1 room) = true
  /\ quizComplete p2 = true
  /\ ((exists m, calculated (rooms (run events initial)) ctx room m)
      \/ (calculateMatchTool (rooms (run events initial)) ctx
          = (rooms (run events initial), Thrown)
          /\ exists q a1 a2,
               In q QUIZ_QUESTIONS
               /\ find_answer (quizAnswers (partner1 room)) (id q) = Some a1
               /\ find_answer (quizAnswers p2) (id q) = Some a2
               /\ answer a1 <> answer a2 /\ inherited (answer a1) = true)).
Proof.
  intros Hroom Hp2 Hall1 Hall2.
  destruct (reachable_room_ok events _ room Hroom) as [[_ [_ Hflag1]] Hok2].
  destruct (Hok2 p2 Hp2) as [_ [_ Hflag2]].
  apply Hflag1 in Hall1 as Hc1. apply Hflag2 in Hall2 as Hc2.
  split; [exact Hc1 |]. split; [exact Hc2 |].
  rewrite (calculateMatchTool_complete _ ctx room p2 Hroom Hp2 Hc1 Hc2).
  unfold calculated.
  rewrite (calculateMatchTool_complete _ ctx room p2 Hroom Hp2 Hc1 Hc2).
  destruct (computeMatch (quizAnswers (partner1 room)) (quizAnswers p2))
    as [m |] eqn:Hm.
  - left. exists m. split; [reflexivity |].
    split; [reflexivity |]. split; [reflexivity |].
    now apply (computeMatch_range _ _ m Hall1 Hall2).
  - right. split; [reflexivity |]. now apply computeMatch_Thrown.
Qed.

(** C10.  In every state the server reaches: when both partners have joined
    a room and both have answered all six fixed questions, both are marked
    complete; the match calculation then succeeds, with all six questions
    contributing, a percentage between 20 and 100 and the result returned
    being the one stored on the room's [matchResult], unless partner 1
    answered some question with the name of a member of [Object.prototype]
    and partner 2 answered it otherwise: then the calculation throws and
    stores nothing.  The failing input: [p1] answers the cuisine question
    with "constructor"; all twelve submits succeed, both partners are
    marked complete, and the calculation of the reveal throws: the room's
    [matchResult] stays empty, no [match_result] goes out, and the partner
    whose conversation started the reveal is told that something went
    wrong. *)
Theorem calculateMatch_in_range :
  (forall (events : list Event) (ctx : MessageContext) (room : Room) (p2 : Partner),
      let s := run events initial in
      rooms s !! ctx_roomId ctx = Some room ->
      partner2 room = Some p2 ->
      answers_all (quizAnswers (partner1 room)) ->
      answers_all (quizAnswers p2) ->
      quizComplete (partner1 room) = true
      /\ quizComplete p2 = true
      /\ ((exists m, calculated (rooms s) ctx room m)
          \/ (calculateMatchTool (rooms s) ctx = (rooms s, Thrown)
              /\ exists q a1 a2,
                   In q QUIZ_QUESTIONS
                   /\ find_answer (quizAnswers (partner1 room)) (id q) = Some a1
                   /\ find_answer (quizAnswers p2) (id q) = Some a2
                   /\ answer a1 <> answer a2 /\ inherited (answer a1) = true))
      /\ ((forall a, In a (quizAnswers (partner1 room)) ->
                     inherited (answer a) = false) ->
          exists m, calculated (rooms s) ctx room m))
  /\ (let s := run constructor_answered initial in
      let s' := run calculation_rejects s in
      let ctx := mkContext "r" "p1" "Asha" in
      (exists room p2,
          rooms s !! "r" = Some room /\ partner2 room = Some p2
          /\ quizAnswers (partner1 room) = answersJ
          /\ quizAnswers p2 = answersA
          /\ answers_all (quizAnswers (partner1 room))
          /\ answers_all (quizAnswers p2)
          /\ quizComplete (partner1 room) = true /\ quizComplete p2 = true
          /\ matchResult room = None)
      /\ calculateMatchTool (rooms s) ctx = (rooms s, Thrown)
      /\ tasks s = [(4%nat, AwaitImport "r" "p1" "Asha" 1)]
      /\ rooms s' = rooms s
      /\ reveals "r" s' = 0%nat
      /\ tasks s' = []
      /\ sent s' = sent s ++
           [(ToClient 1, error "Something went wrong. Please try again.")]).
Proof.
  split.
  - intros events ctx room p2 s Hroom Hp2 Hall1 Hall2.
    destruct (calculateMatchTool_reachable events ctx room p2 Hroom Hp2 Hall1 Hall2)
      as [Hc1 [Hc2 Hcases]].
    split; [exact Hc1 |]. split; [exact Hc2 |]. split; [exact Hcases |].
    intros Hplain. destruct Hcases as [Hm | [_ [q [a1 [a2 [_ [H1 [_ [_ Hinh]]]]]]]]];
      [exact Hm |].
    exfalso. unfold find_answer in H1. apply List.find_some in H1 as [Hin _].
    rewrite (Hplain a1 Hin) in Hinh. discriminate.
  - cbv zeta. split.
    + eexists. eexists. split; [vm_compute; reflexivity |].
      split; [reflexivity |].
      split; [reflexivity |]. split; [reflexivity |].
      split; [intros qid; rewrite question_ids_eq; simpl; tauto |].
      split; [intros qid; rewrite question_ids_eq; simpl; tauto |].
      repeat split.
    + split; [vm_compute; reflexivity |].
      split; [vm_compute; reflexivity |].
      split; [vm_compute; reflexivity |].
      split; [vm_compute; reflexivity |].
      split; vm_compute; reflexivity.
Qed.

(** The same from the flags: a partner marked complete has answered all. *)
Lemma calculateMatch_when_marked_complete (events : list Event)
    (ctx : MessageContext) (room : Room) (p2 : Partner) :
  rooms (run events initial) !! ctx_roomId ctx = Some room ->
  partner2 room = Some p2 ->
  quizComplete (partner1 room) = true ->
  quizComplete p2 = true ->
  answers_all (quizAnswers (partner1 room)) /\ answers_all (quizAnswers p2).
Proof.
  intros Hroom Hp2 Hc1 Hc2.
  destruct (reachable_room_ok events _ room Hroom) as [[_ [_ Hflag1]] Hok2].
  destruct (Hok2 p2 Hp2) as [_ [_ Hflag2]].
  split; [now apply Hflag1 | now apply Hflag2].
Qed.

Lemma calculateMatch_in_range_witness :
  exists m,
    snd (calculateMatchTool
           (rooms (run (five_answered ++ last_answer_p1 ++ last_answer_p2) initial))
           (mkContext "r" "p1" "Asha"))
    = Returned (inl (output_of m))
    /\ 20 <= compatibility m <= 100.
Proof.
  pose (p1 := mkPartner "p1" "Asha" "111" answersA true None None).
  pose (p2 := mkPartner "p2" "Ravi" "222" answersB true None None).
  pose (room := mkRoom "r" p1 (Some p2) None "session_r" 0 None None None).
  assert (Hroom : rooms (run (five_answered ++ last_answer_p1 ++ last_answer_p2) initial)
                  !! ctx_roomId (mkContext "r" "p1" "Asha") = Some room)
    by (vm_compute; reflexivity).
  assert (HallA : answers_all answersA).
  { intros qid. rewrite question_ids_eq. simpl. tauto. }
  assert (HallB : answers_all answersB).
  { intros qid. rewrite question_ids_eq. simpl. tauto. }
  destruct calculateMatch_in_range as [Hgen _].
  destruct (Hgen _ _ room p2 Hroom eq_refl HallA HallB) as [_ [_ [_ Hplain]]].
  destruct Hplain as [m [Hcalc [_ [_ [_ Hrange]]]]].
  { intros a Ha. simpl in Ha.
    repeat (destruct Ha as [<- | Ha]; [reflexivity |]). destruct Ha. }
  exists m. split; [now rewrite Hcalc | exact Hrange].
Defined.

(** * Capability registry: [agentTools] *)

Lemma pushAll_app (agentTools mcpTools : list FunctionTool) :
  pushAll agentTools mcpTools = agentTools ++ mcpTools.
Proof.
  unfold pushAll. revert agentTools.
  induction mcpTools as [| tool rest IH]; intros agentTools; simpl.
  - now rewrite List.app_nil_r.
  - rewrite IH, <- List.app_assoc. reflexivity.
Qed.

(** Injection only ever appends: nothing already in the tool set is
    replaced or removed. *)
Lemma pushAll_keeps (agentTools mcpTools : list FunctionTool) (n : string) :
  length (named n (pushAll agentTools mcpTools))
  = (length (named n agentTools) + length (named n mcpTools))%nat.
Proof.
  rewrite pushAll_app. unfold named.
  now rewrite filter_app, List.length_app.
Qed.

(** C1.  Two rooms authorize and connect the same remote endpoint: the
    agent's tool set ends up with two entries named "search_restaurants",
    the first room's and the second room's, instead of one. *)
Theorem agentTools_duplicate_names :
  let s := run two_rooms_order_in initial in
  named "search_restaurants" (agentTools s) = [search_v1; search_v2]
  /\ agentTools s = builtinTools ++ [search_v1; search_v2].
Proof. split; vm_compute; reflexivity. Qed.

(** * Joint decision and the authorization handshake *)

(** C5.  A first proposal on a room without tokens whose request for an
    authorization URL fails: the error goes to the proposer, nothing is
    stashed and no call stays suspended, but the room stays locked on the
    proposed action, and the retry the error message asks for is turned
    down as already chosen. *)
Theorem failed_authorization_keeps_lock :
  let s0 := run before_proposal initial in
  let s1 := run failed_proposal s0 in
  let s2 := handle s1 (E_message "r" "p1" 1 "Let's order in!") in
  (chosenAction <$> rooms s0 !! "r") = Some None
  /\ (chosenBy <$> rooms s0 !! "r") = Some None
  /\ (chosenAction <$> rooms s1 !! "r") = Some (Some (Own delivery))
  /\ (chosenBy <$> rooms s1 !! "r") = Some (Some "p1")
  /\ last (sent s1)
     = Some (ToClient 1,
             error "Failed to start Swiggy authentication. Please try again.")
  /\ pendingActions s1 !! "r" = None
  /\ tasks s1 = []
  /\ last (sent s2)
     = Some (ToClient 1,
             agent_message (Text "Your partner already chose Order In! Let's go with that."))
  /\ tasks s2 = [].
Proof. cbv zeta. conjs; vm_compute; reflexivity. Qed.

(** * Reveal: the [matchSent] guard *)



Lemma calm_trans (rid : string) (s1 s2 s3 : State) :
  calm rid s1 s2 -> calm rid s2 s3 -> calm rid s1 s3.
Proof. unfold calm. intros [H1 [H2 H3]] [H4 [H5 H6]]. repeat split; [lia | lia | auto]. Qed.
































(** * Further properties of the progression tracker *)

Lemma find_first {A : Type} (f : A -> bool) (l : list A) (x : A) :
  find f l = Some x ->
  exists before after,
    l = before ++ x :: after /\ f x = true
    /\ forall y, In y before -> f y = false.
Proof.
  induction l as [| a l IH]; simpl; [discriminate |].
  destruct (f a) eqn:Hfa.
  - intros [= <-]. exists [], l. simpl. tauto.
  - intros Hfind. destruct (IH Hfind) as [before [after [-> [Hx Hb]]]].
    exists (a :: before), after. simpl. split; [reflexivity |].
    split; [exact Hx |]. intros y [<- | Hy]; auto.
Qed.

Lemma unanswered_iff (answers : list QuizAnswer) (q : QuizQuestion) :
  negb (existsb (Z.eqb (id q)) (answered_ids answers)) = true
  <-> ~ In (id q) (answered_ids answers).
Proof.
  rewrite Bool.negb_true_iff, <- Bool.not_true_iff_false, List.existsb_exists.
  split; intros H Hin; apply H.
  - exists (id q). split; [exact Hin | apply Z.eqb_refl].
  - destruct Hin as [x [Hx Heq]]. apply Z.eqb_eq in Heq. now rewrite Heq.
Qed.

(** X1.  [getNextQuestion] hands out the first question, in the order of
    [QUIZ_QUESTIONS], that has no answer yet, and none exactly when every
    fixed question has one. *)
Theorem getNextQuestion_first_unanswered (answers : list QuizAnswer) :
  (getNextQuestion answers = None <-> answers_all answers)
  /\ (forall q, getNextQuestion answers = Some q ->
        exists before after,
          QUIZ_QUESTIONS = before ++ q :: after
          /\ ~ In (id q) (answered_ids answers)
          /\ forall q', In q' before -> In (id q') (answered_ids answers)).
Proof.
  split; [split |].
  - apply getNextQuestion_None.
  - intros Hall. unfold getNextQuestion.
    destruct (find _ QUIZ_QUESTIONS) as [q |] eqn:Hfind; [| reflexivity].
    apply List.find_some in Hfind as [Hq Hun].
    apply (unanswered_iff answers q) in Hun.
    exfalso. apply Hun, Hall. now apply question_id_in.
  - intros q Hnext. unfold getNextQuestion in Hnext.
    apply find_first in Hnext as [before [after [Hsplit [Hun Hbefore]]]].
    exists before, after. split; [exact Hsplit |].
    split; [now apply (unanswered_iff answers q) |].
    intros q' Hq'. specialize (Hbefore q' Hq').
    destruct (List.in_dec Z.eq_dec (id q') (answered_ids answers)) as [Hin | Hnot];
      [exact Hin |].
    apply (unanswered_iff answers q') in Hnot. fold (answered_ids answers) in Hbefore.
    congruence.
Qed.

Lemma getNextQuestion_first_unanswered_witness :
  exists before after,
    QUIZ_QUESTIONS = before ++ mkQuizQuestion 2 "How spicy do you like it?" "spice"
                                 ["Mild"; "Medium"; "Spicy"; "Extra Spicy"] :: after
    /\ forall q', In q' before ->
         In (id q') (answered_ids [mkQuizAnswer 3 "Veg"; mkQuizAnswer 1 "Italian"]).
Proof.
  destruct (getNextQuestion_first_unanswered
              [mkQuizAnswer 3 "Veg"; mkQuizAnswer 1 "Italian"]) as [_ Hsome].
  destruct (Hsome _ eq_refl) as [before [after [Hsplit [_ Hbefore]]]].
  exists before, after. split; [exact Hsplit | exact Hbefore].
Defined.

Lemma next_question_valid (answers : list QuizAnswer) (q : QuizQuestion) :
  getNextQuestion answers = Some q ->
  In (id q) question_ids /\ ~ In (id q) (answered_ids answers).
Proof.
  intros Hnext. unfold getNextQuestion in Hnext.
  apply List.find_some in Hnext as [Hq Hun].
  split; [now apply question_id_in | now apply (unanswered_iff answers q)].
Qed.

(** X2.  The question [getNextQuestion] hands out can always be submitted,
    whatever the text of the answer (also one outside the listed options),
    and once submitted it is never handed out again. *)
Theorem next_question_can_be_submitted (answers : list QuizAnswer)
    (q : QuizQuestion) (ans : string) :
  getNextQuestion answers = Some q ->
  submitAnswer answers (id q) ans = (answers ++ [mkQuizAnswer (id q) ans], Success)
  /\ forall more,
       getNextQuestion (answers ++ [mkQuizAnswer (id q) ans] ++ more) <> Some q.
Proof.
  intros Hnext. destruct (next_question_valid answers q Hnext) as [Hvalid Hfresh].
  split; [now apply submitAnswer_fresh |].
  intros more Hagain.
  apply next_question_valid in Hagain as [_ Hnot]. apply Hnot.
  unfold answered_ids. rewrite !List.map_app, !List.in_app_iff. simpl. tauto.
Qed.

Lemma next_question_can_be_submitted_witness :
  submitAnswer [mkQuizAnswer 1 "Italian"] 2 "Volcanic"
  = ([mkQuizAnswer 1 "Italian"; mkQuizAnswer 2 "Volcanic"], Success).
Proof.
  apply (next_question_can_be_submitted [mkQuizAnswer 1 "Italian"]
           (mkQuizQuestion 2 "How spicy do you like it?" "spice"
              ["Mild"; "Medium"; "Spicy"; "Extra Spicy"]) "Volcanic").
  reflexivity.
Defined.

Lemma find_answer_app_new (answers : list QuizAnswer) (qid : Z) (ans : string) :
  ~ In qid (answered_ids answers) ->
  find_answer (answers ++ [mkQuizAnswer qid ans]) qid = Some (mkQuizAnswer qid ans).
Proof.
  intros Hfresh. unfold find_answer.
  induction answers as [| a answers IH]; simpl.
  - now rewrite Z.eqb_refl.
  - simpl in Hfresh. destruct (Z.eqb (questionId a) qid) eqn:Heq.
    + apply Z.eqb_eq in Heq. tauto.
    + apply IH. tauto.
Qed.

Lemma find_answer_app_old (answers more : list QuizAnswer) (qid : Z) (a : QuizAnswer) :
  find_answer answers qid = Some a -> find_answer (answers ++ more) qid = Some a.
Proof.
  unfold find_answer. induction answers as [| x answers IH]; simpl; [discriminate |].
  destruct (Z.eqb (questionId x) qid); auto.
Qed.

(** X3.  A successful submit can be read back by question id, and a second
    submit for the same question fails as already answered, whatever its
    text: the first answer stands.  Answers recorded before are read back
    as before. *)
Theorem submit_then_lookup (answers answers' : list QuizAnswer)
    (qid : Z) (first second : string) :
  submitAnswer answers qid first = (answers', Success) ->
  find_answer answers' qid = Some (mkQuizAnswer qid first)
  /\ submitAnswer answers' qid second = (answers', Failure (AlreadyAnswered qid))
  /\ (forall other a, find_answer answers other = Some a ->
        find_answer answers' other = Some a)
  /\ length answers' = S (length answers).
Proof.
  intros Hsub. apply submitAnswer_Success in Hsub as [Hvalid [Hfresh ->]].
  split; [now apply find_answer_app_new |].
  split.
  - apply submitAnswer_again; [exact Hvalid |].
    rewrite answered_ids_app, List.in_app_iff. simpl. tauto.
  - split; [intros other a; apply find_answer_app_old |].
    rewrite List.length_app. simpl. lia.
Qed.

Lemma submit_then_lookup_witness :
  find_answer [mkQuizAnswer 1 "Italian"; mkQuizAnswer 4 "₹1200+"] 4
  = Some (mkQuizAnswer 4 "₹1200+")
  /\ submitAnswer [mkQuizAnswer 1 "Italian"; mkQuizAnswer 4 "₹1200+"] 4 "₹200-400"
     = ([mkQuizAnswer 1 "Italian"; mkQuizAnswer 4 "₹1200+"],
        Failure (AlreadyAnswered 4)).
Proof.
  destruct (submit_then_lookup [mkQuizAnswer 1 "Italian"]
              [mkQuizAnswer 1 "Italian"; mkQuizAnswer 4 "₹1200+"]
              4 "₹1200+" "₹200-400" eq_refl) as [Hfind [Hagain _]].
  split; [exact Hfind | exact Hagain].
Defined.

(** * Further properties of the session store *)

(** X4.  [isUserInRoom] says yes exactly when [getPartner] finds somebody, and
    whom [getPartner] finds carries the identifier asked for and sits in
    one of the room's two slots. *)
Theorem isUserInRoom_iff_getPartner (room : Room) (uid : string) :
  (isUserInRoom room uid = true <-> exists p, getPartner room uid = Some p)
  /\ (forall p, getPartner room uid = Some p ->
        userId p = uid /\ (p = partner1 room \/ partner2 room = Some p)).
Proof.
  unfold isUserInRoom, getPartner.
  destruct (String.eqb (userId (partner1 room)) uid) eqn:H1.
  - apply String.eqb_eq in H1. split.
    + split; [eauto | reflexivity].
    + intros p [= <-]. auto.
  - destruct (partner2 room) as [p2 |]; simpl.
    + destruct (String.eqb (userId p2) uid) eqn:H2.
      * apply String.eqb_eq in H2. split.
        -- split; [eauto | reflexivity].
        -- intros p [= <-]. auto.
      * split; [split; [discriminate | intros [p Hp]; discriminate] | discriminate].
    + split; [split; [discriminate | intros [p Hp]; discriminate] | discriminate].
Qed.

Lemma isUserInRoom_iff_getPartner_witness :
  let p1 := mkPartner "p1" "Asha" "111" [] false None None in
  let p2 := mkPartner "p2" "Ravi" "222" [] false None None in
  let room := mkRoom "r" p1 (Some p2) None "session_r" 0 None None None in
  userId p2 = "p2" /\ (p2 = partner1 room \/ partner2 room = Some p2).
Proof.
  intros p1 p2 room.
  apply (isUserInRoom_iff_getPartner room "p2"). reflexivity.
Defined.

(** X5.  Joining a room that does not exist fails with "Room not found" and
    changes nothing; joining any room leaves every other room as it was. *)
Theorem joinRoom_touches_one_room (rooms : gmap string Room)
    (rid uid uname uphone : string) :
  (rooms !! rid = None ->
   joinRoom rooms rid uid uname uphone = (rooms, inr RoomNotFound))
  /\ (forall other, other <> rid ->
        fst (joinRoom rooms rid uid uname uphone) !! other = rooms !! other).
Proof.
  unfold joinRoom. split.
  - intros ->. reflexivity.
  - intros other Hne.
    destruct (rooms !! rid) as [room |]; [| reflexivity].
    destruct (partner2 room); [reflexivity |].
    destruct (String.eqb _ _); [reflexivity |].
    simpl. now rewrite lookup_insert_ne.
Qed.

Lemma joinRoom_touches_one_room_witness :
  joinRoom (∅ : gmap string Room) "nowhere" "p2" "Ravi" "222"
  = (∅, inr RoomNotFound).
Proof.
  apply (joinRoom_touches_one_room ∅ "nowhere" "p2" "Ravi" "222").
  apply lookup_empty.
Defined.

(** X6.  After a successful join the room is full: every later join of that
    room fails with "Room is full" and changes nothing, both participants
    are members, and [getPartner] finds the joiner with an empty quiz. *)
Theorem joinRoom_then_full (rooms rooms' : gmap string Room)
    (rid uid uname uphone : string) (room' : Room) :
  joinRoom rooms rid uid uname uphone = (rooms', inl room') ->
  (forall uid2 uname2 uphone2,
      joinRoom rooms' rid uid2 uname2 uphone2 = (rooms', inr RoomIsFull))
  /\ rooms' !! rid = Some room'
  /\ isUserInRoom room' uid = true
  /\ isUserInRoom room' (userId (partner1 room')) = true
  /\ userId (partner1 room') <> uid
  /\ getPartner room' uid = Some (mkPartner uid uname uphone [] false None None).
Proof.
  unfold joinRoom.
  destruct (rooms !! rid) as [room |] eqn:Hroom; [| discriminate].
  destruct (partner2 room) eqn:Hp2; [discriminate |].
  destruct (String.eqb (userId (partner1 room)) uid) eqn:Hne; [discriminate |].
  intros [= <- <-]. rewrite lookup_insert_eq. simpl.
  split; [reflexivity |]. split; [reflexivity |].
  unfold isUserInRoom, getPartner. simpl.
  rewrite Hne, !String.eqb_refl. simpl.
  repeat split. now apply String.eqb_neq.
Qed.

Lemma joinRoom_then_full_witness :
  let p1 := mkPartner "p1" "Asha" "111" [] false None None in
  let room := mkRoom "r" p1 None None "session_r" 0 None None None in
  let room' := set_partner2 room (Some (mkPartner "p2" "Ravi" "222" [] false None None)) in
  joinRoom (<["r" := room']> {["r" := room]}) "r" "p3" "Mira" "333"
  = (<["r" := room']> {["r" := room]}, inr RoomIsFull).
Proof.
  intros p1 room room'.
  apply (joinRoom_then_full {["r" := room]} _ "r" "p2" "Ravi" "222" room').
  unfold joinRoom. rewrite lookup_singleton_eq. reflexivity.
Defined.

(** * Further properties of the quiz tools *)

(** X7.  [submit_answer] writes to the caller and to nobody else: every other
    room is as before; in the caller's room the action, its chooser, the
    match result and the other partner are as before; and the caller keeps
    identity and photo, the answers recorded so far staying a prefix of
    the new ones, with at most one more at the end. *)
Theorem submitAnswerTool_writes_caller_only (rooms : gmap string Room)
    (ctx : MessageContext) (question_id : Z) (ans : string) :
  let rooms' := fst (QuizTools.submitAnswerTool rooms ctx question_id ans) in
  (forall other, other <> ctx_roomId ctx -> rooms' !! other = rooms !! other)
  /\ (forall room, rooms !! ctx_roomId ctx = Some room ->
        exists room',
          rooms' !! ctx_roomId ctx = Some room'
          /\ roomId room' = roomId room
          /\ chosenAction room' = chosenAction room
          /\ chosenBy room' = chosenBy room
          /\ matchResult room' = matchResult room
          /\ (userId (partner1 room) <> ctx_userId ctx ->
              partner1 room' = partner1 room)
          /\ (userId (partner1 room) = ctx_userId ctx ->
              partner2 room' = partner2 room)
          /\ (forall caller, getPartner room (ctx_userId ctx) = Some caller ->
                exists caller',
                  getPartner room' (ctx_userId ctx) = Some caller'
                  /\ userId caller' = userId caller /\ name caller' = name caller
                  /\ phone caller' = phone caller
                  /\ photoData caller' = photoData caller
                  /\ (quizAnswers caller' = quizAnswers caller
                      \/ quizAnswers caller'
                         = quizAnswers caller ++ [mkQuizAnswer question_id ans]))).
Proof.
  intros rooms'. subst rooms'. unfold QuizTools.submitAnswerTool, getRoom.
  split.
  - intros other Hne.
    destruct (rooms !! ctx_roomId ctx) as [room |]; [| reflexivity].
    destruct (getPartner room (ctx_userId ctx)) as [partner |]; [| reflexivity].
    destruct (quizComplete partner); [reflexivity |].
    destruct (submitAnswer _ _ _) as [answers' [| e]]; [| reflexivity].
    destruct (isComplete answers'); simpl; now rewrite lookup_insert_ne.
  - intros room Hroom. rewrite Hroom.
    assert (Hsame : exists room', Some room = Some room'
              /\ roomId room' = roomId room
              /\ chosenAction room' = chosenAction room
              /\ chosenBy room' = chosenBy room
              /\ matchResult room' = matchResult room
              /\ (userId (partner1 room) <> ctx_userId ctx ->
                  partner1 room' = partner1 room)
              /\ (userId (partner1 room) = ctx_userId ctx ->
                  partner2 room' = partner2 room)
              /\ (forall caller, getPartner room (ctx_userId ctx) = Some caller ->
                    exists caller',
                      getPartner room' (ctx_userId ctx) = Some caller'
                      /\ userId caller' = userId caller /\ name caller' = name caller
                      /\ phone caller' = phone caller
                      /\ photoData caller' = photoData caller
                      /\ (quizAnswers caller' = quizAnswers caller
                          \/ quizAnswers caller'
                             = quizAnswers caller ++ [mkQuizAnswer question_id ans]))).
    { exists room. repeat split; auto. intros caller Hc. exists caller. auto 10. }
    destruct (getPartner room (ctx_userId ctx)) as [partner |] eqn:Hp;
      [| simpl; rewrite Hroom; exact Hsame].
    destruct (quizComplete partner); [simpl; rewrite Hroom; exact Hsame |].
    destruct (submitAnswer (quizAnswers partner) question_id ans)
      as [answers' [| e]] eqn:Hsub; [| simpl; rewrite Hroom; exact Hsame].
    clear Hsame. apply submitAnswer_Success in Hsub as [_ [_ ->]].
    assert (Hupd : forall f : Partner -> Partner,
               (forall p, userId (f p) = userId p /\ name (f p) = name p
                          /\ phone (f p) = phone p /\ photoData (f p) = photoData p
                          /\ quizAnswers (f partner)
                             = quizAnswers partner ++ [mkQuizAnswer question_id ans]) ->
               exists room',
                 Some (updatePartner room (ctx_userId ctx) f) = Some room'
                 /\ roomId room' = roomId room
                 /\ chosenAction room' = chosenAction room
                 /\ chosenBy room' = chosenBy room
                 /\ matchResult room' = matchResult room
                 /\ (userId (partner1 room) <> ctx_userId ctx ->
                     partner1 room' = partner1 room)
                 /\ (userId (partner1 room) = ctx_userId ctx ->
                     partner2 room' = partner2 room)
                 /\ (forall caller, Some partner = Some caller ->
                       exists caller',
                         getPartner room' (ctx_userId ctx) = Some caller'
                         /\ userId caller' = userId caller /\ name caller' = name caller
                         /\ phone caller' = phone caller
                         /\ photoData caller' = photoData caller
                         /\ (quizAnswers caller' = quizAnswers caller
                             \/ quizAnswers caller'
                                = quizAnswers caller ++ [mkQuizAnswer question_id ans]))).
    { intros f Hf. eexists. split; [reflexivity |].
      revert Hp. unfold getPartner, updatePartner.
      destruct (String.eqb (userId (partner1 room)) (ctx_userId ctx)) eqn:H1.
      - intros [= <-]. simpl. apply String.eqb_eq in H1.
        repeat split; try tauto.
        intros caller [= <-]. exists (f (partner1 room)).
        destruct (Hf (partner1 room)) as [Hu [Hn [Hph [Hpd Hq]]]].
        rewrite Hu, H1, String.eqb_refl. auto 10.
      - apply String.eqb_neq in H1.
        destruct (partner2 room) as [p2 |] eqn:Hp2; [| discriminate].
        destruct (String.eqb (userId p2) (ctx_userId ctx)) eqn:H2; [| discriminate].
        intros [= <-]. simpl.
        repeat split; try tauto.
        intros caller [= <-]. exists (f p2).
        destruct (Hf p2) as [Hu [Hn [Hph [Hpd Hq]]]].
        apply String.eqb_neq in H1. rewrite H1, Hu, H2. auto 10. }
    destruct (isComplete _); simpl; rewrite lookup_insert_eq; apply Hupd;
      intros p; simpl; auto.
Qed.

Lemma submitAnswerTool_writes_caller_only_witness :
  let s := run five_answered initial in
  exists room',
    fst (QuizTools.submitAnswerTool (rooms s) (mkContext "r" "p2" "Ravi") 6 "Sushi/Asian")
      !! "r" = Some room'
    /\ partner1 room' = mkPartner "p1" "Asha" "111"
                          [mkQuizAnswer 1 "Italian"; mkQuizAnswer 2 "Medium";
                           mkQuizAnswer 3 "Veg"; mkQuizAnswer 4 "₹400-700";
                           mkQuizAnswer 5 "Home-cooked"] false None None.
Proof.
  intros s.
  pose (p1 := mkPartner "p1" "Asha" "111"
                [mkQuizAnswer 1 "Italian"; mkQuizAnswer 2 "Medium";
                 mkQuizAnswer 3 "Veg"; mkQuizAnswer 4 "₹400-700";
                 mkQuizAnswer 5 "Home-cooked"] false None None).
  pose (p2 := mkPartner "p2" "Ravi" "222"
                [mkQuizAnswer 1 "Italian"; mkQuizAnswer 2 "Medium";
                 mkQuizAnswer 3 "Veg"; mkQuizAnswer 4 "₹400-700";
                 mkQuizAnswer 5 "Cozy & Romantic"] false None None).
  pose (room := mkRoom "r" p1 (Some p2) None "session_r" 0 None None None).
  assert (Hroom : rooms s !! ctx_roomId (mkContext "r" "p2" "Ravi") = Some room)
    by (vm_compute; reflexivity).
  destruct (submitAnswerTool_writes_caller_only (rooms s)
              (mkContext "r" "p2" "Ravi") 6 "Sushi/Asian") as [_ Hroom'].
  destruct (Hroom' room Hroom) as [room' [Hlook [_ [_ [_ [_ [Hp1 _]]]]]]].
  exists room'. split; [exact Hlook |]. apply Hp1. discriminate.
Defined.

(** X8.  A partner marked complete is closed to the quiz tools: [submit_answer]
    answers "Quiz already completed for this partner", [start_quiz] says the
    same, and neither writes anything, whatever question and answer. *)
Theorem completed_partner_is_closed (rooms : gmap string Room)
    (ctx : MessageContext) (room : Room) (partner : Partner) :
  rooms !! ctx_roomId ctx = Some room ->
  getPartner room (ctx_userId ctx) = Some partner ->
  quizComplete partner = true ->
  (forall question_id ans,
      QuizTools.submitAnswerTool rooms ctx question_id ans
      = (rooms, QuizTools.SubmitError QuizTools.Quiz_already_completed))
  /\ QuizTools.startQuizTool rooms ctx = (rooms, QuizTools.StartAlreadyCompleted).
Proof.
  intros Hroom Hp Hc.
  unfold QuizTools.submitAnswerTool, QuizTools.startQuizTool, getRoom.
  rewrite Hroom, Hp, Hc. auto.
Qed.

Lemma completed_partner_is_closed_witness :
  let p1 := mkPartner "p1" "Asha" "111" answersA true None None in
  let room := mkRoom "r" p1 None None "session_r" 0 None None None in
  QuizTools.startQuizTool {["r" := room]} (mkContext "r" "p1" "Asha")
  = ({["r" := room]}, QuizTools.StartAlreadyCompleted).
Proof.
  intros p1 room.
  apply (completed_partner_is_closed {["r" := room]} (mkContext "r" "p1" "Asha")
           room p1); [apply lookup_singleton_eq | reflexivity | reflexivity].
Defined.

Lemma answered_at_most_six (answers : list QuizAnswer) :
  List.NoDup (answered_ids answers) ->
  (forall qid, In qid (answered_ids answers) -> In qid question_ids) ->
  (length answers <= 6)%nat.
Proof.
  intros Hnd Hvalid.
  replace (length answers) with (length (answered_ids answers))
    by apply List.length_map.
  change 6%nat with (length question_ids).
  now apply List.NoDup_incl_length.
Qed.

(** X9.  In every state the server reaches, [get_quiz_status] reports for each
    partner of a room between 0 and 6 answered questions out of 6, reports
    a partner complete exactly when all 6 are answered, and reports both
    complete exactly when both partners are. *)
Theorem quiz_status_counts (events : list Event) (ctx : MessageContext)
    (status : QuizStatus.Status) :
  QuizStatus.getQuizStatusTool (rooms (run events initial)) ctx = inl status ->
  let ok := fun ps : QuizStatus.PartnerStatus =>
              0 <= QuizStatus.answeredCount ps <= 6
              /\ QuizStatus.totalQuestions ps = 6
              /\ (QuizStatus.complete ps = true <-> QuizStatus.answeredCount ps = 6) in
  ok (QuizStatus.status_partner1 status)
  /\ (forall ps2, QuizStatus.status_partner2 status = Some ps2 -> ok ps2)
  /\ (QuizStatus.status_bothComplete status = true
      <-> QuizStatus.complete (QuizStatus.status_partner1 status) = true
          /\ exists ps2, QuizStatus.status_partner2 status = Some ps2
                         /\ QuizStatus.complete ps2 = true).
Proof.
  intros Heq ok. unfold QuizStatus.getQuizStatusTool, getRoom in Heq.
  destruct (rooms (run events initial) !! ctx_roomId ctx) as [room |] eqn:Hroom;
    [| discriminate].
  injection Heq as <-. simpl.
  assert (Hok : forall p, partner_ok p -> ok (QuizStatus.partnerStatus p)).
  { intros p [Hnd [Hvalid Hflag]]. unfold ok, QuizStatus.partnerStatus. simpl.
    pose proof (answered_at_most_six _ Hnd Hvalid) as Hle.
    split; [lia |]. split; [reflexivity |].
    rewrite Hflag, <- (isComplete_all _ Hnd Hvalid), isComplete_length. lia. }
  destruct (reachable_room_ok events _ room Hroom) as [H1 H2].
  split; [now apply Hok |]. split.
  - intros ps2. destruct (partner2 room) as [p2 |]; [| discriminate].
    intros [= <-]. apply Hok. now apply H2.
  - rewrite Bool.andb_true_iff. destruct (partner2 room) as [p2 |]; simpl.
    + split; [intros [Ha Hb]; eauto |].
      intros [Ha [ps2 [[= <-] Hb]]]. auto.
    + split; [intros [_ Hb]; discriminate | intros [_ [ps2 [Hb _]]]; discriminate].
Qed.

Lemma quiz_status_counts_witness :
  exists status,
    QuizStatus.getQuizStatusTool (rooms (run five_answered initial))
      (mkContext "r" "p1" "Asha") = inl status
    /\ 0 <= QuizStatus.answeredCount (QuizStatus.status_partner1 status) <= 6.
Proof.
  destruct (QuizStatus.getQuizStatusTool (rooms (run five_answered initial))
              (mkContext "r" "p1" "Asha")) as [status |] eqn:Hstatus;
    [| vm_compute in Hstatus; discriminate].
  exists status. split; [reflexivity |].
  destruct (quiz_status_counts five_answered (mkContext "r" "p1" "Asha")
              status Hstatus) as [[Hrange _] _].
  exact Hrange.
Defined.

(** * Further properties of the scoring engine *)

(** X10.  [calculate_match] returns an error exactly when the room is
    unknown, the second partner has not joined, or a partner is not marked
    complete, in that order; a call that returns an error writes nothing,
    and neither does one that throws, which only a call past these three
    checks can. *)
Theorem calculateMatchTool_errors (rooms : gmap string Room) (ctx : MessageContext) :
  (rooms !! ctx_roomId ctx = None ->
   calculateMatchTool rooms ctx = (rooms, Returned (inr Matching.Room_not_found)))
  /\ (forall room, rooms !! ctx_roomId ctx = Some room -> partner2 room = None ->
        calculateMatchTool rooms ctx = (rooms, Returned (inr Partner2_not_joined)))
  /\ (forall room p2, rooms !! ctx_roomId ctx = Some room -> partner2 room = Some p2 ->
        quizComplete (partner1 room) = false \/ quizComplete p2 = false ->
        calculateMatchTool rooms ctx = (rooms, Returned (inr Quiz_not_complete)))
  /\ (forall e, snd (calculateMatchTool rooms ctx) = Returned (inr e) ->
        fst (calculateMatchTool rooms ctx) = rooms)
  /\ (forall out, snd (calculateMatchTool rooms ctx) = Returned (inl out) ->
        exists room p2,
          rooms !! ctx_roomId ctx = Some room /\ partner2 room = Some p2
          /\ quizComplete (partner1 room) = true /\ quizComplete p2 = true)
  /\ (snd (calculateMatchTool rooms ctx) = Thrown ->
        fst (calculateMatchTool rooms ctx) = rooms
        /\ exists room p2,
             rooms !! ctx_roomId ctx = Some room /\ partner2 room = Some p2
             /\ quizComplete (partner1 room) = true /\ quizComplete p2 = true).
Proof.
  unfold calculateMatchTool, getRoom.
  split; [intros ->; reflexivity |].
  split; [intros room -> ->; reflexivity |].
  split.
  { intros room p2 -> -> [-> | ->]; simpl;
      [reflexivity | now rewrite Bool.orb_true_r]. }
  destruct (rooms !! ctx_roomId ctx) as [room |];
    [| split; [auto | split; discriminate]].
  destruct (partner2 room) as [p2 |] eqn:Hp2;
    [| split; [auto | split; discriminate]].
  destruct (quizComplete (partner1 room)) eqn:H1, (quizComplete p2) eqn:H2; simpl;
    try (split; [auto | split; discriminate]).
  destruct (computeMatch _ _) as [m |]; simpl.
  - split; [discriminate |]. split; [| discriminate].
    intros out _. exists room, p2. auto.
  - split; [discriminate |]. split; [discriminate |].
    intros _. split; [reflexivity |]. exists room, p2. auto.
Qed.

Lemma calculateMatchTool_errors_witness :
  let p1 := mkPartner "p1" "Asha" "111" answersA true None None in
  let room := mkRoom "r" p1 None None "session_r" 0 None None None in
  calculateMatchTool {["r" := room]} (mkContext "r" "p1" "Asha")
  = ({["r" := room]}, Returned (inr Partner2_not_joined)).
Proof.
  intros p1 room.
  destruct (calculateMatchTool_errors {["r" := room]} (mkContext "r" "p1" "Asha"))
    as [_ [Hnot_joined _]].
  apply (Hnot_joined room); [apply lookup_singleton_eq | reflexivity].
Defined.

(** X11.  [calculate_match] can be repeated: a second call on the store the first
    one left returns the same result and leaves that store as it is. *)
Theorem calculateMatchTool_idempotent (rooms rooms' : gmap string Room)
    (ctx : MessageContext) (out : MatchOutput) :
  calculateMatchTool rooms ctx = (rooms', Returned (inl out)) ->
  calculateMatchTool rooms' ctx = (rooms', Returned (inl out)).
Proof.
  unfold calculateMatchTool, getRoom.
  destruct (rooms !! ctx_roomId ctx) as [room |] eqn:Hroom; [| discriminate].
  destruct (partner2 room) as [p2 |] eqn:Hp2; [| discriminate].
  destruct (negb (quizComplete (partner1 room)) || negb (quizComplete p2)) eqn:Hc;
    [discriminate |].
  destruct (computeMatch _ _) as [m |] eqn:Hm; [| discriminate].
  intros [= <- <-]. rewrite lookup_insert_eq. simpl. rewrite Hp2, Hc, Hm.
  rewrite insert_insert_eq. reflexivity.
Qed.

Lemma calculateMatchTool_idempotent_witness :
  let p1 := mkPartner "p1" "Asha" "111" answersA true None None in
  let p2 := mkPartner "p2" "Ravi" "222" answersB true None None in
  let room := mkRoom "r" p1 (Some p2) None "session_r" 0 None None None in
  let ctx := mkContext "r" "p1" "Asha" in
  calculateMatchTool (fst (calculateMatchTool {["r" := room]} ctx)) ctx
  = calculateMatchTool {["r" := room]} ctx.
Proof.
  intros p1 p2 room ctx.
  destruct (calculateMatchTool {["r" := room]} ctx) as [rooms' [[out | e] |]] eqn:Hcalc.
  - simpl. now apply (calculateMatchTool_idempotent {["r" := room]} rooms' ctx out).
  - exfalso. vm_compute in Hcalc. discriminate.
  - exfalso. vm_compute in Hcalc. discriminate.
Defined.

Lemma score_100_iff (q : QuizQuestion) (a1 a2 : string) :
  In q QUIZ_QUESTIONS ->
  (calculateQuestionScore (category q) a1 a2 = Score 100 <-> a1 = a2).
Proof.
  intros Hq.
  destruct (calculateQuestionScore_rule q a1 a2 Hq) as [H100 _].
  split; [| exact H100].
  rewrite (calculateQuestionScore_fixed q a1 a2 Hq).
  destruct (String.eqb_spec a1 a2) as [-> | Hne]; [reflexivity |].
  destruct (inherited a1); [discriminate |].
  destruct (includes _ _); discriminate.
Qed.

(** When every question of [qs] has an entry, none above [hi], and the sum
    is at most [slack] short of the maximum, every single score is at most
    [slack] short of [hi]. *)
Lemma sum_scores_near_max (answers1 answers2 : list QuizAnswer)
    (hi slack : Z) (qs : list QuizQuestion) :
  (forall q, In q qs ->
     exists m, entry_of answers1 answers2 q = [m] /\ score m <= hi) ->
  hi * Z.of_nat (length qs) - slack
  <= sum_scores (flat_map (entry_of answers1 answers2) qs) ->
  forall q m, In q qs -> entry_of answers1 answers2 q = [m] -> hi - slack <= score m.
Proof.
  induction qs as [| q0 qs IH]; intros Hall Hsum q m Hq Hm; [destruct Hq |].
  destruct (Hall q0 (or_introl eq_refl)) as [m0 [Hm0 Hle0]].
  assert (Hrest : forall q, In q qs ->
            exists m, entry_of answers1 answers2 q = [m] /\ score m <= hi)
    by (intros q' Hq'; apply Hall; now right).
  assert (Hbound : sum_scores (flat_map (entry_of answers1 answers2) qs)
                   <= hi * Z.of_nat (length qs)).
  { clear -Hrest. induction qs as [| q1 qs IH]; simpl; [lia |].
    destruct (Hrest q1 (or_introl eq_refl)) as [m1 [Hm1 Hle1]].
    rewrite Hm1. cbn [app sum_scores fold_right].
    fold (sum_scores (flat_map (entry_of answers1 answers2) qs)).
    assert (sum_scores (flat_map (entry_of answers1 answers2) qs)
            <= hi * Z.of_nat (length qs))
      by (apply IH; intros q' Hq'; apply Hrest; now right).
    lia. }
  cbn [flat_map] in Hsum. rewrite Hm0 in Hsum.
  cbn [app sum_scores fold_right length] in Hsum.
  fold (sum_scores (flat_map (entry_of answers1 answers2) qs)) in Hsum.
  destruct Hq as [<- | Hq].
  - assert (m = m0) as -> by congruence. lia.
  - refine (IH Hrest _ q m Hq Hm). lia.
Qed.

(** X12.  For two answer lists that answer every fixed question, the
    calculation returns the percentage 100 exactly when the two partners
    gave the same answer to every question: no mix of compatible answers
    rounds up to 100. *)
Theorem compatibility_100_iff_identical (answers1 answers2 : list QuizAnswer) :
  answers_all answers1 -> answers_all answers2 ->
  ((exists result,
       computeMatch answers1 answers2 = Returned result
       /\ compatibility result = 100)
   <-> forall q a1 a2,
         In q QUIZ_QUESTIONS ->
         find_answer answers1 (id q) = Some a1 ->
         find_answer answers2 (id q) = Some a2 ->
         answer a1 = answer a2).
Proof.
  intros H1 H2. split.
  - intros [result [Hr H100]] q a1 a2 Hq Ha1 Ha2.
    apply computeMatch_Returned in Hr as [-> Hno].
    cbn [match_of compatibility] in H100. rewrite compatibility_of_div in H100.
    assert (Hentries : forall q, In q QUIZ_QUESTIONS ->
              exists m, entry_of answers1 answers2 q = [m] /\ 20 <= score m <= 100).
    { intros q' Hq'.
      destruct (entry_of_answered answers1 answers2 q' H1 H2 Hq' (Hno q' Hq'))
        as [b1 [b2 [sc [_ [_ [Hs ->]]]]]].
      eexists. split; [reflexivity |]. cbn [score].
      now apply calculateQuestionScore_bounds in Hs. }
    assert (Hhigh : 597 <= sum_scores (flat_map (entry_of answers1 answers2)
                                         QUIZ_QUESTIONS)).
    { destruct (Z.lt_ge_cases
                  (sum_scores (flat_map (entry_of answers1 answers2) QUIZ_QUESTIONS))
                  597) as [Hlt | Hge]; [| lia].
      assert ((sum_scores (flat_map (entry_of answers1 answers2) QUIZ_QUESTIONS) + 3)
              / 6 < 100) by (apply Z.div_lt_upper_bound; lia).
      lia. }
    pose proof (sum_scores_near_max answers1 answers2 100 3 QUIZ_QUESTIONS) as Hnear.
    specialize (Hnear
      (fun q Hq => match Hentries q Hq with
                   | ex_intro _ m (conj Hm Hb) =>
                       ex_intro _ m (conj Hm (proj2 Hb))
                   end)).
    change (Z.of_nat (length QUIZ_QUESTIONS)) with 6 in Hnear.
    specialize (Hnear ltac:(lia) q).
    destruct (entry_of_answered answers1 answers2 q H1 H2 Hq (Hno q Hq))
      as [b1 [b2 [sc [Hb1 [Hb2 [Hs Hentry]]]]]].
    rewrite Ha1 in Hb1. rewrite Ha2 in Hb2.
    injection Hb1 as <-. injection Hb2 as <-.
    specialize (Hnear _ Hq Hentry). cbn [score] in Hnear.
    apply (score_100_iff q _ _ Hq). rewrite Hs. f_equal.
    destruct (calculateQuestionScore_values _ _ _ sc Hs)
      as [-> | [-> | ->]]; [reflexivity | lia | lia].
  - intros Hsame. now apply computeMatch_same.
Qed.

Lemma compatibility_100_iff_identical_witness :
  exists result,
    computeMatch answersB answersB = Returned result /\ compatibility result = 100.
Proof.
  assert (Hall : answers_all answersB).
  { intros qid. rewrite question_ids_eq. simpl. tauto. }
  apply (compatibility_100_iff_identical answersB answersB Hall Hall).
  intros q a1 a2 _ Ha1 Ha2. rewrite Ha1 in Ha2. now injection Ha2 as <-.
Defined.

Lemma sum_scores_mod_20 (breakdown : list QuestionMatch) :
  (forall m, In m breakdown -> score m mod 20 = 0) ->
  sum_scores breakdown mod 20 = 0.
Proof.
  induction breakdown as [| m l IH]; intros H; [reflexivity |].
  simpl. fold (sum_scores l).
  rewrite Z.add_mod by lia.
  rewrite (H m (or_introl eq_refl)), IH by (intros m' Hm'; apply H; now right).
  reflexivity.
Qed.

(** X13.  The total score of a calculation that returns is a multiple of
    20, so the exact percentage is never halfway between two integers: it
    is the rounded value or a third away from it.  (Rounding the double the
    source computes and rounding the exact quotient therefore agree.) *)
Theorem compatibility_never_a_tie (answers1 answers2 : list QuizAnswer)
    (result : MatchResult) :
  computeMatch answers1 answers2 = Returned result ->
  let total := sum_scores (breakdown result) in
  total mod 20 = 0
  /\ (total = 6 * compatibility result
      \/ total = 6 * compatibility result + 2
      \/ total = 6 * compatibility result - 2).
Proof.
  intros Hr total. subst total.
  apply computeMatch_Returned in Hr as [-> _].
  cbn [match_of breakdown compatibility]. rewrite compatibility_of_div.
  set (total := sum_scores _).
  assert (Hmod : total mod 20 = 0).
  { apply sum_scores_mod_20. intros m Hm.
    apply List.in_flat_map in Hm as [q [_ Hm]]. unfold entry_of in Hm.
    destruct (find_answer answers1 (id q)) as [a1 |],
             (find_answer answers2 (id q)) as [a2 |];
      simpl in Hm; try contradiction.
    destruct (calculateQuestionScore (category q) (answer a1) (answer a2))
      as [sc | |] eqn:Hs; simpl in Hm; try contradiction.
    destruct Hm as [<- | []]. cbn [score].
    destruct (calculateQuestionScore_values _ _ _ _ Hs) as [-> | [-> | ->]];
      reflexivity. }
  split; [exact Hmod |].
  pose proof (Z.div_mod total 20 ltac:(lia)) as H20.
  pose proof (Z.div_mod (total + 3) 6 ltac:(lia)) as H6.
  pose proof (Z.mod_pos_bound (total + 3) 6 ltac:(lia)) as Hb.
  lia.
Qed.

Lemma compatibility_never_a_tie_witness :
  exists result,
    computeMatch answersA answersB = Returned result
    /\ sum_scores (breakdown result) mod 20 = 0
    /\ sum_scores (breakdown result) = 6 * compatibility result + 2.
Proof.
  eexists. split; [vm_compute; reflexivity |].
  match goal with
  | |- sum_scores (breakdown ?m) mod 20 = 0 /\ _ =>
      destruct (compatibility_never_a_tie answersA answersB m) as [Hmod Hthird];
        [vm_compute; reflexivity |]
  end.
  split; [exact Hmod |].
  destruct Hthird as [H | [H | H]]; [vm_compute in H; discriminate | exact H
                                    | vm_compute in H; discriminate].
Defined.

(** * The writes of the server, one event at a time *)

Section Writes.
Variable W : Room -> Room -> Prop.
Hypothesis Hroute : route_writes W.
Hypothesis Hlock : lock_write W.
Hypothesis Htool : tool_writes W.

Lemma store_write_same (rooms : gmap string Room) : store_write W rooms rooms.
Proof. now left. Qed.

Lemma store_write_update (rooms : gmap string Room) (rid : string) (room room' : Room) :
  rooms !! rid = Some room -> W room room' ->
  store_write W rooms (<[rid := room']> rooms).
Proof. intros Hroom HWr. right; left. exists rid, room, room'. auto. Qed.

Lemma startQuizTool_write (rooms : gmap string Room) (ctx : MessageContext) :
  store_write W rooms (fst (QuizTools.startQuizTool rooms ctx)).
Proof.
  destruct Htool as [Hcomplete _].
  unfold QuizTools.startQuizTool, getRoom.
  destruct (rooms !! ctx_roomId ctx) as [room |] eqn:Hroom; [| apply store_write_same].
  destruct (getPartner room (ctx_userId ctx)) as [partner |] eqn:Hp;
    [| apply store_write_same].
  destruct (quizComplete partner) eqn:Hc; [apply store_write_same |].
  destruct (getNextQuestion (quizAnswers partner)) eqn:Hnext; [apply store_write_same |].
  simpl. apply (store_write_update rooms _ room); [exact Hroom |].
  now apply (Hcomplete room _ partner).
Qed.

Lemma submitAnswerTool_write (rooms : gmap string Room) (ctx : MessageContext)
    (question_id : Z) (ans : string) :
  store_write W rooms (fst (QuizTools.submitAnswerTool rooms ctx question_id ans)).
Proof.
  destruct Htool as [_ [Hlast [Hanswer _]]].
  unfold QuizTools.submitAnswerTool, getRoom.
  destruct (rooms !! ctx_roomId ctx) as [room |] eqn:Hroom; [| apply store_write_same].
  destruct (getPartner room (ctx_userId ctx)) as [partner |] eqn:Hp;
    [| apply store_write_same].
  destruct (quizComplete partner) eqn:Hc; [apply store_write_same |].
  destruct (submitAnswer (quizAnswers partner) question_id ans)
    as [answers' [| e]] eqn:Hsub; [| apply store_write_same].
  destruct (isComplete answers') eqn:Hcomplete; simpl;
    apply (store_write_update rooms _ room); try exact Hroom.
  - now apply (Hlast room _ partner question_id ans).
  - now apply (Hanswer room _ partner question_id ans).
Qed.

Lemma calculateMatchTool_write (rooms : gmap string Room) (ctx : MessageContext) :
  store_write W rooms (fst (calculateMatchTool rooms ctx)).
Proof.
  destruct Htool as [_ [_ [_ Hmatch]]].
  unfold calculateMatchTool, getRoom.
  destruct (rooms !! ctx_roomId ctx) as [room |] eqn:Hroom; [| apply store_write_same].
  destruct (partner2 room) as [p2 |] eqn:Hp2; [| apply store_write_same].
  destruct (quizComplete (partner1 room)) eqn:H1, (quizComplete p2) eqn:H2; simpl;
    try apply store_write_same.
  destruct (computeMatch _ _) as [m |] eqn:Hm; [| apply store_write_same].
  apply (store_write_update rooms _ room); [exact Hroom |]. now apply (Hmatch room p2).
Qed.

Lemma runTool_write (s : State) (ctx : MessageContext) (call : ToolCall) :
  store_write W (rooms s) (rooms (runTool s ctx call)).
Proof.
  destruct call; simpl.
  - apply startQuizTool_write.
  - apply submitAnswerTool_write.
  - apply calculateMatchTool_write.
  - apply store_write_same.
Qed.

Lemma joinRoom_write (rooms : gmap string Room) (rid uid uname uphone : string) :
  store_write W rooms (fst (joinRoom rooms rid uid uname uphone)).
Proof.
  destruct Hroute as [Hjoin _].
  unfold joinRoom.
  destruct (rooms !! rid) as [room |] eqn:Hroom; [| apply store_write_same].
  destruct (partner2 room) eqn:Hp2; [apply store_write_same |].
  destruct (String.eqb _ _) eqn:Hne; [apply store_write_same |].
  simpl. apply (store_write_update rooms _ room); [exact Hroom |].
  apply Hjoin; [exact Hp2 | now apply String.eqb_neq].
Qed.

Lemma uploadPhoto_write (rooms : gmap string Room) (rid uid data mime : string) :
  store_write W rooms (uploadPhoto rooms rid uid data mime).
Proof.
  destruct Hroute as [_ Hphoto].
  unfold uploadPhoto, getRoom.
  destruct (rooms !! rid) as [room |] eqn:Hroom; [| apply store_write_same].
  destruct (negb _); [apply store_write_same |].
  destruct (getPartner room uid) as [partner |] eqn:Hp; [| apply store_write_same].
  apply (store_write_update rooms _ room); [exact Hroom |].
  now apply (Hphoto room uid partner).
Qed.

Lemma processMessage_write (s : State) (rid uid : string) (ws : nat) (text : string) :
  store_write W (rooms s) (rooms (processMessage s rid uid ws text)).
Proof.
  pose proof Hlock as Hchoose.
  unfold processMessage, getRoom.
  destruct (rooms s !! rid) as [room |] eqn:Hroom; [| apply store_write_same].
  destruct (obj_get text ACTION_MAP) as [actionType |]; [| apply store_write_same].
  destruct (chosenAction room) eqn:Hchosen; [apply store_write_same |].
  match goal with
  | |- context [negb ?b] => destruct b
  end; simpl.
  - apply connectAndInjectTools_rooms; simpl;
      (apply (store_write_update _ _ room); [exact Hroom | now apply Hchoose]).
  - apply (store_write_update _ _ room); [exact Hroom | now apply Hchoose].
Qed.

Lemma afterConnect_write (s : State) (rid : string) (k : AfterConnect) :
  store_write W (rooms s) (rooms (afterConnect s rid k)).
Proof.
  destruct k; simpl; [apply store_write_same | apply processMessage_write].
Qed.

Lemma notifyAuthCompleteForRoom_write (s : State) (rid : string) :
  store_write W (rooms s) (rooms (notifyAuthCompleteForRoom s rid)).
Proof.
  unfold notifyAuthCompleteForRoom. simpl.
  destruct (pendingActions s !! rid) as [pending |]; [| apply store_write_same].
  unfold getRoom. simpl.
  destruct (rooms s !! rid) as [room |]; [| apply store_write_same].
  destruct (chosenAction room); [| apply store_write_same].
  apply connectAndInjectTools_rooms; simpl; [apply store_write_same |].
  apply (processMessage_write
           (set_pendingActions (broadcastToRoom s rid swiggy_auth_complete)
              (delete rid (pendingActions s)))).
Qed.

Lemma resume_write (s s' : State) (task : nat) (t : Task) (r : Resumption) :
  resume s task t r = Some s' ->
  store_write W (rooms s) (rooms s').
Proof.
  destruct t, r; simpl; try discriminate;
    try (destruct (calculateMatchTool _ _) as [rooms' m] eqn:Hm);
    resume_cases;
    intros [= <-]; simpl;
    try apply store_write_same;
    repeat match goal with
      | |- store_write W _ (rooms (afterConnect ?s' ?rid ?k)) =>
          exact (afterConnect_write s' rid k)
      | |- store_write W _ (rooms (runTool ?s' ?c ?call)) =>
          exact (runTool_write s' c call)
      | |- store_write W _ (rooms (afterRunner _ _ _ _ _)) =>
          rewrite afterRunner_rooms; apply store_write_same
      | |- store_write W _ (rooms (reveal _ _ _ _)) =>
          rewrite reveal_rooms; apply store_write_same
      | Hm : calculateMatchTool ?rs ?c = (?r', _) |- store_write W _ ?r' =>
          replace r' with (fst (calculateMatchTool rs c)) by (now rewrite Hm);
          apply calculateMatchTool_write
      | |- context [if ?b then _ else _] => destruct b; try apply store_write_same
      end.
Qed.

(** Every event leaves the room store as it was, or changes one room by
    one of the seven writes, or creates one room under a new key. *)
Lemma handle_write (s : State) (e : Event) :
  store_write W (rooms s) (rooms (handle s e)).
Proof.
  destruct e as [uuid now uid uname uphone | rid uid uname uphone
                 | rid uid data mime | rid uid ws
                 | rid uid ws text | rid uid ws | rid tokens | task r]; simpl.
  - destruct (rooms s !! uuid) eqn:Hfresh; [apply store_write_same |].
    right; right. exists uuid, now, uid, uname, uphone. auto.
  - apply joinRoom_write.
  - apply uploadPhoto_write.
  - destruct (connected _ _ _ _); [apply store_write_same |].
    unfold onConnection. destruct (getRoom _ _) as [room |]; [| apply store_write_same].
    destruct (negb _); [apply store_write_same |]. simpl.
    destruct (getPartner _ _), (partner2 room); apply store_write_same.
  - destruct (_ && _); [apply processMessage_write | apply store_write_same].
  - destruct (connected _ _ _ _); [| apply store_write_same].
    unfold onClose. destruct (roomConnections s !! rid); [| apply store_write_same].
    destruct (spliceConnection _ _ _); apply store_write_same.
  - destruct (bool_decide _); [| apply store_write_same].
    match goal with
    | |- store_write W _ (rooms (notifyAuthCompleteForRoom ?s' ?rid)) =>
        exact (notifyAuthCompleteForRoom_write s' rid)
    end.
  - destruct (take_task task (tasks s)) as [[t others] |]; [| apply store_write_same].
    destruct (resume _ _ _ _) as [s' |] eqn:Hres; [| apply store_write_same].
    apply resume_write in Hres. exact Hres.
Qed.

(** A property of rooms that every write preserves holds between a room
    and what it has become after any schedule. *)
Lemma run_write :
  (forall room, W room room) ->
  (forall r1 r2 r3, W r1 r2 -> W r2 r3 -> W r1 r3) ->
  forall events s rid room,
    rooms s !! rid = Some room ->
    exists room', rooms (run events s) !! rid = Some room' /\ W room room'.
Proof.
  intros Hrefl Htrans.
  induction events as [| e events IH]; intros s rid room Hroom.
  - exists room. auto.
  - rewrite run_cons.
    assert (Hstep : exists room1, rooms (handle s e) !! rid = Some room1 /\ W room room1).
    { destruct (handle_write s e)
        as [-> | [[rid0 [room0 [room0' [Hroom0 [HW0 ->]]]]]
                  | [uuid [now [uid [uname [uphone [Hfresh ->]]]]]]]].
      - exists room. auto.
      - destruct (decide (rid0 = rid)) as [-> | Hne].
        + exists room0'. rewrite lookup_insert_eq. split; [reflexivity |].
          congruence.
        + exists room. rewrite lookup_insert_ne by exact Hne. auto.
      - exists room. rewrite lookup_insert_ne by congruence. auto. }
    destruct Hstep as [room1 [Hroom1 HW1]].
    destruct (IH (handle s e) rid room1 Hroom1) as [room' [Hroom' HW']].
    exists room'. split; [exact Hroom' | eapply Htrans; eassumption].
Qed.
End Writes.

(** A property of rooms that holds of a new room and that every write
    preserves holds of every room of every state the server reaches. *)
Lemma run_room_invariant (I : string -> Room -> Prop) :
  writes_allowed (fun room room' => forall rid, I rid room -> I rid room') ->
  (forall uuid now uid uname uphone, I uuid (created_room uuid now uid uname uphone)) ->
  forall events rid room,
    rooms (run events initial) !! rid = Some room -> I rid room.
Proof.
  intros [Hroute [Hlock Htool]] Hnew events.
  assert (Hgen : forall s,
             (forall rid room, rooms s !! rid = Some room -> I rid room) ->
             forall rid room, rooms (run events s) !! rid = Some room -> I rid room).
  { induction events as [| e events IH]; intros s Hs; [exact Hs |].
    rewrite run_cons. apply IH. intros rid room.
    destruct (handle_write _ Hroute Hlock Htool s e)
      as [-> | [[rid0 [room0 [room0' [Hroom0 [HW0 ->]]]]]
                | [uuid [now [uid [uname [uphone [Hfresh ->]]]]]]]].
    - apply Hs.
    - destruct (decide (rid0 = rid)) as [-> | Hne].
      + rewrite lookup_insert_eq. intros [= <-]. apply HW0. now apply Hs.
      + rewrite lookup_insert_ne by exact Hne. apply Hs.
    - destruct (decide (uuid = rid)) as [-> | Hne].
      + rewrite lookup_insert_eq. intros [= <-]. apply Hnew.
      + rewrite lookup_insert_ne by exact Hne. apply Hs. }
  apply Hgen. intros rid room. simpl. rewrite lookup_empty. discriminate.
Qed.

(** * Rooms over time *)

Lemma partner_grows_refl (p : Partner) : partner_grows p p.
Proof.
  unfold partner_grows. conjs; auto.
  exists []. now rewrite List.app_nil_r.
Qed.

Lemma partner_grows_trans (p1 p2 p3 : Partner) :
  partner_grows p1 p2 -> partner_grows p2 p3 -> partner_grows p1 p3.
Proof.
  intros [Hu [Hn [Hp [[more Ha] Hc]]]] [Hu' [Hn' [Hp' [[more' Ha'] Hc']]]].
  unfold partner_grows.
  refine (conj _ (conj _ (conj _ (conj _ _)))); try congruence.
  - exists (more ++ more'). rewrite Ha', Ha. now rewrite List.app_assoc.
  - intros H. destruct (Hc H) as [H2 E]. destruct (Hc' H2) as [H3 E'].
    split; congruence.
Qed.

Lemma room_grows_refl (room : Room) : room_grows room room.
Proof.
  unfold room_grows. conjs; auto using partner_grows_refl.
  intros p2 H. exists p2. auto using partner_grows_refl.
Qed.

Lemma room_grows_trans (r1 r2 r3 : Room) :
  room_grows r1 r2 -> room_grows r2 r3 -> room_grows r1 r3.
Proof.
  intros [Hi [Hs [Hc [Hp1 [Hp2 Hm]]]]] [Hi' [Hs' [Hc' [Hp1' [Hp2' Hm']]]]].
  unfold room_grows. conjs; try congruence.
  - eapply partner_grows_trans; eassumption.
  - intros p2 H. destruct (Hp2 p2 H) as [q [Hq Hg]].
    destruct (Hp2' q Hq) as [q' [Hq' Hg']].
    exists q'. split; [exact Hq' | eapply partner_grows_trans; eassumption].
  - auto.
Qed.

Lemma history_refl (room : Room) : history room room.
Proof. intros H. split; [exact H | apply room_grows_refl]. Qed.

Lemma history_trans (r1 r2 r3 : Room) :
  history r1 r2 -> history r2 r3 -> history r1 r3.
Proof.
  intros H12 H23 H1. destruct (H12 H1) as [H2 G12]. destruct (H23 H2) as [H3 G23].
  split; [exact H3 | eapply room_grows_trans; eassumption].
Qed.

(** A write to one partner that lets that partner grow lets the room grow. *)
Lemma updatePartner_grows (room : Room) (uid : string) (partner : Partner)
    (f : Partner -> Partner) :
  getPartner room uid = Some partner ->
  partner_grows partner (f partner) ->
  room_grows room (updatePartner room uid f).
Proof.
  intros Hget Hg.
  destruct (getPartner_slot room uid partner f Hget) as [[-> ->] | [Hp2 ->]];
    unfold room_grows; simpl; conjs; auto using partner_grows_refl.
  - intros p2 H. exists p2. auto using partner_grows_refl.
  - intros p2 H. exists (f partner). split; [reflexivity |]. congruence.
Qed.

(** While a partner's quiz is open the room has no stored result. *)
Lemma open_quiz_no_result (room : Room) (uid : string) (partner : Partner) :
  getPartner room uid = Some partner -> quizComplete partner = false ->
  match_stored_ok room -> matchResult room = None.
Proof.
  intros Hget Hopen Hok.
  destruct (matchResult room) as [m |] eqn:Hm; [| reflexivity].
  destruct (Hok m Hm) as [p2 [Hp2 [H1 [H2 _]]]].
  destruct (getPartner_slot room uid partner (fun p => p) Hget) as [[-> _] | [Hp _]];
    congruence.
Qed.

Lemma updatePartner_matchResult (room : Room) (uid : string) (f : Partner -> Partner) :
  matchResult (updatePartner room uid f) = matchResult room.
Proof.
  unfold updatePartner.
  destruct (String.eqb _ _); [reflexivity |].
  destruct (partner2 room) as [p2 |]; [| reflexivity].
  now destruct (String.eqb _ _).
Qed.

Lemma no_result_stored_ok (room : Room) :
  matchResult room = None -> match_stored_ok room.
Proof. intros H m. rewrite H. discriminate. Qed.

(** A write to an open quiz. *)
Lemma open_quiz_history (room : Room) (uid : string) (partner : Partner)
    (f : Partner -> Partner) :
  getPartner room uid = Some partner -> quizComplete partner = false ->
  partner_grows partner (f partner) ->
  history room (updatePartner room uid f).
Proof.
  intros Hget Hopen Hg Hok. split.
  - apply no_result_stored_ok. rewrite updatePartner_matchResult.
    now apply (open_quiz_no_result room uid partner).
  - now apply (updatePartner_grows room uid partner).
Qed.

Lemma history_allowed : writes_allowed history.
Proof.
  unfold writes_allowed, route_writes, lock_write, tool_writes.
  split; [split | split; [| conjs]].
  - (* join *)
    intros room uid uname uphone Hp2 Hne Hok.
    assert (Hnone : matchResult room = None).
    { destruct (matchResult room) as [m |] eqn:Hm; [| reflexivity].
      destruct (Hok m Hm) as [p2 [Hp _]]. congruence. }
    split; [now apply no_result_stored_ok |].
    unfold room_grows; simpl. conjs; auto using partner_grows_refl.
    intros p2 H. congruence.
  - (* photo *)
    intros room uid partner data mime Hget Hok. split.
    + intros m. rewrite updatePartner_matchResult. intros Hm.
      destruct (Hok m Hm) as [p2 [Hp2 [H1 [H2 Hcalc]]]].
      unfold updatePartner.
      destruct (String.eqb _ _); simpl.
      * exists p2. auto.
      * rewrite Hp2. destruct (String.eqb _ _); simpl.
        -- exists (set_photo p2 data mime). auto.
        -- exists p2. auto.
    + apply (updatePartner_grows room uid partner); [exact Hget |].
      unfold partner_grows; simpl. conjs; auto.
      exists []. now rewrite List.app_nil_r.
  - (* lock *)
    intros room a uid Hnone Hok. split; [exact Hok |].
    unfold room_grows; simpl. conjs; auto using partner_grows_refl.
    intros p2 H. exists p2. auto using partner_grows_refl.
  - (* start_quiz marks complete *)
    intros room uid partner Hget Hopen Hnext.
    apply (open_quiz_history room uid partner); auto.
    unfold partner_grows; simpl. conjs; auto; try congruence.
    exists []. now rewrite List.app_nil_r.
  - (* last answer *)
    intros room uid partner qid ans answers' Hget Hopen Hsub Hc.
    apply (open_quiz_history room uid partner); auto.
    apply submitAnswer_Success in Hsub as [_ [_ ->]].
    unfold partner_grows; simpl. conjs; auto; try congruence.
    eexists; reflexivity.
  - (* answer *)
    intros room uid partner qid ans answers' Hget Hopen Hsub Hc.
    apply (open_quiz_history room uid partner); auto.
    apply submitAnswer_Success in Hsub as [_ [_ ->]].
    unfold partner_grows; simpl. conjs; auto; try congruence.
    eexists; reflexivity.
  - (* calculate_match *)
    intros room p2 m Hp2 H1 H2 Hcalc Hok. split.
    + intros m'. simpl. intros [= <-]. exists p2. auto.
    + unfold room_grows; simpl. conjs; auto using partner_grows_refl.
      * intros q H. exists q. auto using partner_grows_refl.
      * intros m' Hm. destruct (Hok m' Hm) as [q [Hq [_ [_ Hcalc']]]]. congruence.
Qed.

Lemma match_stored_allowed :
  writes_allowed (fun room room' => forall rid : string,
                      match_stored_ok room -> match_stored_ok room').
Proof.
  destruct history_allowed as [[Hj Hp] [Hl [Hs [Ha [Hb Hm]]]]].
  unfold writes_allowed, route_writes, lock_write, tool_writes.
  split; [split | split; [| conjs]]; intros.
  - now apply (Hj room uid uname uphone).
  - now apply (Hp room uid partner data mime).
  - now apply (Hl room a uid).
  - now apply (Hs room uid partner).
  - now apply (Ha room uid partner qid ans answers').
  - now apply (Hb room uid partner qid ans answers').
  - now apply (Hm room p2 m).
Qed.

Lemma reachable_match_stored_ok (events : list Event) (rid : string) (room : Room) :
  rooms (run events initial) !! rid = Some room -> match_stored_ok room.
Proof.
  apply (run_room_invariant (fun _ => match_stored_ok) match_stored_allowed).
  intros uuid now uid uname uphone. now apply no_result_stored_ok.
Qed.

Lemma updatePartner_identity (room : Room) (uid rid : string) (f : Partner -> Partner) :
  (forall p, userId (f p) = userId p) ->
  room_identity rid room -> room_identity rid (updatePartner room uid f).
Proof.
  intros Hf [Hi [Hs Hd]]. unfold updatePartner.
  destruct (String.eqb _ _); [| destruct (partner2 room) as [p2 |] eqn:Hp2;
                                 [destruct (String.eqb _ _) |]];
    unfold room_identity; simpl; conjs; auto.
  - intros p2 H. rewrite Hf. auto.
  - intros q [= <-]. rewrite Hf. auto.
  - intros q Hq. apply Hd. congruence.
  - intros q Hq. congruence.
Qed.

Lemma identity_allowed :
  writes_allowed (fun room room' => forall rid : string,
                      room_identity rid room -> room_identity rid room').
Proof.
  unfold writes_allowed, route_writes, lock_write, tool_writes.
  split; [split | split; [| conjs]]; intros;
    try (apply updatePartner_identity; [reflexivity | assumption]).
  - destruct H1 as [Hi [Hs Hd]]. unfold room_identity; simpl. conjs; auto.
    intros p2 [= <-]. simpl. congruence.
  - destruct H0 as [Hi [Hs Hd]]. unfold room_identity; simpl. conjs; auto.
  - match goal with
    | H : room_identity _ _ |- _ => destruct H as [Hi [Hs Hd]]
    end.
    unfold room_identity; simpl. conjs; auto.
Qed.

(** X14.  Every room the server ever holds is stored under its own id, has
    the session id made from that id, and has two different users as its
    partners. *)
Theorem room_keeps_its_identity (events : list Event) (rid : string) (room : Room) :
  rooms (run events initial) !! rid = Some room ->
  roomId room = rid
  /\ sessionId room = "session_" +:+ rid
  /\ (forall p2, partner2 room = Some p2 -> userId p2 <> userId (partner1 room)).
Proof.
  apply (run_room_invariant room_identity identity_allowed).
  intros uuid now uid uname uphone. unfold room_identity; simpl.
  conjs; auto; discriminate.
Qed.

Lemma room_keeps_its_identity_witness :
  exists room,
    rooms (run five_answered initial) !! "r" = Some room
    /\ roomId room = "r"
    /\ sessionId room = "session_r"
    /\ (forall p2, partner2 room = Some p2 -> userId p2 <> userId (partner1 room)).
Proof.
  eexists. split; [vm_compute; reflexivity |].
  apply (room_keeps_its_identity five_answered "r"). vm_compute; reflexivity.
Defined.

(** X15.  Whenever a room holds a match result, both partners have completed
    the quiz and the result is the score of the answers they have now. *)
Theorem stored_match_is_current (events : list Event) (rid : string) (room : Room)
    (m : MatchResult) :
  rooms (run events initial) !! rid = Some room ->
  matchResult room = Some m ->
  exists p2, partner2 room = Some p2
             /\ quizComplete (partner1 room) = true
             /\ quizComplete p2 = true
             /\ computeMatch (quizAnswers (partner1 room)) (quizAnswers p2)
                = Returned m.
Proof.
  intros Hroom. now apply (reachable_match_stored_ok events rid room).
Qed.

Lemma stored_match_is_current_witness :
  exists room m,
    rooms (run (five_answered ++ last_answer_p1 ++ last_answer_p2 ++ finish_reveal)
               initial) !! "r" = Some room
    /\ matchResult room = Some m
    /\ exists p2, partner2 room = Some p2
                  /\ quizComplete (partner1 room) = true
                  /\ quizComplete p2 = true
                  /\ computeMatch (quizAnswers (partner1 room)) (quizAnswers p2)
                     = Returned m.
Proof.
  eexists. eexists. split; [vm_compute; reflexivity |].
  split; [vm_compute; reflexivity |].
  apply (stored_match_is_current
           (five_answered ++ last_answer_p1 ++ last_answer_p2 ++ finish_reveal) "r");
    vm_compute; reflexivity.
Defined.

(** X16.  Whatever happens next, a room stays and keeps what it has: its id,
    session id and creation time; its partners, each with the same user id,
    name and phone; every answer given, in the order given, with new
    answers only appended; the answers of a partner whose quiz is complete,
    unchanged; and its match result, once stored. *)
Theorem room_only_grows (past events : list Event) (rid : string) (room : Room) :
  rooms (run past initial) !! rid = Some room ->
  exists room',
    rooms (run events (run past initial)) !! rid = Some room'
    /\ room_grows room room'.
Proof.
  intros Hroom.
  destruct history_allowed as [Hroute [Hlock Htool]].
  destruct (run_write history Hroute Hlock Htool history_refl history_trans
              events (run past initial) rid room Hroom) as [room' [Hroom' Hh]].
  exists room'. split; [exact Hroom' |].
  apply Hh. now apply (reachable_match_stored_ok past rid room).
Qed.

Lemma room_only_grows_witness :
  exists room room',
    rooms (run five_answered initial) !! "r" = Some room
    /\ rooms (run (last_answer_p1 ++ last_answer_p2 ++ finish_reveal)
                  (run five_answered initial)) !! "r" = Some room'
    /\ room_grows room room'.
Proof.
  destruct (room_only_grows five_answered
              (last_answer_p1 ++ last_answer_p2 ++ finish_reveal) "r"
              (default (created_room "r" 0 "p1" "Asha" "111")
                       (rooms (run five_answered initial) !! "r")))
    as [room' [Hroom' Hg]]; [vm_compute; reflexivity |].
  eexists. exists room'. split; [vm_compute; reflexivity |]. split; assumption.
Defined.

(** * Where the score does not depend on the order of the partners *)

Ltac eqb_cases :=
  repeat (cbn -[String.eqb];
          match goal with
          | |- context [String.eqb ?x ?y] =>
              destruct (String.eqb_spec x y); subst
          end);
  cbn; try reflexivity; try congruence.

(** The score under a category that has a table of its own. *)
Lemma calculateQuestionScore_own (category answer1 answer2 : string)
    (table : list (string * list string)) :
  own_get category COMPATIBILITY_MAPS = Some table ->
  calculateQuestionScore category answer1 answer2
  = if String.eqb answer1 answer2 then Score 100
    else if inherited answer1 then TypeError
    else if includes (compatible_with category answer1) answer2 then Score 60
    else Score 20.
Proof.
  intros Htable. unfold calculateQuestionScore. rewrite compatibles_of_eq, Htable.
  destruct (String.eqb answer1 answer2); [reflexivity |].
  now destruct (inherited answer1).
Qed.

Lemma spice_symmetric (a1 a2 : string) :
  includes (compatible_with "spice" a1) a2 = includes (compatible_with "spice" a2) a1.
Proof. unfold compatible_with, includes. cbn -[String.eqb]. eqb_cases. Qed.

Lemma diet_symmetric (a1 a2 : string) :
  includes (compatible_with "diet" a1) a2 = includes (compatible_with "diet" a2) a1.
Proof. unfold compatible_with, includes. cbn -[String.eqb]. eqb_cases. Qed.

Lemma budget_symmetric (a1 a2 : string) :
  includes (compatible_with "budget" a1) a2 = includes (compatible_with "budget" a2) a1.
Proof. unfold compatible_with, includes. cbn -[String.eqb]. eqb_cases. Qed.

(** Under a category whose table is symmetric the two orders give the same
    outcome exactly when the answers are equal or both or neither name an
    inherited member. *)
Lemma symmetric_table (category : string) (table : list (string * list string))
    (a1 a2 : string) :
  own_get category COMPATIBILITY_MAPS = Some table ->
  includes (compatible_with category a1) a2 = includes (compatible_with category a2) a1 ->
  (calculateQuestionScore category a1 a2 = calculateQuestionScore category a2 a1
   <-> a1 = a2 \/ inherited a1 = inherited a2)
  /\ (inherited a1 = false -> inherited a2 = false ->
      exists score,
        calculateQuestionScore category a1 a2 = Score score
        /\ calculateQuestionScore category a2 a1 = Score score).
Proof.
  intros Htable Hsym.
  rewrite (calculateQuestionScore_own category a1 a2 table Htable),
          (calculateQuestionScore_own category a2 a1 table Htable), Hsym.
  rewrite (String.eqb_sym a2 a1).
  destruct (String.eqb_spec a1 a2) as [-> | Hne].
  - split; [tauto |]. intros _ _. exists 100. auto.
  - clear Hsym.
    destruct (inherited a1), (inherited a2),
             (includes (compatible_with category a2) a1);
      (split;
       [ split;
         [ intros H; try discriminate H; right; reflexivity
         | intros [H | H]; [contradiction | try discriminate H; reflexivity] ]
       | intros H1 H2; try discriminate; eexists; split; reflexivity ]).
Qed.

(** X17.  For the categories "spice", "diet" and "budget" the outcome of
    scoring a question is the same whichever partner's answer comes first
    exactly when the two answers are equal or both or neither of them name
    a member of [Object.prototype] (with one such name among two different
    answers one order throws and the other scores 20); for answers that
    name no such member both orders return the same score. *)
Theorem spice_diet_budget_symmetric (category a1 a2 : string) :
  category = "spice" \/ category = "diet" \/ category = "budget" ->
  (calculateQuestionScore category a1 a2 = calculateQuestionScore category a2 a1
   <-> a1 = a2 \/ inherited a1 = inherited a2)
  /\ (inherited a1 = false -> inherited a2 = false ->
      exists score,
        calculateQuestionScore category a1 a2 = Score score
        /\ calculateQuestionScore category a2 a1 = Score score).
Proof.
  intros [-> | [-> | ->]].
  - eapply symmetric_table; [reflexivity | apply spice_symmetric].
  - eapply symmetric_table; [reflexivity | apply diet_symmetric].
  - eapply symmetric_table; [reflexivity | apply budget_symmetric].
Qed.

Lemma spice_diet_budget_symmetric_witness :
  calculateQuestionScore "diet" "Vegan" "Veg" = Score 60
  /\ calculateQuestionScore "diet" "Vegan" "Veg"
     = calculateQuestionScore "diet" "Veg" "Vegan"
  /\ calculateQuestionScore "spice" "constructor" "Mild"
     <> calculateQuestionScore "spice" "Mild" "constructor".
Proof.
  split; [reflexivity |]. split.
  - apply (spice_diet_budget_symmetric "diet" "Vegan" "Veg");
      [right; left; reflexivity | right; reflexivity].
  - intros Heq.
    apply (spice_diet_budget_symmetric "spice" "constructor" "Mild") in Heq;
      [| left; reflexivity].
    destruct Heq as [Heq | Heq]; discriminate Heq.
Defined.

Lemma sum_scores_flat_map_ext (f g : QuizQuestion -> list QuestionMatch)
    (qs : list QuizQuestion) :
  (forall q, In q qs -> sum_scores (f q) = sum_scores (g q)) ->
  sum_scores (flat_map f qs) = sum_scores (flat_map g qs).
Proof.
  induction qs as [| q qs IH]; intros H; simpl; [reflexivity |].
  rewrite !sum_scores_app, (H q), IH; [reflexivity | | now left].
  intros q' Hq'. apply H. now right.
Qed.

(** X18.  When the two partners give the same answer to the "cuisine", "mood"
    and "dish_type" questions and none of their answers to the "spice",
    "diet" and "budget" questions names a member of [Object.prototype],
    the calculation returns whichever of them is scored as partner 1, with
    the same compatibility percentage. *)
Theorem compatibility_symmetric_when_rest_agree (answers1 answers2 : list QuizAnswer) :
  (forall q a1 a2,
      In q QUIZ_QUESTIONS ->
      category q = "cuisine" \/ category q = "mood" \/ category q = "dish_type" ->
      find_answer answers1 (id q) = Some a1 ->
      find_answer answers2 (id q) = Some a2 ->
      answer a1 = answer a2) ->
  (forall q a1 a2,
      In q QUIZ_QUESTIONS ->
      category q = "spice" \/ category q = "diet" \/ category q = "budget" ->
      find_answer answers1 (id q) = Some a1 ->
      find_answer answers2 (id q) = Some a2 ->
      inherited (answer a1) = false /\ inherited (answer a2) = false) ->
  exists result1 result2,
    computeMatch answers1 answers2 = Returned result1
    /\ computeMatch answers2 answers1 = Returned result2
    /\ compatibility result1 = compatibility result2.
Proof.
  intros Hagree Hplain.
  assert (Hpair : forall q a1 a2,
            In q QUIZ_QUESTIONS ->
            find_answer answers1 (id q) = Some a1 ->
            find_answer answers2 (id q) = Some a2 ->
            exists score,
              calculateQuestionScore (category q) (answer a1) (answer a2) = Score score
              /\ calculateQuestionScore (category q) (answer a2) (answer a1)
                 = Score score).
  { intros q a1 a2 Hq H1 H2.
    assert (Hsame : category q = "cuisine" \/ category q = "mood"
                    \/ category q = "dish_type" ->
                    exists score,
                      calculateQuestionScore (category q) (answer a1) (answer a2)
                      = Score score
                      /\ calculateQuestionScore (category q) (answer a2) (answer a1)
                         = Score score).
    { intros Hc. rewrite (Hagree q a1 a2 Hq Hc H1 H2). exists 100.
      now destruct (calculateQuestionScore_rule q (answer a2) (answer a2) Hq)
        as [-> _]. }
    assert (Hsym : category q = "spice" \/ category q = "diet"
                   \/ category q = "budget" ->
                   exists score,
                     calculateQuestionScore (category q) (answer a1) (answer a2)
                     = Score score
                     /\ calculateQuestionScore (category q) (answer a2) (answer a1)
                        = Score score).
    { intros Hc. destruct (Hplain q a1 a2 Hq Hc H1 H2) as [Hi1 Hi2].
      assert (Hown : exists table,
                 own_get (category q) COMPATIBILITY_MAPS = Some table)
        by now apply fixed_category_listed.
      destruct Hown as [table Htable].
      refine (proj2 (symmetric_table (category q) table _ _ Htable _) Hi1 Hi2).
      destruct Hc as [-> | [-> | ->]];
        [apply spice_symmetric | apply diet_symmetric | apply budget_symmetric]. }
    simpl in Hq.
    destruct Hq as [<- | [<- | [<- | [<- | [<- | [<- | []]]]]]];
      (apply Hsame; simpl; tauto) || (apply Hsym; simpl; tauto). }
  assert (Hno : forall l1 l2,
            (forall q a1 a2, In q QUIZ_QUESTIONS ->
               find_answer l1 (id q) = Some a1 -> find_answer l2 (id q) = Some a2 ->
               exists score,
                 calculateQuestionScore (category q) (answer a1) (answer a2)
                 = Score score) ->
            computeMatch l1 l2 = Returned (match_of l1 l2)).
  { intros l1 l2 H. rewrite computeMatch_eq.
    destruct (existsb _ _) eqn:Hex; [| reflexivity].
    apply List.existsb_exists in Hex as [q [Hq Ht]]. unfold throws_at in Ht.
    destruct (find_answer l1 (id q)) as [a1 |] eqn:H1; [| discriminate].
    destruct (find_answer l2 (id q)) as [a2 |] eqn:H2; [| discriminate].
    destruct (H q a1 a2 Hq H1 H2) as [sc Hs]. rewrite Hs in Ht. discriminate. }
  exists (match_of answers1 answers2), (match_of answers2 answers1).
  split.
  { apply Hno. intros q a1 a2 Hq H1 H2.
    destruct (Hpair q a1 a2 Hq H1 H2) as [sc [Hs _]]. eauto. }
  split.
  { apply Hno. intros q a2 a1 Hq H2 H1.
    destruct (Hpair q a1 a2 Hq H1 H2) as [sc [_ Hs]]. eauto. }
  cbn [match_of compatibility]. f_equal.
  apply sum_scores_flat_map_ext. intros q Hq.
  unfold entry_of.
  destruct (find_answer answers1 (id q)) as [a1 |] eqn:H1,
           (find_answer answers2 (id q)) as [a2 |] eqn:H2; try reflexivity.
  destruct (Hpair q a1 a2 Hq H1 H2) as [sc [-> ->]]. reflexivity.
Qed.

Lemma compatibility_symmetric_when_rest_agree_witness :
  exists result1 result2,
    computeMatch answersA
      [ mkQuizAnswer 1 "Italian"; mkQuizAnswer 2 "Spicy";
        mkQuizAnswer 3 "Vegan"; mkQuizAnswer 4 "₹200-400";
        mkQuizAnswer 5 "Home-cooked"; mkQuizAnswer 6 "Pizza/Pasta" ]
    = Returned result1
    /\ computeMatch
         [ mkQuizAnswer 1 "Italian"; mkQuizAnswer 2 "Spicy";
           mkQuizAnswer 3 "Vegan"; mkQuizAnswer 4 "₹200-400";
           mkQuizAnswer 5 "Home-cooked"; mkQuizAnswer 6 "Pizza/Pasta" ]
         answersA
       = Returned result2
    /\ compatibility result1 = compatibility result2.
Proof.
  apply (compatibility_symmetric_when_rest_agree answersA).
  - intros q a1 a2 Hq Hc H1 H2. simpl in Hq.
    destruct Hq as [<- | [<- | [<- | [<- | [<- | [<- | []]]]]]];
      simpl in Hc; try (destruct Hc as [Hc | [Hc | Hc]]; discriminate Hc);
      vm_compute in H1, H2; injection H1 as <-; injection H2 as <-; reflexivity.
  - intros q a1 a2 Hq Hc H1 H2. simpl in Hq.
    destruct Hq as [<- | [<- | [<- | [<- | [<- | [<- | []]]]]]];
      simpl in Hc; try (destruct Hc as [Hc | [Hc | Hc]]; discriminate Hc);
      vm_compute in H1, H2; injection H1 as <-; injection H2 as <-;
      split; reflexivity.
Defined.

(** * From a proposal to the remote tools *)

Lemma is_Some_chosen (rooms : gmap string Room) (rid : string) :
  is_Some (chosen_of rooms rid) <->
  exists room a, rooms !! rid = Some room /\ chosenAction room = Some a.
Proof.
  unfold chosen_of. split.
  - intros [a Ha]. destruct (rooms !! rid) as [room |]; [| discriminate].
    exists room, a. auto.
  - intros [room [a [-> Ha]]]. exists a. exact Ha.
Qed.

Lemma rooms_agree_advance (rooms rooms' : gmap string Room) :
  rooms_agree rooms rooms' -> rooms_advance rooms rooms'.
Proof.
  intros [Hc He]. split; [| exact He]. intros rid a. now rewrite Hc.
Qed.

Lemma advance_is_Some (rooms rooms' : gmap string Room) (rid : string) :
  rooms_advance rooms rooms' ->
  is_Some (chosen_of rooms rid) -> is_Some (chosen_of rooms' rid).
Proof. intros [Hc _] [a Ha]. exists a. now apply Hc. Qed.

Lemma task_ok_advance (rooms rooms' : gmap string Room) (t : Task) :
  rooms_advance rooms rooms' -> task_ok rooms t -> task_ok rooms' t.
Proof.
  intros Hadv. pose proof (advance_is_Some rooms rooms') as Hs.
  destruct Hadv as [Hc He]. destruct t; simpl; auto.
  - intros [H1 H2]. split; [| exact H2]. apply Hs; [now split | exact H1].
  - intros [H1 H2]. auto.
  - intros [H1 H2]. auto.
  - intros H Hp. apply Hs; [now split | auto].
Qed.

Lemma gates_ok_advance (s : State) (rooms' : gmap string Room) :
  rooms_advance (rooms s) rooms' -> gates_ok s -> gates_ok (set_rooms s rooms').
Proof.
  intros Hadv [Hp [Hv [Ht [Hk Hm]]]].
  pose proof (advance_is_Some (rooms s) rooms') as Hs.
  unfold gates_ok; simpl. conjs.
  - intros rid pending H. destruct (Hp rid pending H). auto.
  - intros rid H. auto.
  - intros rid H. auto.
  - intros task t H. apply (task_ok_advance (rooms s)); [exact Hadv | eauto].
  - intros rid m H. eauto.
Qed.

Lemma flow_ok_rooms (s : State) (rooms' : gmap string Room) :
  rooms_agree (rooms s) rooms' -> flow_ok s -> flow_ok (set_rooms s rooms').
Proof.
  intros Hagree [Hg Ha]. split.
  - apply gates_ok_advance; [now apply rooms_agree_advance | exact Hg].
  - intros rid. unfold announcements; simpl. destruct Hagree as [Hc _].
    rewrite Hc. apply Ha.
Qed.

Lemma announcements_push (s : State) (to : Target) (m : WSServerMessage) (rid : string) :
  announcements rid (push s to m) = announcements rid s ++ announced rid (to, m).
Proof.
  unfold announcements, push. simpl.
  rewrite List.flat_map_app. simpl. now rewrite List.app_nil_r.
Qed.

Lemma quiet_not_announced (rooms : gmap string Room) (to : Target)
    (m : WSServerMessage) (rid : string) :
  quiet_message rooms to m -> announced rid (to, m) = [].
Proof. destruct m, to; simpl; try reflexivity; contradiction. Qed.

Lemma flow_ok_push (s : State) (to : Target) (m : WSServerMessage) :
  quiet_message (rooms s) to m -> flow_ok s -> flow_ok (push s to m).
Proof.
  intros Hq [[Hp [Hv [Ht [Hk Hm]]]] Ha]. split.
  - unfold gates_ok; simpl. conjs; auto.
    intros rid mt Hin. apply List.in_app_or in Hin as [Hin | [Heq | []]]; [eauto |].
    injection Heq as -> ->. exact Hq.
  - intros rid. rewrite announcements_push, (quiet_not_announced _ _ _ _ Hq).
    rewrite List.app_nil_r. apply Ha.
Qed.

Lemma flow_ok_set_tasks (s : State) (ts : list (nat * Task)) :
  (forall task t, In (task, t) ts -> task_ok (rooms s) t) ->
  flow_ok s -> flow_ok (set_tasks s ts).
Proof.
  intros Hts [[Hp [Hv [Ht [Hk Hm]]]] Ha]. split; [| exact Ha].
  unfold gates_ok; simpl. conjs; auto.
Qed.

Lemma flow_ok_suspend (s : State) (t : Task) :
  task_ok (rooms s) t -> flow_ok s -> flow_ok (suspend s t).
Proof.
  intros Hok [[Hp [Hv [Ht [Hk Hm]]]] Ha]. split; [| exact Ha].
  unfold gates_ok; simpl. conjs; auto.
  intros task t' Hin. apply List.in_app_or in Hin as [Hin | [Heq | []]]; [eauto |].
  injection Heq as _ <-. exact Hok.
Qed.

Lemma flow_ok_keep (s : State) (task : nat) (t : Task) :
  task_ok (rooms s) t -> flow_ok s -> flow_ok (keep s task t).
Proof.
  intros Hok Hs. apply flow_ok_set_tasks; [| exact Hs].
  destruct Hs as [[_ [_ [_ [Hk _]]]] _].
  intros task' t' Hin. apply List.in_app_or in Hin as [Hin | [Heq | []]]; [eauto |].
  injection Heq as _ <-. exact Hok.
Qed.

Lemma flow_ok_take (s : State) (task : nat) (t : Task) (others : list (nat * Task)) :
  take_task task (tasks s) = Some (t, others) ->
  flow_ok s -> flow_ok (set_tasks s others) /\ task_ok (rooms s) t.
Proof.
  intros Htake Hs. apply take_task_tasks in Htake as [before [after [Hts ->]]].
  pose proof Hs as [[_ [_ [_ [Hk _]]]] _].
  split.
  - apply flow_ok_set_tasks; [| exact Hs].
    intros task' t' Hin. apply (Hk task'). rewrite Hts.
    apply List.in_app_or in Hin as [Hin | Hin]; apply List.in_or_app;
      [now left | right; now right].
  - apply (Hk task). rewrite Hts. apply List.in_or_app. right. now left.
Qed.

Lemma flow_ok_set_roomConnections (s : State) (x : gmap string (list RoomConnection)) :
  flow_ok s -> flow_ok (set_roomConnections s x).
Proof. intros H. exact H. Qed.

Lemma flow_ok_set_matchSent (s : State) (x : gset string) :
  flow_ok s -> flow_ok (set_matchSent s x).
Proof. intros H. exact H. Qed.

Lemma flow_ok_set_agentTools (s : State) (x : list FunctionTool) :
  flow_ok s -> flow_ok (set_agentTools s x).
Proof. intros H. exact H. Qed.

Lemma flow_ok_stash (s : State) (rid : string) (pending : PendingAction) :
  is_Some (chosen_of (rooms s) rid) -> is_action (pa_text pending) = true ->
  flow_ok s ->
  flow_ok (set_pendingActions s (<[rid := pending]> (pendingActions s))).
Proof.
  intros Hc Ha [[Hp [Hv [Ht [Hk Hm]]]] Hann]. split; [| exact Hann].
  unfold gates_ok; simpl. conjs; auto.
  intros rid' pending'. destruct (decide (rid = rid')) as [<- | Hne].
  - rewrite lookup_insert_eq. intros [= <-]. auto.
  - rewrite lookup_insert_ne by exact Hne. apply Hp.
Qed.

Lemma flow_ok_unstash (s : State) (rid : string) :
  flow_ok s -> flow_ok (set_pendingActions s (delete rid (pendingActions s))).
Proof.
  intros [[Hp [Hv [Ht [Hk Hm]]]] Hann]. split; [| exact Hann].
  unfold gates_ok; simpl. conjs; auto.
  intros rid' pending'. destruct (decide (rid = rid')) as [<- | Hne].
  - rewrite lookup_delete_eq. discriminate.
  - rewrite lookup_delete_ne by exact Hne. apply Hp.
Qed.

Lemma flow_ok_verifier (s : State) (rid : string) :
  is_Some (chosen_of (rooms s) rid) -> flow_ok s ->
  flow_ok (set_pendingVerifiers s ({[rid]} ∪ pendingVerifiers s)).
Proof.
  intros Hc [[Hp [Hv [Ht [Hk Hm]]]] Hann]. split; [| exact Hann].
  unfold gates_ok; simpl. conjs; auto.
  intros rid'. rewrite elem_of_union, elem_of_singleton. intros [-> | H]; auto.
Qed.

Lemma flow_ok_verifier_used (s : State) (rid : string) :
  flow_ok s -> flow_ok (set_pendingVerifiers s (pendingVerifiers s ∖ {[rid]})).
Proof.
  intros [[Hp [Hv [Ht [Hk Hm]]]] Hann]. split; [| exact Hann].
  unfold gates_ok; simpl. conjs; auto.
  intros rid'. rewrite elem_of_difference. intros [H _]. auto.
Qed.

Lemma flow_ok_tokens (s : State) (rid tokens : string) :
  is_Some (chosen_of (rooms s) rid) -> flow_ok s ->
  flow_ok (set_roomAuthStore s (<[rid := tokens]> (roomAuthStore s))).
Proof.
  intros Hc [[Hp [Hv [Ht [Hk Hm]]]] Hann]. split; [| exact Hann].
  unfold gates_ok; simpl. conjs; auto.
  intros rid'. destruct (decide (rid = rid')) as [<- | Hne]; [auto |].
  rewrite lookup_insert_ne by exact Hne. apply Ht.
Qed.

Lemma chosen_of_insert (rooms : gmap string Room) (rid rid' : string) (room : Room) :
  chosen_of (<[rid := room]> rooms) rid'
  = if decide (rid = rid') then chosenAction room else chosen_of rooms rid'.
Proof.
  unfold chosen_of. destruct (decide (rid = rid')) as [<- | Hne].
  - now rewrite lookup_insert_eq.
  - now rewrite lookup_insert_ne.
Qed.

Lemma is_Some_insert_keeps (rooms : gmap string Room) (rid rid' : string) (room : Room) :
  is_Some (rooms !! rid') -> is_Some (<[rid := room]> rooms !! rid').
Proof.
  destruct (decide (rid = rid')) as [<- | Hne].
  - rewrite lookup_insert_eq. eauto.
  - now rewrite lookup_insert_ne.
Qed.

(** The lock and its announcement, taken together. *)
Lemma flow_ok_lock (s : State) (rid uid sender : string) (room : Room) (a : Member ActionType) :
  rooms s !! rid = Some room -> chosenAction room = None ->
  flow_ok s ->
  flow_ok (broadcastToRoom
             (set_rooms s (<[rid := set_chosen room a uid]> (rooms s)))
             rid (action_chosen a sender)).
Proof.
  intros Hroom Hnone [Hg Hann].
  assert (Hfree : chosen_of (rooms s) rid = None).
  { unfold chosen_of. now rewrite Hroom. }
  assert (Hadv : rooms_advance (rooms s) (<[rid := set_chosen room a uid]> (rooms s))).
  { split.
    - intros rid' a'. rewrite chosen_of_insert.
      destruct (decide (rid = rid')) as [<- | Hne]; [congruence | auto].
    - intros rid'. apply is_Some_insert_keeps. }
  pose proof (gates_ok_advance s _ Hadv Hg) as [Hp [Hv [Ht [Hk Hm]]]].
  unfold broadcastToRoom. split.
  - unfold gates_ok; simpl. conjs; auto.
    intros rid' m Hin. apply List.in_app_or in Hin as [Hin | [Heq | []]]; [eauto |].
    discriminate Heq.
  - intros rid'. rewrite announcements_push. simpl.
    unfold announcements; simpl. fold (announcements rid' s).
    rewrite Hann, chosen_of_insert.
    destruct (decide (rid = rid')) as [<- | Hne].
    + rewrite Hfree, String.eqb_refl. reflexivity.
    + apply String.eqb_neq in Hne. rewrite Hne, List.app_nil_r. reflexivity.
Qed.

Lemma is_action_Some (text : string) (a : Member ActionType) :
  obj_get text ACTION_MAP = Some a -> is_action text = true.
Proof. unfold is_action. now intros ->. Qed.

Lemma is_action_None (text : string) :
  obj_get text ACTION_MAP = None -> is_action text = false.
Proof. unfold is_action. now intros ->. Qed.

Lemma no_tokens_before_choice (s : State) (rid : string) (room : Room) :
  flow_ok s -> rooms s !! rid = Some room -> chosenAction room = None ->
  roomAuthStore s !! rid = None.
Proof.
  intros [[_ [_ [Ht _]]] _] Hroom Hnone.
  destruct (roomAuthStore s !! rid) as [tokens |] eqn:Htok; [| reflexivity].
  destruct (Ht rid) as [a Ha]; [rewrite Htok; eauto |].
  unfold chosen_of in Ha. rewrite Hroom in Ha. congruence.
Qed.

Lemma processMessage_flow (s : State) (rid uid : string) (ws : nat) (text : string) :
  flow_ok s -> flow_ok (processMessage s rid uid ws text).
Proof.
  intros Hs. unfold processMessage, getRoom.
  destruct (rooms s !! rid) as [room |] eqn:Hroom; [| exact Hs].
  destruct (obj_get text ACTION_MAP) as [a |] eqn:Hact.
  - destruct (chosenAction room) as [chosen |] eqn:Hchosen.
    + apply flow_ok_push; [exact I | exact Hs].
    + pose proof (no_tokens_before_choice s rid room Hs Hroom Hchosen) as Htok.
      unfold hasTokens. simpl. rewrite Htok.
      rewrite bool_decide_eq_false_2 by (intros [x Hx]; discriminate). simpl.
      apply flow_ok_suspend; [| now apply flow_ok_lock].
      simpl. split; [| now apply (is_action_Some text a)].
      rewrite chosen_of_insert. rewrite decide_True by reflexivity. simpl. eauto.
  - apply flow_ok_suspend; [| exact Hs].
    simpl. split; [rewrite Hroom; eauto | now apply is_action_None].
Qed.

Lemma notifyAuthCompleteForRoom_flow (s : State) (rid : string) :
  flow_ok s -> flow_ok (notifyAuthCompleteForRoom s rid).
Proof.
  intros Hs. unfold notifyAuthCompleteForRoom. simpl.
  assert (Hs1 : flow_ok (broadcastToRoom s rid swiggy_auth_complete)).
  { apply flow_ok_push; [exact I | exact Hs]. }
  destruct (pendingActions s !! rid) as [pending |] eqn:Hpending; [| exact Hs1].
  assert (Hs2 : flow_ok (set_pendingActions (broadcastToRoom s rid swiggy_auth_complete)
                           (delete rid (pendingActions s)))).
  { apply (flow_ok_unstash _ rid) in Hs1. exact Hs1. }
  unfold getRoom. simpl.
  destruct (rooms s !! rid) as [room |] eqn:Hroom; [| exact Hs2].
  destruct (chosenAction room) as [chosen |] eqn:Hchosen; [| exact Hs2].
  unfold connectAndInjectTools, getTokens. simpl.
  destruct (roomAuthStore s !! rid) as [tokens |].
  - apply flow_ok_suspend; [| exact Hs2].
    simpl. split.
    + unfold chosen_of. now rewrite Hroom.
    + exists pending. split; [reflexivity |].
      destruct Hs as [[Hp _] _]. now destruct (Hp rid pending Hpending).
  - apply processMessage_flow. exact Hs2.
Qed.

Lemma same_lock_updatePartner (room : Room) (uid : string) (f : Partner -> Partner) :
  same_lock room (updatePartner room uid f).
Proof.
  unfold same_lock, updatePartner.
  destruct (String.eqb _ _); [reflexivity |].
  destruct (partner2 room) as [p2 |]; [| reflexivity].
  now destruct (String.eqb _ _).
Qed.

Lemma same_lock_route : route_writes same_lock.
Proof.
  split; intros; [reflexivity | apply same_lock_updatePartner].
Qed.

Lemma same_lock_tool : tool_writes same_lock.
Proof.
  unfold tool_writes. conjs; intros;
    try apply same_lock_updatePartner; reflexivity.
Qed.

Lemma store_write_agree (rooms rooms' : gmap string Room) :
  store_write same_lock rooms rooms' -> rooms_agree rooms rooms'.
Proof.
  intros [-> | [[rid [room [room' [Hroom [HW ->]]]]]
                | [uuid [now [uid [uname [uphone [Hfresh ->]]]]]]]].
  - split; auto.
  - split.
    + intros rid'. rewrite chosen_of_insert.
      destruct (decide (rid = rid')) as [<- | Hne]; [| reflexivity].
      unfold chosen_of. rewrite Hroom. exact HW.
    + intros rid'. apply is_Some_insert_keeps.
  - split.
    + intros rid'. rewrite chosen_of_insert.
      destruct (decide (uuid = rid')) as [<- | Hne]; [| reflexivity].
      unfold chosen_of. now rewrite Hfresh.
    + intros rid'. apply is_Some_insert_keeps.
Qed.

Lemma runTool_flow (s : State) (ctx : MessageContext) (call : ToolCall) :
  flow_ok s -> rooms_agree (rooms s) (rooms (runTool s ctx call)) /\ flow_ok (runTool s ctx call).
Proof.
  intros Hs.
  assert (Hagree : rooms_agree (rooms s) (rooms (runTool s ctx call))).
  { apply store_write_agree. apply runTool_write. exact same_lock_tool. }
  split; [exact Hagree |].
  destruct call; simpl in *; try (now apply flow_ok_rooms); exact Hs.
Qed.

Lemma afterRunner_flow (s : State) (rid uid sender : string) (ws : nat) :
  flow_ok s -> flow_ok (afterRunner s rid uid sender ws).
Proof.
  intros Hs. unfold afterRunner.
  destruct (getRoom (rooms s) rid) as [updated |]; [| exact Hs].
  assert (Hs1 : forall b1 b2, flow_ok (broadcastToRoom s rid (quiz_update b1 b2))).
  { intros b1 b2. apply flow_ok_push; [exact I | exact Hs]. }
  cbv zeta. destruct (_ && _).
  - apply flow_ok_suspend; [exact I |]. apply flow_ok_set_matchSent. apply Hs1.
  - apply Hs1.
Qed.

Lemma somethingWentWrong_flow (s : State) (ws : nat) :
  flow_ok s -> flow_ok (somethingWentWrong s ws).
Proof. intros Hs. apply flow_ok_push; [exact I | exact Hs]. Qed.

Lemma reveal_flow (s : State) (rid : string) (ws : nat)
    (result : MatchOutput + MatchError) :
  flow_ok s -> flow_ok (reveal s rid ws result).
Proof.
  intros Hs. unfold reveal. destruct result as [result |]; [| exact Hs].
  destruct (getRoom (rooms s) rid) as [updated |]; [| exact Hs].
  cbv zeta.
  match goal with
  | |- context [broadcastToRoom s rid ?m] =>
      assert (Hs1 : flow_ok (broadcastToRoom s rid m))
        by (apply flow_ok_push; [exact I | exact Hs])
  end.
  destruct (partner2 updated) as [p2 |].
  - unfold sendPersonalizedReveal, sendToUser.
    apply flow_ok_push; [exact I |]. apply flow_ok_push; [exact I | exact Hs1].
  - apply somethingWentWrong_flow. exact Hs1.
Qed.

Lemma task_ok_agree (rooms rooms' : gmap string Room) (t : Task) :
  rooms_agree rooms rooms' -> task_ok rooms t -> task_ok rooms' t.
Proof. intros H. apply task_ok_advance. now apply rooms_agree_advance. Qed.

Lemma resume_flow (s s' : State) (task : nat) (t : Task) (r : Resumption) :
  flow_ok s -> task_ok (rooms s) t ->
  resume s task t r = Some s' -> flow_ok s'.
Proof.
  intros Hs Hok.
  destruct t as [rid uid ws text | rid a k | rid uid sender ws text
                 | rid uid sender ws postAction | rid uid sender ws
                 | rid uid sender ws result];
    destruct r; simpl; try discriminate.
  - (* getAuthorizationUrl rejects *)
    intros [= <-]. apply flow_ok_push; [exact I | exact Hs].
  - (* getAuthorizationUrl resolves *)
    intros [= <-]. destruct Hok as [Hc Ha].
    apply flow_ok_push; [exact I |].
    apply (flow_ok_stash (set_pendingVerifiers s ({[rid]} ∪ pendingVerifiers s)) rid
             (mkPendingAction uid text ws)); [exact Hc | exact Ha |].
    now apply flow_ok_verifier.
  - (* connectMCP rejects *)
    intros [= <-]. destruct Hok as [Hc [pending [-> Ha]]]. simpl.
    apply processMessage_flow. apply flow_ok_push; [exact I | exact Hs].
  - (* connectMCP resolves *)
    destruct a as [a | inherited_name]; [| discriminate].
    intros [= <-]. destruct Hok as [Hc [pending [-> Ha]]]. simpl.
    apply processMessage_flow. now apply flow_ok_set_agentTools.
  - (* the session is there *)
    intros [= <-]. destruct Hok as [[room Hroom] Hna].
    apply flow_ok_suspend; [| exact Hs].
    simpl. unfold getRoom. rewrite Hroom.
    intros Hpost. apply bool_decide_eq_true_1 in Hpost.
    unfold chosen_of. now rewrite Hroom.
  - intros [= <-]. exact Hs.
  - (* the runner rejects *)
    intros [= <-]. now apply somethingWentWrong_flow.
  - (* a tool runs *)
    intros [= <-].
    destruct (runTool_flow s (mkContext rid uid sender) call Hs) as [Hagree Hs1].
    apply flow_ok_keep; [| exact Hs1].
    now apply (task_ok_agree (rooms s)).
  - (* a final response *)
    intros [= <-]. apply flow_ok_keep.
    + destruct (String.eqb responseText EmptyString); [exact Hok |].
      destruct postAction; exact Hok.
    + destruct (String.eqb responseText EmptyString); [exact Hs |].
      destruct postAction.
      * apply flow_ok_push; [| exact Hs]. simpl. now apply Hok.
      * apply flow_ok_push; [exact I | exact Hs].
  - (* the stream ends *)
    intros [= <-]. now apply afterRunner_flow.
  - (* the import resolves *)
    destruct (calculateMatchTool (rooms s) (mkContext rid uid sender))
      as [rooms' m] eqn:Hm.
    intros [= <-]. apply flow_ok_keep; [exact I |].
    apply flow_ok_rooms; [| exact Hs].
    replace rooms' with (fst (calculateMatchTool (rooms s) (mkContext rid uid sender)))
      by (now rewrite Hm).
    apply store_write_agree. apply calculateMatchTool_write. exact same_lock_tool.
  - intros [= <-]. now apply somethingWentWrong_flow.
  - destruct result as [result |]; [| discriminate].
    intros [= <-]. now apply reveal_flow.
  - intros [= <-]. now apply somethingWentWrong_flow.
Qed.

Lemma handle_flow (s : State) (e : Event) : flow_ok s -> flow_ok (handle s e).
Proof.
  intros Hs.
  destruct e as [uuid now uid uname uphone | rid uid uname uphone
                 | rid uid data mime | rid uid ws
                 | rid uid ws text | rid uid ws | rid tokens | task r]; simpl.
  - destruct (rooms s !! uuid) eqn:Hfresh; [exact Hs |].
    apply flow_ok_rooms; [| exact Hs]. apply store_write_agree.
    right; right. exists uuid, now, uid, uname, uphone. auto.
  - apply flow_ok_rooms; [| exact Hs]. apply store_write_agree.
    apply joinRoom_write. exact same_lock_route.
  - apply flow_ok_rooms; [| exact Hs]. apply store_write_agree.
    apply uploadPhoto_write. exact same_lock_route.
  - destruct (connected _ _ _ _); [exact Hs |].
    unfold onConnection. destruct (getRoom _ _) as [room |]; [| exact Hs].
    destruct (negb _); [exact Hs |]. cbv zeta.
    destruct (getPartner _ _), (partner2 room);
      try (apply flow_ok_push; [exact I |]); now apply flow_ok_set_roomConnections.
  - destruct (_ && _); [now apply processMessage_flow | exact Hs].
  - destruct (connected _ _ _ _); [| exact Hs].
    unfold onClose. destruct (roomConnections s !! rid); [| exact Hs].
    destruct (spliceConnection _ _ _); exact Hs.
  - destruct (bool_decide (rid ∈ pendingVerifiers s)) eqn:Hv; [| exact Hs].
    apply bool_decide_eq_true_1 in Hv.
    apply notifyAuthCompleteForRoom_flow.
    apply (flow_ok_verifier_used
             (set_roomAuthStore s (<[rid := tokens]> (roomAuthStore s))) rid).
    apply flow_ok_tokens; [| exact Hs].
    destruct Hs as [[_ [Hver _]] _]. now apply Hver.
  - destruct (take_task task (tasks s)) as [[t others] |] eqn:Htake; [| exact Hs].
    destruct (flow_ok_take s task t others Htake Hs) as [Hs1 Hok].
    destruct (resume _ _ _ _) as [s' |] eqn:Hres; [| exact Hs].
    now apply (resume_flow (set_tasks s others) s' task t r).
Qed.

Lemma initial_flow : flow_ok initial.
Proof.
  split.
  - unfold gates_ok; simpl. conjs.
    + intros rid pending. rewrite lookup_empty. discriminate.
    + intros rid H. now apply elem_of_empty in H.
    + intros rid [x H]. rewrite lookup_empty in H. discriminate.
    + intros task t [].
    + intros rid m [].
  - intros rid. reflexivity.
Qed.

Lemma run_flow (events : list Event) (s : State) :
  flow_ok s -> flow_ok (run events s).
Proof.
  revert s. induction events as [| e events IH]; intros s Hs; [exact Hs |].
  rewrite run_cons. apply IH. now apply handle_flow.
Qed.

Lemma reachable_flow (events : list Event) : flow_ok (run events initial).
Proof. apply run_flow, initial_flow. Qed.

(** X19.  Tokens, a PKCE verifier or a stashed proposal exist for a room only
    after the room's action has been chosen. *)
Theorem authorization_only_after_choice (events : list Event) (rid : string) :
  is_Some (roomAuthStore (run events initial) !! rid)
  \/ rid ∈ pendingVerifiers (run events initial)
  \/ is_Some (pendingActions (run events initial) !! rid) ->
  exists room a,
    rooms (run events initial) !! rid = Some room /\ chosenAction room = Some a.
Proof.
  destruct (reachable_flow events) as [[Hp [Hv [Ht _]]] _].
  intros [H | [H | [pending H]]]; apply is_Some_chosen; auto.
  now destruct (Hp rid pending H).
Qed.

Lemma authorization_only_after_choice_witness :
  exists room a,
    rooms (run authorized_proposal initial) !! "r" = Some room
    /\ chosenAction room = Some a.
Proof.
  apply (authorization_only_after_choice authorized_proposal "r").
  left. vm_compute. eexists; reflexivity.
Defined.

(** X20.  The first proposal in a room always starts an authorization: it
    locks the action, announces it, and is suspended at
    [getAuthorizationUrl]; it never connects to the remote endpoint
    directly and never reaches the responder. *)
Theorem first_proposal_starts_authorization (events : list Event)
    (rid uid : string) (ws : nat) (text : string) (a : Member ActionType) (room : Room) :
  rooms (run events initial) !! rid = Some room ->
  chosenAction room = None ->
  obj_get text ACTION_MAP = Some a ->
  processMessage (run events initial) rid uid ws text
  = suspend
      (broadcastToRoom
         (set_rooms (run events initial)
            (<[rid := set_chosen room a uid]> (rooms (run events initial))))
         rid
         (action_chosen a (match getPartner room uid with
                           | Some p => name p
                           | None => uid
                           end)))
      (AwaitAuthorizationUrl rid uid ws text).
Proof.
  intros Hroom Hnone Hact.
  pose proof (no_tokens_before_choice _ rid room (reachable_flow events) Hroom Hnone)
    as Htok.
  unfold processMessage, getRoom. rewrite Hroom, Hact, Hnone.
  unfold hasTokens. simpl. rewrite Htok.
  rewrite bool_decide_eq_false_2 by (intros [x Hx]; discriminate).
  reflexivity.
Qed.

Lemma first_proposal_starts_authorization_witness :
  exists room,
    rooms (run before_proposal initial) !! "r" = Some room
    /\ tasks (processMessage (run before_proposal initial) "r" "p2" 2 "Let's cook together!")
       = [(0%nat, AwaitAuthorizationUrl "r" "p2" 2 "Let's cook together!")].
Proof.
  eexists. split; [vm_compute; reflexivity |].
  rewrite (first_proposal_starts_authorization before_proposal "r" "p2" 2
             "Let's cook together!" (Own cook)
             (mkRoom "r" (mkPartner "p1" "Asha" "111" [] false None None)
                (Some (mkPartner "p2" "Ravi" "222" [] false None None))
                None "session_r" 0 None None None));
    vm_compute; reflexivity.
Defined.

(** X21.  A call suspended at [connectMCP] after an authorization carries
    what the room's lock holds and a stashed text that [ACTION_MAP] answers
    for.  When [connectMCP] returns, resolved or rejected, the stashed text
    is replayed against the lock it took itself: its sender gets the
    already-chose reply for what the lock holds (the label of the action,
    or "undefined" when the lock holds an inherited member), and nothing
    is handed to the responder.  For an inherited member [connectMCP] can
    only reject: a list of tools is no answer to that call. *)
Theorem replayed_proposal_is_refused (events : list Event) (task : nat)
    (rid : string) (a : Member ActionType) (k : AfterConnect)
    (others : list (nat * Task)) (mcpTools : list FunctionTool) :
  take_task task (tasks (run events initial))
  = Some (AwaitConnectMCP rid a k, others) ->
  exists pending,
    k = ThenReplay pending
    /\ is_Some (obj_get (pa_text pending) ACTION_MAP)
    /\ chosen_of (rooms (run events initial)) rid = Some a
    /\ (forall actionType, a = Own actionType ->
        handle (run events initial) (E_resume task (ResolvedTools mcpTools))
        = sendToClient
            (set_agentTools (set_tasks (run events initial) others)
               (pushAll (agentTools (run events initial)) mcpTools))
            (pa_ws pending)
            (agent_message (Text ("Your partner already chose " +:+
               ACTION_LABELS actionType +:+ "! Let's go with that."))))
    /\ (forall member, a = Inherited member ->
        handle (run events initial) (E_resume task (ResolvedTools mcpTools))
        = run events initial)
    /\ handle (run events initial) (E_resume task Rejected)
       = sendToClient
           (broadcastToRoom (set_tasks (run events initial) others) rid
              (error "Failed to connect to Swiggy. The agent will use built-in suggestions instead."))
           (pa_ws pending)
           (agent_message (Text ("Your partner already chose " +:+
              label_of a +:+ "! Let's go with that."))).
Proof.
  intros Htake.
  destruct (flow_ok_take _ task _ others Htake (reachable_flow events))
    as [_ [Hc [pending [-> Hact]]]].
  exists pending. split; [reflexivity |].
  unfold is_action in Hact.
  destruct (obj_get (pa_text pending) ACTION_MAP) as [a' |] eqn:Ha'; [| discriminate].
  split; [eauto |]. split; [exact Hc |].
  unfold chosen_of in Hc.
  destruct (rooms (run events initial) !! rid) as [room |] eqn:Hroom; [| discriminate].
  split; [| split].
  - intros actionType ->. cbn [handle]. rewrite Htake. cbn [resume afterConnect].
    apply (processMessage_later_proposal _ rid _ _ _ room a' (Own actionType)); auto.
  - intros member ->. cbn [handle]. rewrite Htake. reflexivity.
  - cbn [handle]. rewrite Htake. cbn [resume afterConnect].
    apply (processMessage_later_proposal _ rid _ _ _ room a' a); auto.
Qed.

Lemma replayed_proposal_is_refused_witness :
  exists pending,
    ThenReplay (mkPendingAction "p1" "Let's order in!" 1) = ThenReplay pending
    /\ handle (run authorized_proposal initial) (E_resume 1 (ResolvedTools [search_v1]))
       = sendToClient
           (set_agentTools (set_tasks (run authorized_proposal initial) [])
              (pushAll (agentTools (run authorized_proposal initial)) [search_v1]))
           (pa_ws pending)
           (agent_message (Text "Your partner already chose Order In! Let's go with that."))
    /\ handle (run authorized_proposal initial) (E_resume 1 Rejected)
       = sendToClient
           (broadcastToRoom (set_tasks (run authorized_proposal initial) []) "r"
              (error "Failed to connect to Swiggy. The agent will use built-in suggestions instead."))
           (pa_ws pending)
           (agent_message (Text "Your partner already chose Order In! Let's go with that.")).
Proof.
  destruct (replayed_proposal_is_refused authorized_proposal 1 "r" (Own delivery)
              (ThenReplay (mkPendingAction "p1" "Let's order in!" 1)) [] [search_v1])
    as [pending [Hk [_ [_ [Hres [_ Hrej]]]]]]; [vm_compute; reflexivity |].
  exists pending. split; [exact Hk |].
  split; [exact (Hres delivery eq_refl) | exact Hrej].
Defined.

(** X22.  No call that is about to hand a text to the responder carries one
    of the three proposals. *)
Theorem responder_never_gets_a_proposal (events : list Event) (task : nat)
    (rid uid sender : string) (ws : nat) (text : string) :
  In (task, AwaitSession rid uid sender ws text) (tasks (run events initial)) ->
  obj_get text ACTION_MAP = None.
Proof.
  intros Hin.
  destruct (reachable_flow events) as [[_ [_ [_ [Hk _]]]] _].
  destruct (Hk task _ Hin) as [_ Hna]. unfold is_action in Hna.
  now destruct (obj_get text ACTION_MAP).
Qed.

Lemma responder_never_gets_a_proposal_witness :
  obj_get "ready" ACTION_MAP = None.
Proof.
  apply (responder_never_gets_a_proposal
           (before_proposal ++ [E_message "r" "p1" 1 "ready"])
           0 "r" "p1" "Asha" 1 "ready").
  vm_compute. left. reflexivity.
Defined.

(** X23.  A reply of the responder is broadcast to a room only when the
    room's action is chosen; until then replies go to the sender's socket. *)
Theorem room_reply_only_after_choice (events : list Event) (rid : string)
    (m : MessageText) :
  In (ToRoom rid, agent_message m) (sent (run events initial)) ->
  exists room a,
    rooms (run events initial) !! rid = Some room /\ chosenAction room = Some a.
Proof.
  intros Hin.
  destruct (reachable_flow events) as [[_ [_ [_ [_ Hm]]]] _].
  apply is_Some_chosen. eauto.
Qed.

Lemma room_reply_only_after_choice_witness :
  exists room a,
    rooms (run chat_after_choice initial) !! "r" = Some room
    /\ chosenAction room = Some a.
Proof.
  apply (room_reply_only_after_choice chat_after_choice "r" (Text "Great choice!")).
  vm_compute. tauto.
Defined.

(** X24.  Along every schedule what has been announced to a room with
    [action_chosen] is exactly: nothing while the room's lock is empty, and
    what the lock holds, once, from then on.  (What the lock holds is an
    action or, after a text that names one, an inherited member: that
    announcement carries no action, and no later proposal is announced.) *)
Theorem action_announced_once (events : list Event) (rid : string) :
  announcements rid (run events initial)
  = match chosen_of (rooms (run events initial)) rid with
    | Some a => [a]
    | None => []
    end.
Proof. destruct (reachable_flow events) as [_ Ha]. apply Ha. Qed.

(** * Sockets and participants *)

Lemma updatePartner_members (room : Room) (uid u : string) (f : Partner -> Partner) :
  (forall p, userId (f p) = userId p) ->
  isUserInRoom (updatePartner room uid f) u = isUserInRoom room u.
Proof.
  intros Hf. unfold updatePartner, isUserInRoom.
  destruct (String.eqb (userId (partner1 room)) uid); simpl.
  - now rewrite Hf.
  - destruct (partner2 room) as [p2 |] eqn:Hp2; simpl; [| now rewrite Hp2].
    destruct (String.eqb (userId p2) uid); simpl; rewrite ?Hp2, ?Hf; reflexivity.
Qed.

Lemma members_kept_allowed : writes_allowed members_kept.
Proof.
  unfold writes_allowed, route_writes, lock_write, tool_writes, members_kept.
  split; [split | split; [| conjs]]; intros;
    try (rewrite updatePartner_members; [assumption | reflexivity]);
    try assumption.
  unfold isUserInRoom in *. simpl. rewrite H in H1. simpl in H1.
  rewrite orb_false_r in H1. now rewrite H1.
Qed.

Lemma processMessage_roomConnections (s : State) (rid uid : string) (ws : nat)
    (text : string) :
  roomConnections (processMessage s rid uid ws text) = roomConnections s.
Proof.
  unfold processMessage, connectAndInjectTools.
  destruct (getRoom (rooms s) rid) as [room |]; [| reflexivity].
  destruct (obj_get text ACTION_MAP); [| reflexivity].
  destruct (chosenAction room); [reflexivity |].
  destruct (negb _); [reflexivity |].
  now destruct (getTokens _ _).
Qed.

Lemma notifyAuthCompleteForRoom_roomConnections (s : State) (rid : string) :
  roomConnections (notifyAuthCompleteForRoom s rid) = roomConnections s.
Proof.
  unfold notifyAuthCompleteForRoom, connectAndInjectTools. simpl.
  destruct (pendingActions s !! rid); [| reflexivity].
  destruct (getRoom _ _) as [room |]; [| reflexivity].
  destruct (chosenAction room); [| reflexivity].
  destruct (getTokens _ _); [reflexivity |].
  simpl. now rewrite processMessage_roomConnections.
Qed.

Lemma resume_roomConnections (s s' : State) (task : nat) (t : Task) (r : Resumption) :
  resume s task t r = Some s' -> roomConnections s' = roomConnections s.
Proof.
  destruct t as [rid uid ws text | rid a k | rid uid sender ws text
                 | rid uid sender ws postAction | rid uid sender ws
                 | rid uid sender ws result];
    destruct r; simpl; try discriminate;
    try (destruct (calculateMatchTool _ _) as [rooms' m]);
    resume_cases;
    intros [= <-]; try reflexivity.
  - destruct k; simpl; [reflexivity | now rewrite processMessage_roomConnections].
  - destruct k; simpl; [reflexivity | now rewrite processMessage_roomConnections].
  - destruct call; reflexivity.
  - destruct (String.eqb _ _); [reflexivity |]. now destruct postAction.
  - unfold afterRunner. destruct (getRoom _ _); [| reflexivity].
    cbv zeta. now destruct (_ && _).
  - unfold reveal.
    match goal with
    | |- context [match ?x with inl _ => _ | inr _ => _ end] =>
        destruct x; [| reflexivity]
    end.
    destruct (getRoom _ _) as [updated |]; [| reflexivity].
    now destruct (partner2 updated).
Qed.

Lemma conns_ok_rooms (s s' : State) :
  roomConnections s' = roomConnections s ->
  store_write members_kept (rooms s) (rooms s') ->
  conns_ok s -> conns_ok s'.
Proof.
  intros Hc Hw Hs rid conns. rewrite Hc. intros Hconns.
  destruct (Hs rid conns Hconns) as [Hne [room [Hroom Hin]]].
  split; [exact Hne |].
  destruct Hw as [-> | [[rid0 [room0 [room0' [Hroom0 [HW ->]]]]]
                       | [uuid [now [uid [uname [uphone [Hfresh ->]]]]]]]].
  - exists room. auto.
  - destruct (decide (rid0 = rid)) as [-> | Hneq].
    + exists room0'. rewrite lookup_insert_eq. split; [reflexivity |].
      intros c Hc'. apply HW. replace room0 with room by congruence. auto.
    + exists room. rewrite lookup_insert_ne by exact Hneq. auto.
  - exists room. rewrite lookup_insert_ne by congruence. auto.
Qed.

Lemma spliceConnection_In (uid : string) (ws : nat) (conns : list RoomConnection)
    (c : RoomConnection) :
  In c (spliceConnection uid ws conns) -> In c conns.
Proof.
  induction conns as [| c0 conns IH]; simpl; [auto |].
  destruct (is_connection uid ws c0); [auto |].
  intros [-> | H]; auto.
Qed.

Lemma handle_conns (s : State) (e : Event) : conns_ok s -> conns_ok (handle s e).
Proof.
  intros Hs.
  destruct members_kept_allowed as [Hroute [Hlock Htool]].
  pose proof (handle_write members_kept Hroute Hlock Htool s e) as Hw.
  destruct e as [uuid now uid uname uphone | rid uid uname uphone
                 | rid uid data mime | rid uid ws
                 | rid uid ws text | rid uid ws | rid tokens | task r].
  - apply (conns_ok_rooms s); [| exact Hw | exact Hs].
    simpl. now destruct (rooms s !! uuid).
  - apply (conns_ok_rooms s); [reflexivity | exact Hw | exact Hs].
  - apply (conns_ok_rooms s); [reflexivity | exact Hw | exact Hs].
  - clear Hw. simpl. destruct (connected _ _ _ _); [exact Hs |].
    unfold onConnection, getRoom.
    destruct (rooms s !! rid) as [room |] eqn:Hroom; [| exact Hs].
    destruct (isUserInRoom room uid) eqn:Hin; [| exact Hs]. simpl.
    assert (Hnew : conns_ok
              (set_roomConnections s
                 (<[rid := default [] (roomConnections s !! rid)
                           ++ [mkRoomConnection uid ws]]> (roomConnections s)))).
    { intros rid' conns. simpl. destruct (decide (rid = rid')) as [<- | Hne].
      - rewrite lookup_insert_eq. intros [= <-]. split.
        + now destruct (default [] (roomConnections s !! rid)).
        + exists room. split; [exact Hroom |].
          intros c Hc. apply List.in_app_or in Hc as [Hc | [<- | []]]; [| exact Hin].
          destruct (roomConnections s !! rid) as [old |] eqn:Hold; [| destruct Hc].
          destruct (Hs rid old Hold) as [_ [room' [Hroom' Hall]]].
          replace room with room' by congruence. auto.
      - rewrite lookup_insert_ne by exact Hne. apply Hs. }
    destruct (getPartner room uid), (partner2 room); exact Hnew.
  - apply (conns_ok_rooms s); [| exact Hw | exact Hs].
    simpl. destruct (_ && _); [apply processMessage_roomConnections | reflexivity].
  - clear Hw. simpl. destruct (connected _ _ _ _); [| exact Hs].
    unfold onClose.
    destruct (roomConnections s !! rid) as [conns |] eqn:Hconns; [| exact Hs].
    destruct (Hs rid conns Hconns) as [_ [room [Hroom Hall]]].
    destruct (spliceConnection uid ws conns) as [| c rest] eqn:Hsplice.
    + intros rid' conns'. simpl. destruct (decide (rid = rid')) as [<- | Hne].
      * rewrite lookup_delete_eq. discriminate.
      * rewrite lookup_delete_ne by exact Hne. apply Hs.
    + intros rid' conns'. simpl. destruct (decide (rid = rid')) as [<- | Hne].
      * rewrite lookup_insert_eq. intros [= <-]. split; [discriminate |].
        exists room. split; [exact Hroom |].
        intros c' Hc'. apply Hall. apply (spliceConnection_In uid ws).
        now rewrite Hsplice.
      * rewrite lookup_insert_ne by exact Hne. apply Hs.
  - apply (conns_ok_rooms s); [| exact Hw | exact Hs].
    simpl. destruct (bool_decide _); [| reflexivity].
    now rewrite notifyAuthCompleteForRoom_roomConnections.
  - apply (conns_ok_rooms s); [| exact Hw | exact Hs].
    simpl. destruct (take_task task (tasks s)) as [[t others] |]; [| reflexivity].
    destruct (resume _ _ _ _) as [s' |] eqn:Hres; [| reflexivity].
    now apply resume_roomConnections in Hres.
Qed.

Lemma reachable_conns (events : list Event) : conns_ok (run events initial).
Proof.
  assert (Hgen : forall s, conns_ok s -> conns_ok (run events s)).
  { induction events as [| e events IH]; intros s Hs; [exact Hs |].
    rewrite run_cons. apply IH. now apply handle_conns. }
  apply Hgen. intros rid conns. simpl. rewrite lookup_empty. discriminate.
Qed.




Lemma split_by_user (open : nat -> bool) (u1 u2 : string) (conns : list RoomConnection) :
  u1 <> u2 ->
  (forall c, In c conns -> conn_userId c = u1 \/ conn_userId c = u2) ->
  Permutation
    (map conn_ws (List.filter (fun c => open (conn_ws c)) conns))
    (map conn_ws (List.filter (fun c => String.eqb (conn_userId c) u1
                                          && open (conn_ws c)) conns)
     ++ map conn_ws (List.filter (fun c => String.eqb (conn_userId c) u2
                                             && open (conn_ws c)) conns)).
Proof.
  intros Hne. induction conns as [| c conns IH]; intros Hall; [constructor |].
  assert (IH' := IH (fun c' H => Hall c' (or_intror H))). clear IH.
  simpl. destruct (Hall c (or_introl eq_refl)) as [Hu | Hu]; rewrite Hu.
  - rewrite String.eqb_refl.
    replace (String.eqb u1 u2) with false by (symmetry; now apply String.eqb_neq).
    simpl. destruct (open (conn_ws c)); simpl; [now constructor | exact IH'].
  - rewrite String.eqb_refl.
    replace (String.eqb u2 u1) with false
      by (symmetry; apply String.eqb_neq; congruence).
    simpl. destruct (open (conn_ws c)); simpl; [| exact IH'].
    now apply Permutation_cons_app.
Qed.

(** X26.  In a room with two partners, the two personalised messages (one
    [sendToUser] per partner) together reach exactly the sockets a
    [broadcastToRoom] reaches, each socket once. *)
Theorem personal_messages_cover_the_room (events : list Event)
    (open : nat -> bool) (rid : string) (room : Room) (p2 : Partner) :
  rooms (run events initial) !! rid = Some room ->
  partner2 room = Some p2 ->
  Permutation
    (delivered open (run events initial) (ToRoom rid))
    (delivered open (run events initial) (ToUser rid (userId (partner1 room)))
     ++ delivered open (run events initial) (ToUser rid (userId p2))).
Proof.
  intros Hroom Hp2. simpl.
  destruct (roomConnections (run events initial) !! rid) as [conns |] eqn:Hconns;
    [| constructor].
  destruct (reachable_conns events rid conns Hconns) as [_ [room' [Hroom' Hall]]].
  replace room' with room in Hall by congruence.
  apply split_by_user.
  - intros Heq.
    destruct (run_room_invariant room_identity identity_allowed) with
      (events := events) (rid := rid) (room := room) as [_ [_ Hd]].
    + intros uuid now uid uname uphone. unfold room_identity; simpl.
      conjs; auto; discriminate.
    + exact Hroom.
    + now apply (Hd p2 Hp2).
  - intros c Hc. specialize (Hall c Hc). unfold isUserInRoom in Hall.
    rewrite Hp2 in Hall. apply orb_prop in Hall as [H | H];
      apply String.eqb_eq in H; auto.
Qed.

Lemma personal_messages_cover_the_room_witness :
  Permutation
    (delivered (fun _ => true) (run three_sockets initial) (ToRoom "r"))
    (delivered (fun _ => true) (run three_sockets initial) (ToUser "r" "p1")
     ++ delivered (fun _ => true) (run three_sockets initial) (ToUser "r" "p2")).
Proof.
  apply (personal_messages_cover_the_room three_sockets (fun _ => true) "r"
           (mkRoom "r" (mkPartner "p1" "Asha" "111" [] false None None)
              (Some (mkPartner "p2" "Ravi" "222" [] false None None))
              None "session_r" 0 None None None)
           (mkPartner "p2" "Ravi" "222" [] false None None));
    vm_compute; reflexivity.
Defined.

(** * Whose answer is whose in the personalised message *)

Lemma fold_insert_other (key : BreakdownEntry -> string)
    (val : BreakdownEntry -> string) (l : list BreakdownEntry) (k : string) :
  ~ In k (map key l) ->
  forall m : gmap string string,
    fold_left (fun acc b => <[key b := val b]> acc) l m !! k = m !! k.
Proof.
  induction l as [| b l IH]; intros Hk m; simpl; [reflexivity |].
  rewrite IH by (intros H; apply Hk; now right).
  apply lookup_insert_ne. intros Heq. apply Hk. now left.
Qed.

Lemma fold_insert_lookup (key : BreakdownEntry -> string)
    (val : BreakdownEntry -> string) (l : list BreakdownEntry) (b : BreakdownEntry) :
  List.NoDup (map key l) -> In b l ->
  forall m : gmap string string,
    fold_left (fun acc b => <[key b := val b]> acc) l m !! key b = Some (val b).
Proof.
  induction l as [| b0 l IH]; intros Hnd Hin m; [destruct Hin |].
  simpl in Hnd. apply List.NoDup_cons_iff in Hnd as [Hfresh Hnd].
  simpl. destruct Hin as [-> | Hin].
  - rewrite fold_insert_other by exact Hfresh. apply lookup_insert_eq.
  - now apply IH.
Qed.

Lemma find_question_self (q : QuizQuestion) :
  In q QUIZ_QUESTIONS -> find_question (id q) = Some q.
Proof.
  simpl. intros [<- | [<- | [<- | [<- | [<- | [<- | []]]]]]]; reflexivity.
Qed.

(** A fixed question has at most one entry, under its own id. *)
Lemma entry_of_cases (answers1 answers2 : list QuizAnswer) (q : QuizQuestion) :
  entry_of answers1 answers2 q = []
  \/ exists a1 a2 score,
       entry_of answers1 answers2 q
       = [mkQuestionMatch (id q) (answer a1) (answer a2) score].
Proof.
  unfold entry_of.
  destruct (find_answer answers1 (id q)) as [a1 |]; [| now left].
  destruct (find_answer answers2 (id q)) as [a2 |]; [| now left].
  destruct (calculateQuestionScore _ _ _) as [sc | |]; [| now left ..].
  right. eauto.
Qed.

Lemma row_key (answers1 answers2 : list QuizAnswer) (q : QuizQuestion)
    (m : QuestionMatch) :
  In q QUIZ_QUESTIONS -> In m (entry_of answers1 answers2 q) ->
  category_key (row_of m) = category q.
Proof.
  intros Hq Hm.
  destruct (entry_of_cases answers1 answers2 q) as [He | [a1 [a2 [sc He]]]];
    rewrite He in Hm; [destruct Hm |].
  destruct Hm as [<- | []]. unfold category_key, row_of. simpl.
  now rewrite (find_question_self q Hq).
Qed.

Lemma rows_keys (answers1 answers2 : list QuizAnswer) (qs : list QuizQuestion)
    (k : string) :
  (forall q, In q qs -> In q QUIZ_QUESTIONS) ->
  In k (map category_key (map row_of (flat_map (entry_of answers1 answers2) qs))) ->
  In k (map category qs).
Proof.
  intros Hqs Hk. apply List.in_map_iff in Hk as [b [<- Hb]].
  apply List.in_map_iff in Hb as [m [<- Hm]].
  apply List.in_flat_map in Hm as [q [Hq Hm]].
  rewrite (row_key answers1 answers2 q m (Hqs q Hq) Hm).
  now apply List.in_map.
Qed.

Lemma rows_NoDup (answers1 answers2 : list QuizAnswer) (qs : list QuizQuestion) :
  (forall q, In q qs -> In q QUIZ_QUESTIONS) ->
  List.NoDup (map category qs) ->
  List.NoDup (map category_key (map row_of (flat_map (entry_of answers1 answers2) qs))).
Proof.
  induction qs as [| q qs IH]; intros Hqs Hnd; simpl; [constructor |].
  simpl in Hnd. apply List.NoDup_cons_iff in Hnd as [Hfresh Hnd].
  assert (Hrest : forall q', In q' qs -> In q' QUIZ_QUESTIONS)
    by (intros q' H; apply Hqs; now right).
  rewrite !List.map_app.
  pose proof (row_key answers1 answers2 q) as Hkey.
  destruct (entry_of_cases answers1 answers2 q) as [He | [a1 [a2 [sc He]]]];
    rewrite He in *; simpl; [now apply IH |].
  constructor; [| now apply IH].
  rewrite (Hkey _ (Hqs q (or_introl eq_refl)) (or_introl eq_refl)).
  intros Hin. apply Hfresh. now apply (rows_keys answers1 answers2 qs).
Qed.

Lemma categories_NoDup : List.NoDup (map category QUIZ_QUESTIONS).
Proof.
  simpl. repeat (constructor; [simpl; intuition discriminate |]). constructor.
Qed.

Lemma breakdown_rows (answers1 answers2 : list QuizAnswer) (m : MatchResult) :
  computeMatch answers1 answers2 = Returned m ->
  out_breakdown (output_of m)
  = map row_of (flat_map (entry_of answers1 answers2) QUIZ_QUESTIONS).
Proof. intros Hm. now apply computeMatch_Returned in Hm as [-> _]. Qed.

Lemma existsb_answer (answers : list QuizAnswer) (qid : Z) (a : QuizAnswer) :
  find_answer answers qid = Some a ->
  existsb (fun a' => String.eqb (answer a') (answer a)) answers = true.
Proof.
  intros Hfind. apply List.find_some in Hfind as [Hin _].
  apply List.existsb_exists. exists a. split; [exact Hin | apply String.eqb_refl].
Qed.

(** X27.  In the personalised message, built from the breakdown that
    [calculate_match] returns for the two answer lists: partner 1 is always
    told their own answers as theirs; partner 2 is told their own answer to
    a question as theirs when none of partner 2's answers repeats what
    partner 1 answered to it, or both answered it alike; and when some
    answer of partner 2 does repeat it, partner 2 is told partner 1's answer
    as their own. *)
Theorem personal_answers_attribution (p1 p2 : Partner) (result : MatchResult)
    (q : QuizQuestion) (a1 a2 : QuizAnswer) :
  computeMatch (quizAnswers p1) (quizAnswers p2) = Returned result ->
  let breakdown := out_breakdown (output_of result) in
  In q QUIZ_QUESTIONS ->
  find_answer (quizAnswers p1) (id q) = Some a1 ->
  find_answer (quizAnswers p2) (id q) = Some a2 ->
  (myAnswers p1 breakdown !! category q = Some (answer a1)
   /\ theirAnswers p1 breakdown !! category q = Some (answer a2))
  /\ ((forall a, In a (quizAnswers p2) -> answer a = answer a1 -> answer a1 = answer a2) ->
      myAnswers p2 breakdown !! category q = Some (answer a2)
      /\ theirAnswers p2 breakdown !! category q = Some (answer a1))
  /\ ((exists a, In a (quizAnswers p2) /\ answer a = answer a1) ->
      myAnswers p2 breakdown !! category q = Some (answer a1)
      /\ theirAnswers p2 breakdown !! category q = Some (answer a2)).
Proof.
  intros Hresult breakdown Hq H1 H2. subst breakdown.
  rewrite (breakdown_rows _ _ result Hresult).
  apply computeMatch_Returned in Hresult as [_ Hno].
  specialize (Hno q Hq). unfold throws_at in Hno. rewrite H1, H2 in Hno.
  destruct (calculateQuestionScore (category q) (answer a1) (answer a2))
    as [sc | |] eqn:Hsc; try discriminate.
  set (m := mkQuestionMatch (id q) (answer a1) (answer a2) sc).
  set (rows := map row_of
                 (flat_map (entry_of (quizAnswers p1) (quizAnswers p2)) QUIZ_QUESTIONS)).
  assert (Hentry : In m (entry_of (quizAnswers p1) (quizAnswers p2) q)).
  { unfold entry_of. rewrite H1, H2, Hsc. now left. }
  assert (Hrow : In (row_of m) rows).
  { apply List.in_map, List.in_flat_map. exists q. auto. }
  assert (Hkey : category_key (row_of m) = category q)
    by (now apply (row_key (quizAnswers p1) (quizAnswers p2))).
  assert (Hnd : List.NoDup (map category_key rows))
    by (apply rows_NoDup; [auto | apply categories_NoDup]).
  assert (Hlook : forall val : BreakdownEntry -> string,
             fold_left (fun acc b => <[category_key b := val b]> acc) rows
               (∅ : gmap string string)
               !! category q = Some (val (row_of m))).
  { intros val. rewrite <- Hkey. now apply fold_insert_lookup. }
  unfold myAnswers, theirAnswers. rewrite !Hlook.
  assert (Hme1 : meIsP1 p1 (row_of m) = true).
  { unfold meIsP1. simpl. now apply (existsb_answer _ (id q)). }
  rewrite Hme1. simpl.
  split; [auto |]. split.
  - intros Honly.
    destruct (meIsP1 p2 (row_of m)) eqn:Hme2; [| auto].
    unfold meIsP1 in Hme2. simpl in Hme2.
    apply List.existsb_exists in Hme2 as [a [Ha Heq]].
    apply String.eqb_eq in Heq. rewrite (Honly a Ha Heq). auto.
  - intros [a [Ha Heq]].
    assert (Hme2 : meIsP1 p2 (row_of m) = true).
    { unfold meIsP1. simpl. apply List.existsb_exists. exists a.
      split; [exact Ha | now apply String.eqb_eq]. }
    rewrite Hme2. auto.
Qed.

Lemma personal_answers_attribution_witness :
  exists result,
    computeMatch answersA answersC = Returned result
    /\ myAnswers (mkPartner "p2" "Ravi" "222" answersC true None None)
         (out_breakdown (output_of result)) !! "cuisine"
       = Some "Italian"
    /\ find_answer answersC 1 = Some (mkQuizAnswer 1 "Chinese").
Proof.
  eexists. split; [vm_compute; reflexivity |].
  split; [| reflexivity].
  match goal with
  | |- myAnswers _ (out_breakdown (output_of ?result)) !! _ = _ =>
      destruct (personal_answers_attribution
                  (mkPartner "p1" "Asha" "111" answersA true None None)
                  (mkPartner "p2" "Ravi" "222" answersC true None None)
                  result
                  (mkQuizQuestion 1 "What's your go-to cuisine?" "cuisine"
                     ["North Indian"; "South Indian"; "Chinese"; "Italian";
                      "Continental"; "Street Food"; "Other"])
                  (mkQuizAnswer 1 "Italian") (mkQuizAnswer 1 "Chinese"))
        as [_ [_ Hwrong]];
        [vm_compute; reflexivity | simpl; tauto | reflexivity | reflexivity |]
  end.
  apply Hwrong. exists (mkQuizAnswer 4 "Italian"). simpl. tauto.
Defined.

(** * The recipe suggestion *)

Lemma answers_all_find (answers : list QuizAnswer) (qid : Z) :
  answers_all answers -> In qid question_ids ->
  exists a, find_answer answers qid = Some a.
Proof.
  intros Hall Hq. destruct (find_answer_Some answers qid (Hall qid Hq)) as [a [Ha _]].
  eauto.
Qed.

(** X28.  Once a room has a match result, [get_recipe] always answers with
    a suggestion; its cuisine is the override when one is given and
    otherwise partner 1's answer to the cuisine question (never partner
    2's, never the default); it is vegetarian exactly when one of the two
    diet answers is "Veg" or "Vegan"; and what it gives as the recipe is a
    recipe, unless the cuisine names a member of [Object.prototype]: then
    it is that member. *)
Theorem recipe_follows_partner1 (events : list Event) (ctx : MessageContext)
    (room : Room) (m : MatchResult) (cuisine_preference : option string) :
  rooms (run events initial) !! ctx_roomId ctx = Some room ->
  matchResult room = Some m ->
  exists p2 c1 d1 d2 out,
    partner2 room = Some p2
    /\ find_answer (quizAnswers (partner1 room)) 1 = Some c1
    /\ find_answer (quizAnswers (partner1 room)) 3 = Some d1
    /\ find_answer (quizAnswers p2) 3 = Some d2
    /\ getRecipeTool (rooms (run events initial)) ctx cuisine_preference = inl out
    /\ out_cuisine out = default (answer c1) cuisine_preference
    /\ out_isVegetarian out = veg (answer d1) || veg (answer d2)
    /\ (inherited (out_cuisine out) = false -> exists recipe, out_recipe out = Own recipe)
    /\ (inherited (out_cuisine out) = true ->
        out_recipe out = Inherited (out_cuisine out)).
Proof.
  intros Hroom Hm.
  destruct (reachable_match_stored_ok events _ room Hroom m Hm)
    as [p2 [Hp2 [Hc1 [Hc2 _]]]].
  destruct (calculateMatch_when_marked_complete events ctx room p2 Hroom Hp2 Hc1 Hc2)
    as [Hall1 Hall2].
  assert (Hq1 : In 1 question_ids) by (rewrite question_ids_eq; simpl; tauto).
  assert (Hq3 : In 3 question_ids) by (rewrite question_ids_eq; simpl; tauto).
  destruct (answers_all_find _ 1 Hall1 Hq1) as [c1 Hf1].
  destruct (answers_all_find _ 3 Hall1 Hq3) as [d1 Hd1].
  destruct (answers_all_find _ 3 Hall2 Hq3) as [d2 Hd2].
  exists p2, c1, d1, d2. eexists. conjs; try eassumption.
  - unfold getRecipeTool, getRoom. rewrite Hroom, Hm, Hp2, Hf1, Hd1, Hd2.
    cbv zeta. reflexivity.
  - simpl. now destruct cuisine_preference.
  - simpl. unfold veg.
    destruct (String.eqb (answer d1) "Veg"), (String.eqb (answer d2) "Veg"),
      (String.eqb (answer d1) "Vegan"), (String.eqb (answer d2) "Vegan"); reflexivity.
  - cbn [out_cuisine out_recipe]. unfold obj_get, inherited. cbn [own_get].
    intros ->.
    destruct (String.eqb _ _); [eauto |]. destruct (String.eqb _ _); eauto.
  - cbn [out_cuisine out_recipe]. unfold obj_get. cbn [own_get].
    set (cuisine := default "Italian" _). intros Hin.
    destruct (String.eqb_spec "North Indian" cuisine) as [Heq | _];
      [rewrite <- Heq in Hin; discriminate Hin |].
    destruct (String.eqb_spec "Italian" cuisine) as [Heq | _];
      [rewrite <- Heq in Hin; discriminate Hin |].
    unfold inherited in Hin. now rewrite Hin.
Qed.

Lemma recipe_follows_partner1_witness :
  exists out,
    getRecipeTool (rooms (run quiz_done initial)) (mkContext "r" "p2" "Ravi") None
    = inl out
    /\ out_cuisine out = "Chinese"
    /\ out_isVegetarian out = true.
Proof.
  destruct (recipe_follows_partner1 quiz_done (mkContext "r" "p2" "Ravi")
              (default (created_room "r" 0 "p1" "Asha" "111")
                       (rooms (run quiz_done initial) !! "r"))
              (match_of
                 [ mkQuizAnswer 1 "Chinese"; mkQuizAnswer 2 "Medium";
                   mkQuizAnswer 3 "Non-Veg"; mkQuizAnswer 4 "₹400-700";
                   mkQuizAnswer 5 "Home-cooked"; mkQuizAnswer 6 "Sushi/Asian" ]
                 [ mkQuizAnswer 1 "Italian"; mkQuizAnswer 2 "Medium";
                   mkQuizAnswer 3 "Vegan"; mkQuizAnswer 4 "₹400-700";
                   mkQuizAnswer 5 "Cozy & Romantic"; mkQuizAnswer 6 "Pizza/Pasta" ])
              None)
    as [p2 [c1 [d1 [d2 [out [Hp2 [Hc1 [Hd1 [Hd2 [Hout [Hcu [Hveg _]]]]]]]]]]]];
    [vm_compute; reflexivity | vm_compute; reflexivity |].
  exists out. split; [exact Hout |].
  vm_compute in Hp2. injection Hp2 as <-.
  vm_compute in Hc1, Hd1, Hd2.
  injection Hc1 as <-. injection Hd1 as <-. injection Hd2 as <-.
  rewrite Hcu, Hveg. split; reflexivity.
Defined.

(** * The agent's tool list over time *)

Lemma processMessage_agentTools (s : State) (rid uid : string) (ws : nat)
    (text : string) :
  agentTools (processMessage s rid uid ws text) = agentTools s.
Proof.
  unfold processMessage, connectAndInjectTools.
  destruct (getRoom (rooms s) rid) as [room |]; [| reflexivity].
  destruct (obj_get text ACTION_MAP); [| reflexivity].
  destruct (chosenAction room); [reflexivity |].
  destruct (negb _); [reflexivity |].
  now destruct (getTokens _ _).
Qed.

Lemma notifyAuthCompleteForRoom_agentTools (s : State) (rid : string) :
  agentTools (notifyAuthCompleteForRoom s rid) = agentTools s.
Proof.
  unfold notifyAuthCompleteForRoom, connectAndInjectTools. simpl.
  destruct (pendingActions s !! rid); [| reflexivity].
  destruct (getRoom _ _) as [room |]; [| reflexivity].
  destruct (chosenAction room); [| reflexivity].
  destruct (getTokens _ _); [reflexivity |].
  simpl. now rewrite processMessage_agentTools.
Qed.

Lemma resume_agentTools (s s' : State) (task : nat) (t : Task) (r : Resumption) :
  resume s task t r = Some s' ->
  exists more, agentTools s' = agentTools s ++ more.
Proof.
  assert (Hsame : forall s1, agentTools s1 = agentTools s ->
                    exists more, agentTools s1 = agentTools s ++ more).
  { intros s1 ->. exists []. now rewrite List.app_nil_r. }
  destruct t as [rid uid ws text | rid a k | rid uid sender ws text
                 | rid uid sender ws postAction | rid uid sender ws
                 | rid uid sender ws result];
    destruct r; simpl; try discriminate;
    try (destruct (calculateMatchTool _ _) as [rooms' m]);
    resume_cases;
    intros [= <-]; try (apply Hsame; reflexivity).
  - apply Hsame. destruct k; simpl;
      [reflexivity | now rewrite processMessage_agentTools].
  - exists mcpTools. rewrite <- pushAll_app.
    destruct k; simpl; [reflexivity | now rewrite processMessage_agentTools].
  - apply Hsame. destruct call; reflexivity.
  - apply Hsame. destruct (String.eqb _ _); [reflexivity |]. now destruct postAction.
  - apply Hsame. unfold afterRunner. destruct (getRoom _ _); [| reflexivity].
    cbv zeta. now destruct (_ && _).
  - apply Hsame. unfold reveal.
    match goal with
    | |- context [match ?x with inl _ => _ | inr _ => _ end] =>
        destruct x; [| reflexivity]
    end.
    destruct (getRoom _ _) as [updated |]; [| reflexivity].
    now destruct (partner2 updated).
Qed.

Lemma handle_agentTools (s : State) (e : Event) :
  exists more, agentTools (handle s e) = agentTools s ++ more.
Proof.
  assert (Hsame : forall s1, agentTools s1 = agentTools s ->
                    exists more, agentTools s1 = agentTools s ++ more).
  { intros s1 ->. exists []. now rewrite List.app_nil_r. }
  destruct e as [uuid now uid uname uphone | rid uid uname uphone
                 | rid uid data mime | rid uid ws
                 | rid uid ws text | rid uid ws | rid tokens | task r]; simpl.
  - apply Hsame. now destruct (rooms s !! uuid).
  - now apply Hsame.
  - now apply Hsame.
  - apply Hsame. destruct (connected _ _ _ _); [reflexivity |].
    unfold onConnection. destruct (getRoom _ _) as [room |]; [| reflexivity].
    destruct (negb _); [reflexivity |]. cbv zeta.
    now destruct (getPartner _ _), (partner2 room).
  - apply Hsame. destruct (_ && _); [now rewrite processMessage_agentTools | reflexivity].
  - apply Hsame. destruct (connected _ _ _ _); [| reflexivity].
    unfold onClose. destruct (roomConnections s !! rid); [| reflexivity].
    now destruct (spliceConnection _ _ _).
  - apply Hsame. destruct (bool_decide _); [| reflexivity].
    now rewrite notifyAuthCompleteForRoom_agentTools.
  - destruct (take_task task (tasks s)) as [[t others] |]; [| now apply Hsame].
    destruct (resume _ _ _ _) as [s' |] eqn:Hres; [| now apply Hsame].
    now apply resume_agentTools in Hres.
Qed.

(** X29.  No tool is ever taken out of the agent's tool list or moved in it:
    whatever happens (sockets close, rooms empty, connections to the remote
    endpoint fail), the list after is the list before with tools appended;
    in particular the five built-in tools stay its first five entries. *)
Theorem tools_are_never_removed (events : list Event) (s : State) :
  exists more, agentTools (run events s) = agentTools s ++ more.
Proof.
  revert s. induction events as [| e events IH]; intros s.
  - exists []. now rewrite List.app_nil_r.
  - rewrite run_cons. destruct (IH (handle s e)) as [more2 H2].
    destruct (handle_agentTools s e) as [more1 H1].
    exists (more1 ++ more2). rewrite H2, H1. now rewrite List.app_assoc.
Qed.

(** * A new room *)

(** X30.  [createRoom] stores the new room under its id and leaves every
    other room as it was; the creator is its only member; the creator
    cannot join it ("You are already in this room"), and anybody else can,
    as partner 2 with an empty quiz. *)
Theorem createRoom_then_join (rooms : gmap string Room)
    (uuid : string) (now : Z) (uid uname uphone : string) :
  let rooms' := fst (createRoom rooms uuid now uid uname uphone) in
  let room := snd (createRoom rooms uuid now uid uname uphone) in
  rooms' !! uuid = Some room
  /\ (forall other, other <> uuid -> rooms' !! other = rooms !! other)
  /\ (forall u, isUserInRoom room u = true <-> u = uid)
  /\ (forall uname2 uphone2,
        joinRoom rooms' uuid uid uname2 uphone2 = (rooms', inr AlreadyInRoom))
  /\ (forall uid2 uname2 uphone2, uid2 <> uid ->
        let room2 := set_partner2 room
                       (Some (mkPartner uid2 uname2 uphone2 [] false None None)) in
        joinRoom rooms' uuid uid2 uname2 uphone2
        = (<[uuid := room2]> rooms', inl room2)).
Proof.
  cbv zeta. unfold createRoom. simpl. conjs.
  - apply lookup_insert_eq.
  - intros other Hne. now apply lookup_insert_ne.
  - intros u. unfold isUserInRoom. simpl. rewrite orb_false_r.
    rewrite String.eqb_eq. split; congruence.
  - intros uname2 uphone2. unfold joinRoom. rewrite lookup_insert_eq. simpl.
    now rewrite String.eqb_refl.
  - intros uid2 uname2 uphone2 Hne. unfold joinRoom. rewrite lookup_insert_eq. simpl.
    replace (String.eqb uid uid2) with false
      by (symmetry; apply String.eqb_neq; congruence).
    reflexivity.
Qed.
